From Stdlib Require Import String.
From Stdlib Require Import List ZArith NArith Lia Bool Arith.
From Stdlib Require DecimalNat DecimalFacts.
From Stdlib.Strings Require Import Byte.
Import ListNotations.
#[local] Set Warnings "-abstract-large-number".
Local Open Scope byte_scope.
Local Open Scope Z_scope.


(* ================================================================== *)
(** * Bytes and text *)
(* ================================================================== *)

Definition bytes := list byte.

(** A Python [str], represented by its UTF-8 encoding. *)
Definition pystr := list byte.

Definition byte_to_Z (b : byte) : Z := Z.of_N (Byte.to_N b).

Definition byte_of_Z (z : Z) : byte :=
  match Byte.of_N (Z.to_N (Z.land z 255)) with
  | Some b => b
  | None => x00
  end.

(** String literals of the source, as byte lists. *)
Definition lit (s : string) : bytes := list_byte_of_string s.

Fixpoint bytes_eqb (a b : bytes) : bool :=
  match a, b with
  | [], [] => true
  | x :: a', y :: b' => Byte.eqb x y && bytes_eqb a' b'
  | _, _ => false
  end.

Definition xor_byte (a b : byte) : byte :=
  byte_of_Z (Z.lxor (byte_to_Z a) (byte_to_Z b)).

Definition is_ascii (c : byte) : bool := byte_to_Z c <? 128.

(** Big-endian integer of a byte list, and the [len]-byte big-endian
    encoding of an integer. *)
Fixpoint be_int (acc : Z) (s : bytes) : Z :=
  match s with
  | [] => acc
  | c :: r => be_int (acc * 256 + byte_to_Z c) r
  end.

Definition be_bytes (len : nat) (z : Z) : bytes :=
  map (fun i => byte_of_Z (Z.shiftr z (8 * Z.of_nat (len - 1 - i)))) (seq 0 len).

(** [data[i:i+n]] of Python, for in-range and out-of-range bounds alike. *)
Definition slice {A} (i n : nat) (l : list A) : list A := firstn n (skipn i l).

(** Hexadecimal text, for the test vectors. *)
Definition hex_digit (n : Z) : byte := byte_of_Z (if n <? 10 then 48 + n else 87 + n).

Definition hex (b : bytes) : string :=
  string_of_list_byte
    (flat_map (fun x => [hex_digit (Z.shiftr (byte_to_Z x) 4);
                         hex_digit (Z.land (byte_to_Z x) 15)]) b).

Definition unhex_digit (c : byte) : Z :=
  let z := byte_to_Z c in if z <? 58 then z - 48 else z - 87.

Fixpoint unhex_aux (s : bytes) : bytes :=
  match s with
  | a :: b :: r => byte_of_Z (16 * unhex_digit a + unhex_digit b) :: unhex_aux r
  | _ => []
  end.

Definition unhex (s : string) : bytes := unhex_aux (lit s).

(* ================================================================== *)
(** * Outcomes *)
(* ================================================================== *)

(** The exceptions that the modelled code can raise.  [_decrypt_data]
    re-raises every one of them as [Exception("Decryption failed: ...")];
    the constructor records which one it was. *)
Inductive error : Type :=
| TypeError          (* a missing field ([None]) or a JSON value of the wrong type *)
| KeyError           (* a chunk without one of its fields *)
| ValueError         (* non-ASCII base64 text; key, nonce or tag of a bad size *)
| Base64Error        (* [binascii.Error] *)
| JSONDecodeError    (* [json.loads] rejects the text *)
| InvalidTag         (* AES-GCM authentication failure *)
| IntegrityFailure   (* "Integrity verification failed" *)
| UnicodeDecodeError (* bytes that are not UTF-8, in a file or after decryption *).

Inductive result (A : Type) : Type :=
| Ok (a : A)
| Err (e : error).
Arguments Ok {A} a.
Arguments Err {A} e.

Definition bind {A B} (r : result A) (k : A -> result B) : result B :=
  match r with
  | Ok a => k a
  | Err e => Err e
  end.

Notation "x <- r ;; k" := (bind r (fun x => k))
  (at level 61, r at next level, right associativity).

Definition of_option {A} (e : error) (o : option A) : result A :=
  match o with
  | Some a => Ok a
  | None => Err e
  end.

(* ================================================================== *)
(** * base64 (Python's [base64.b64encode] / [base64.b64decode]) *)
(* ================================================================== *)

Definition b64_alphabet : bytes :=
  lit "ABCDEFGHIJKLMNOPQRSTUVWXYZabcdefghijklmnopqrstuvwxyz0123456789+/".

Definition b64_char (n : Z) : byte := nth (Z.to_nat n) b64_alphabet "=".

Fixpoint b64encode (d : bytes) : bytes :=
  match d with
  | [] => []
  | a :: [] =>
      let a := byte_to_Z a in
      [b64_char (Z.shiftr a 2); b64_char (Z.shiftl (Z.land a 3) 4); "="; "="]
  | a :: b :: [] =>
      let a := byte_to_Z a in
      let b := byte_to_Z b in
      [b64_char (Z.shiftr a 2);
       b64_char (Z.lor (Z.shiftl (Z.land a 3) 4) (Z.shiftr b 4));
       b64_char (Z.shiftl (Z.land b 15) 2); "="]
  | a :: b :: c :: r =>
      let a := byte_to_Z a in
      let b := byte_to_Z b in
      let c := byte_to_Z c in
      b64_char (Z.shiftr a 2)
      :: b64_char (Z.lor (Z.shiftl (Z.land a 3) 4) (Z.shiftr b 4))
      :: b64_char (Z.lor (Z.shiftl (Z.land b 15) 2) (Z.shiftr c 6))
      :: b64_char (Z.land c 63)
      :: b64encode r
  end.

Fixpoint index_of (c : byte) (l : bytes) (i : Z) : option Z :=
  match l with
  | [] => None
  | x :: r => if Byte.eqb c x then Some i else index_of c r (i + 1)
  end.

Definition b64_value (c : byte) : option Z := index_of c b64_alphabet 0.

(** [binascii.a2b_base64] in its default (non-strict) mode: characters
    outside the alphabet are skipped, a completed pad sequence ends the
    input, and leftover sextets are an error.  [quad_pos], [leftchar] and
    [pads] are the decoder's three counters; [out] is the output so far,
    most recent byte first. *)
Fixpoint a2b_base64 (s : bytes) (quad_pos : nat) (leftchar : Z) (pads : nat)
                    (out : bytes) : option bytes :=
  match s with
  | [] => match quad_pos with O => Some (rev out) | _ => None end
  | c :: r =>
      if Byte.eqb c "=" then
        if (2 <=? quad_pos)%nat then
          if (4 <=? quad_pos + (pads + 1))%nat then Some (rev out)
          else a2b_base64 r quad_pos leftchar (pads + 1)%nat out
        else a2b_base64 r quad_pos leftchar pads out
      else
        match b64_value c with
        | None => a2b_base64 r quad_pos leftchar pads out
        | Some v =>
            match quad_pos with
            | 0%nat => a2b_base64 r 1%nat v 0%nat out
            | 1%nat =>
                a2b_base64 r 2%nat (Z.land v 15) 0%nat
                  (byte_of_Z (Z.lor (Z.shiftl leftchar 2) (Z.shiftr v 4)) :: out)
            | 2%nat =>
                a2b_base64 r 3%nat (Z.land v 3) 0%nat
                  (byte_of_Z (Z.lor (Z.shiftl leftchar 4) (Z.shiftr v 2)) :: out)
            | _ =>
                a2b_base64 r 0%nat 0 0%nat
                  (byte_of_Z (Z.lor (Z.shiftl leftchar 6) v) :: out)
            end
        end
  end.

(** [base64.b64decode(s)] on a [str]: a non-ASCII character is a
    [ValueError], then [a2b_base64], whose failure is [binascii.Error]. *)
Definition b64decode (s : pystr) : result bytes :=
  if forallb is_ascii s then of_option Base64Error (a2b_base64 s 0%nat 0 0%nat [])
  else Err ValueError.

(* ================================================================== *)
(** * UTF-8 ([bytes.decode('utf-8')], strict) *)
(* ================================================================== *)

Definition in_range (lo hi : Z) (c : byte) : bool :=
  (lo <=? byte_to_Z c) && (byte_to_Z c <=? hi).

Definition utf8_cont (c : byte) : bool := in_range 128 191 c.

(** Well-formed UTF-8 (Unicode table 3-7): no overlong forms, nothing
    above U+10FFFF, and no surrogates unless [sp] (the [surrogatepass]
    error handler) lets them through. *)
Fixpoint utf8_check (sp : bool) (s : bytes) : bool :=
  match s with
  | [] => true
  | a :: r =>
      if is_ascii a then utf8_check sp r
      else
        match r with
        | [] => false
        | b :: r1 =>
            if in_range 194 223 a then utf8_cont b && utf8_check sp r1
            else
              match r1 with
              | [] => false
              | c :: r2 =>
                  if in_range 224 224 a then
                    in_range 160 191 b && utf8_cont c && utf8_check sp r2
                  else if in_range 225 236 a || in_range 238 239 a then
                    utf8_cont b && utf8_cont c && utf8_check sp r2
                  else if in_range 237 237 a then
                    in_range 128 (if sp then 191 else 159) b && utf8_cont c
                    && utf8_check sp r2
                  else
                    match r2 with
                    | [] => false
                    | d :: r3 =>
                        if in_range 240 240 a then
                          in_range 144 191 b && utf8_cont c && utf8_cont d
                          && utf8_check sp r3
                        else if in_range 241 243 a then
                          utf8_cont b && utf8_cont c && utf8_cont d
                          && utf8_check sp r3
                        else if in_range 244 244 a then
                          in_range 128 143 b && utf8_cont c && utf8_cont d
                          && utf8_check sp r3
                        else false
                    end
              end
        end
  end.

Definition utf8_valid (s : bytes) : bool := utf8_check false s.

(** [b.decode('utf-8')]: the text whose encoding is [b], or
    [UnicodeDecodeError]. *)
Definition utf8_decode (b : bytes) : option pystr :=
  if utf8_valid b then Some b else None.

(* ================================================================== *)
(** * Text files ([open(path, mode, encoding='utf-8')]) *)
(* ================================================================== *)

(** What reading in text mode makes of the line endings (the default
    [newline=None]): a carriage return, with the line feed that follows it
    if there is one, is read as one line feed. *)
Fixpoint universal_newlines (s : bytes) : bytes :=
  match s with
  | [] => []
  | c :: r =>
      if Byte.eqb c x0d then
        x0a :: match r with
               | d :: r' =>
                   if Byte.eqb d x0a then universal_newlines r'
                   else universal_newlines r
               | [] => []
               end
      else c :: universal_newlines r
  end.

(** [open(path, 'r', encoding='utf-8').read()] on a file that holds
    [content]. *)
Definition read_text (content : bytes) : result pystr :=
  text <- of_option UnicodeDecodeError (utf8_decode content) ;;
  Ok (universal_newlines text).

(** [open(path, 'w', encoding='utf-8').write(text)]: the content of the
    file afterwards, where [os.linesep] is the line feed, as on POSIX. *)
Definition write_text (text : pystr) : bytes := text.

(* ================================================================== *)
(** * SHA-256, HMAC-SHA256, PBKDF2-HMAC-SHA256 *)
(* ================================================================== *)

Definition mask32 : Z := 4294967295.
Definition add32 (a b : Z) : Z := Z.land (a + b) mask32.
Definition rotr32 (n x : Z) : Z :=
  Z.lor (Z.shiftr x n) (Z.land (Z.shiftl x (32 - n)) mask32).

(** The round constants are the fractional parts of the cube roots (and,
    for the initial state, the square roots) of the first primes. *)
Fixpoint icbrt_aux (fuel : nat) (lo hi n : Z) : Z :=
  match fuel with
  | O => lo
  | S f =>
      if hi - lo <=? 1 then lo
      else
        let mid := (lo + hi) / 2 in
        if mid * mid * mid <=? n then icbrt_aux f mid hi n
        else icbrt_aux f lo mid n
  end.

Definition icbrt (n : Z) : Z := icbrt_aux 64 0 (Z.shiftl 1 45) n.

Definition is_prime (p : Z) : bool :=
  forallb (fun d => negb (p mod Z.of_nat d =? 0)) (seq 2 (Z.to_nat p - 2)).

Definition first_primes : list Z :=
  Eval vm_compute in firstn 64 (filter is_prime (map Z.of_nat (seq 2 320))).

Definition sha256_K : list Z :=
  Eval vm_compute in
    map (fun p => Z.land (icbrt (p * Z.shiftl 1 96)) mask32) first_primes.

Definition sha256_H0 : list Z :=
  Eval vm_compute in
    map (fun p => Z.land (Z.sqrt (p * Z.shiftl 1 64)) mask32) (firstn 8 first_primes).

Definition Ch (x y z : Z) : Z := Z.lxor z (Z.land x (Z.lxor y z)).
Definition Maj (x y z : Z) : Z :=
  Z.lxor (Z.lxor (Z.land x y) (Z.land x z)) (Z.land y z).
Definition Sigma0 (x : Z) : Z :=
  Z.lxor (Z.lxor (rotr32 2 x) (rotr32 13 x)) (rotr32 22 x).
Definition Sigma1 (x : Z) : Z :=
  Z.lxor (Z.lxor (rotr32 6 x) (rotr32 11 x)) (rotr32 25 x).
Definition sigma0 (x : Z) : Z :=
  Z.lxor (Z.lxor (rotr32 7 x) (rotr32 18 x)) (Z.shiftr x 3).
Definition sigma1 (x : Z) : Z :=
  Z.lxor (Z.lxor (rotr32 17 x) (rotr32 19 x)) (Z.shiftr x 10).

Fixpoint be_words (n : nat) (s : bytes) : list Z :=
  match n with
  | O => []
  | S n' => be_int 0 (firstn 4 s) :: be_words n' (skipn 4 s)
  end.

(** Message schedule: [w] holds the last sixteen words, oldest first. *)
Fixpoint sha256_schedule (n : nat) (w : list Z) : list Z :=
  match n with
  | O => []
  | S n' =>
      let nw := add32 (add32 (sigma1 (nth 14 w 0)) (nth 9 w 0))
                      (add32 (sigma0 (nth 1 w 0)) (nth 0 w 0)) in
      nw :: sha256_schedule n' (tl w ++ [nw])
  end.

Definition sha256_round (st : list Z) (kw : Z * Z) : list Z :=
  match st with
  | [a; b; c; d; e; f; g; h] =>
      let t1 := add32 (add32 (add32 h (Sigma1 e)) (add32 (Ch e f g) (fst kw)))
                      (snd kw) in
      let t2 := add32 (Sigma0 a) (Maj a b c) in
      [add32 t1 t2; a; b; c; add32 d t1; e; f; g]
  | _ => st
  end.

Definition sha256_compress (st : list Z) (block : bytes) : list Z :=
  let w16 := be_words 16 block in
  let w := w16 ++ sha256_schedule 48 w16 in
  let st' := fold_left sha256_round (combine sha256_K w) st in
  map (fun p => add32 (fst p) (snd p)) (combine st st').

Definition sha256_pad (msg : bytes) : bytes :=
  let l := length msg in
  msg ++ [x80] ++ repeat x00 ((119 - l mod 64) mod 64)%nat
      ++ be_bytes 8 (8 * Z.of_nat l).

Fixpoint sha256_blocks (n : nat) (st : list Z) (m : bytes) : list Z :=
  match n with
  | O => st
  | S n' => sha256_blocks n' (sha256_compress st (firstn 64 m)) (skipn 64 m)
  end.

Definition sha256 (msg : bytes) : bytes :=
  let p := sha256_pad msg in
  flat_map (be_bytes 4) (sha256_blocks (length p / 64) sha256_H0 p).

Definition xor_bytes (a b : bytes) : bytes :=
  map (fun p => xor_byte (fst p) (snd p)) (combine a b).

(** [HMAC(key, hashes.SHA256())] fed [msg] and finalised (RFC 2104). *)
Definition hmac_sha256 (key msg : bytes) : bytes :=
  let k0 := if (64 <? length key)%nat then sha256 key else key in
  let k := k0 ++ repeat x00 (64 - length k0) in
  sha256 (map (xor_byte x5c) k ++ sha256 (map (xor_byte x36) k ++ msg)).

Fixpoint pbkdf2_iter (password : bytes) (n : nat) (u acc : bytes) : bytes :=
  match n with
  | O => acc
  | S n' =>
      let u' := hmac_sha256 password u in
      pbkdf2_iter password n' u' (xor_bytes acc u')
  end.

Definition pbkdf2_block (password salt : bytes) (iterations : nat) (i : nat) : bytes :=
  let u1 := hmac_sha256 password (salt ++ be_bytes 4 (Z.of_nat i)) in
  pbkdf2_iter password (iterations - 1) u1 u1.

(** [PBKDF2HMAC(algorithm=SHA256, length, salt, iterations).derive(password)]
    (RFC 8018, section 5.2). *)
Definition pbkdf2_hmac_sha256 (password salt : bytes) (iterations length : nat)
  : bytes :=
  firstn length
    (flat_map (pbkdf2_block password salt iterations)
              (seq 1 ((length + 31) / 32))).

(* ================================================================== *)
(** * AES and Galois/Counter Mode *)
(* ================================================================== *)

(** Arithmetic of GF(2^8) modulo x^8 + x^4 + x^3 + x + 1. *)
Definition xtime (x : Z) : Z :=
  let y := Z.shiftl x 1 in
  if 256 <=? y then Z.lxor y 283 else y.

Fixpoint gf8_mul_aux (n : nat) (a b acc : Z) : Z :=
  match n with
  | O => acc
  | S n' =>
      gf8_mul_aux n' (xtime a) (Z.shiftr b 1)
                  (if Z.testbit b 0 then Z.lxor acc a else acc)
  end.

Definition gf8_mul (a b : Z) : Z := gf8_mul_aux 8 a b 0.

Fixpoint gf8_pow (x : Z) (n : nat) : Z :=
  match n with
  | O => 1
  | S n' => gf8_mul x (gf8_pow x n')
  end.

Definition rotl8 (x n : Z) : Z :=
  Z.land (Z.lor (Z.shiftl x n) (Z.shiftr x (8 - n))) 255.

Definition aes_sbox_entry (x : Z) : Z :=
  let b := gf8_pow x 254 in
  Z.lxor (Z.lxor (Z.lxor (Z.lxor (Z.lxor b (rotl8 b 1)) (rotl8 b 2)) (rotl8 b 3))
                 (rotl8 b 4)) 99.

Definition aes_sbox : list Z :=
  Eval vm_compute in map (fun i => aes_sbox_entry (Z.of_nat i)) (seq 0 256).

Definition sub_byte (x : Z) : Z := nth (Z.to_nat x) aes_sbox 0.

Definition xor_word (a b : list Z) : list Z :=
  map (fun p => Z.lxor (fst p) (snd p)) (combine a b).

Definition rot_word (w : list Z) : list Z :=
  match w with
  | a :: r => r ++ [a]
  | [] => []
  end.

(** Key expansion of FIPS 197 for [nk] key words; [w] is the list of words
    produced so far and [i] its length. *)
Fixpoint aes_expand (n i nk : nat) (w : list (list Z)) : list (list Z) :=
  match n with
  | O => w
  | S n' =>
      let prev := nth (i - 1) w [] in
      let temp :=
        if (i mod nk =? 0)%nat then
          xor_word (map sub_byte (rot_word prev))
                   [gf8_pow 2 (i / nk - 1); 0; 0; 0]
        else if (6 <? nk)%nat && (i mod nk =? 4)%nat then map sub_byte prev
        else prev in
      aes_expand n' (S i) nk (w ++ [xor_word (nth (i - nk) w []) temp])
  end.

Fixpoint words4 (n : nat) (s : list Z) : list (list Z) :=
  match n with
  | O => []
  | S n' => firstn 4 s :: words4 n' (skipn 4 s)
  end.

Definition aes_round_keys (key : bytes) : list Z :=
  let nk := (length key / 4)%nat in
  concat (aes_expand (4 * (nk + 7) - nk) nk nk (words4 nk (map byte_to_Z key))).

Definition idx16 : list nat := seq 0 16.

Definition add_round_key (rk : list Z) (r : nat) (st : list Z) : list Z :=
  map (fun j => Z.lxor (nth j st 0) (nth (16 * r + j) rk 0)) idx16.

Definition shift_rows (st : list Z) : list Z :=
  map (fun j => nth (j mod 4 + 4 * ((j / 4 + j mod 4) mod 4)) st 0) idx16.

Definition mix_columns (st : list Z) : list Z :=
  map (fun j =>
         let c := (4 * (j / 4))%nat in
         let s := fun k => nth (c + (j + k) mod 4) st 0 in
         Z.lxor (Z.lxor (Z.lxor (xtime (s 0%nat))
                                 (Z.lxor (xtime (s 1%nat)) (s 1%nat)))
                        (s 2%nat)) (s 3%nat))
      idx16.

Fixpoint aes_rounds (rk : list Z) (n r : nat) (st : list Z) : list Z :=
  match n with
  | O => st
  | S n' =>
      aes_rounds rk n' (S r)
        (add_round_key rk r (mix_columns (shift_rows (map sub_byte st))))
  end.

(** The AES block function on a 128-bit block given as a big-endian
    integer; the key has 16, 24 or 32 bytes. *)
Definition aes_encrypt_block (key : bytes) (block : Z) : Z :=
  let nr := (length key / 4 + 6)%nat in
  let rk := aes_round_keys key in
  let st0 := add_round_key rk 0 (map byte_to_Z (be_bytes 16 block)) in
  let st := aes_rounds rk (nr - 1) 1 st0 in
  let final := add_round_key rk nr (shift_rows (map sub_byte st)) in
  fold_left (fun acc x => acc * 256 + x) final 0.

(** Multiplication in GF(2^128) as GCM defines it (NIST SP 800-38D,
    algorithm 1); blocks are big-endian integers. *)
Definition gcm_R : Z := Z.shiftl 225 120.

Fixpoint gf128_mul_aux (n : nat) (x v z : Z) : Z :=
  match n with
  | O => z
  | S n' =>
      gf128_mul_aux n' x
        (if Z.testbit v 0 then Z.lxor (Z.shiftr v 1) gcm_R else Z.shiftr v 1)
        (if Z.testbit x (Z.of_nat n') then Z.lxor z v else z)
  end.

Definition gf128_mul (x y : Z) : Z := gf128_mul_aux 128 x y 0.

(** The 16-byte blocks of [s], the last one padded with zeros. *)
Definition blocks16 (s : bytes) : list Z :=
  map (fun i => be_int 0 (let b := slice (16 * i) 16 s in
                          b ++ repeat x00 (16 - length b)))
      (seq 0 ((length s + 15) / 16)).

Definition ghash (h : Z) (blocks : list Z) : Z :=
  fold_left (fun y x => gf128_mul (Z.lxor y x) h) blocks 0.

Definition gcm_j0 (h : Z) (nonce : bytes) : Z :=
  if (length nonce =? 12)%nat then be_int 0 nonce * 4294967296 + 1
  else ghash h (blocks16 nonce ++ [8 * Z.of_nat (length nonce)]).

(** Counter block number [q] after [j0]: the low 32 bits count modulo 2^32. *)
Definition gcm_counter (j0 : Z) (q : Z) : Z :=
  Z.lor (Z.shiftl (Z.shiftr j0 32) 32) (Z.land (j0 + q) mask32).

(** Counter-mode keystream applied to [data]. *)
Definition gcm_ctr (key : bytes) (j0 : Z) (data : bytes) : bytes :=
  let n := length data in
  let ks := map (fun q => aes_encrypt_block key (gcm_counter j0 (Z.of_nat q + 1)))
                (seq 0 ((n + 15) / 16)) in
  map (fun p => xor_byte (snd p)
                  (byte_of_Z (Z.shiftr (nth (fst p / 16) ks 0)
                                       (8 * Z.of_nat (15 - fst p mod 16)))))
      (combine (seq 0 n) data).

(** Authentication tag over an empty associated data and ciphertext [ct]. *)
Definition gcm_tag (key nonce ct : bytes) : bytes :=
  let h := aes_encrypt_block key 0 in
  let j0 := gcm_j0 h nonce in
  let s := ghash h (blocks16 ct ++ [8 * Z.of_nat (length ct)]) in
  be_bytes 16 (Z.lxor s (aes_encrypt_block key j0)).

(** What [Cipher(algorithms.AES(key), modes.GCM(nonce, ...))] accepts. *)
Definition aes_key_ok (key : bytes) : bool :=
  let n := length key in (n =? 16)%nat || (n =? 24)%nat || (n =? 32)%nat.

Definition gcm_nonce_ok (nonce : bytes) : bool :=
  let n := length nonce in (8 <=? n)%nat && (n <=? 128)%nat.

(** [encryptor.update(pt) + encryptor.finalize()] and [encryptor.tag]. *)
Definition aes_gcm_encrypt (key nonce pt : bytes) : result (bytes * bytes) :=
  if aes_key_ok key && gcm_nonce_ok nonce then
    let j0 := gcm_j0 (aes_encrypt_block key 0) nonce in
    let ct := gcm_ctr key j0 pt in
    Ok (ct, gcm_tag key nonce ct)
  else Err ValueError.

(** [decryptor.update(ct) + decryptor.finalize()] for
    [modes.GCM(nonce, tag)]: a tag that is not 16 bytes long is refused
    when the mode is built, a wrong one when the decryptor is finalised. *)
Definition aes_gcm_decrypt (key nonce ct tag : bytes) : result bytes :=
  if aes_key_ok key && gcm_nonce_ok nonce && (length tag =? 16)%nat then
    if bytes_eqb (gcm_tag key nonce ct) tag then
      Ok (gcm_ctr key (gcm_j0 (aes_encrypt_block key 0) nonce) ct)
    else Err InvalidTag
  else Err ValueError.

(* ================================================================== *)
(** * JSON ([json.dumps] and [json.loads] with their default options) *)
(* ================================================================== *)

(** A decoded JSON document.  A number keeps its lexeme, which is all the
    decryptor could ever observe of it.  An object keeps its members in
    source order; Python's [dict] gives a repeated key its last value
    ([obj_get]). *)
#[local] Set Warnings "-register-all".
Inductive json : Type :=
| JNull
| JBool (b : bool)
| JNum (lexeme : bytes)
| JStr (s : pystr)
| JArr (items : list json)
| JObj (members : list (pystr * json)).

(** The code points of a text. *)
Fixpoint utf8_code_points (s : bytes) : list Z :=
  match s with
  | [] => []
  | a :: r =>
      let x := byte_to_Z a in
      if x <? 128 then x :: utf8_code_points r
      else
        match r with
        | [] => []
        | b :: r1 =>
            let y := Z.land (byte_to_Z b) 63 in
            if x <? 224 then
              Z.lor (Z.shiftl (Z.land x 31) 6) y :: utf8_code_points r1
            else
              match r1 with
              | [] => []
              | c :: r2 =>
                  let z := Z.land (byte_to_Z c) 63 in
                  if x <? 240 then
                    Z.lor (Z.shiftl (Z.land x 15) 12) (Z.lor (Z.shiftl y 6) z)
                    :: utf8_code_points r2
                  else
                    match r2 with
                    | [] => []
                    | d :: r3 =>
                        Z.lor (Z.shiftl (Z.land x 7) 18)
                              (Z.lor (Z.shiftl y 12)
                                     (Z.lor (Z.shiftl z 6)
                                            (Z.land (byte_to_Z d) 63)))
                        :: utf8_code_points r3
                    end
              end
        end
  end.

Definition utf8_encode_cp (cp : Z) : bytes :=
  let tail := fun sh => byte_of_Z (128 + Z.land (Z.shiftr cp sh) 63) in
  if cp <? 128 then [byte_of_Z cp]
  else if cp <? 2048 then [byte_of_Z (192 + Z.shiftr cp 6); tail 0]
  else if cp <? 65536 then [byte_of_Z (224 + Z.shiftr cp 12); tail 6; tail 0]
  else [byte_of_Z (240 + Z.shiftr cp 18); tail 12; tail 6; tail 0].

Definition hex4 (n : Z) : bytes :=
  map (fun sh => hex_digit (Z.land (Z.shiftr n sh) 15)) [12; 8; 4; 0].

(** [json.dumps] escapes the quote, the backslash and everything outside
    the printable ASCII range ([ensure_ascii] is on by default). *)
Definition json_escape_cp (cp : Z) : bytes :=
  if cp =? 34 then [x5c; x22]
  else if cp =? 92 then [x5c; x5c]
  else if cp =? 10 then [x5c; "n"]
  else if cp =? 13 then [x5c; "r"]
  else if cp =? 9 then [x5c; "t"]
  else if cp =? 8 then [x5c; "b"]
  else if cp =? 12 then [x5c; "f"]
  else if (32 <=? cp) && (cp <=? 126) then [byte_of_Z cp]
  else if cp <? 65536 then [x5c; "u"] ++ hex4 cp
  else
    let v := cp - 65536 in
    [x5c; "u"] ++ hex4 (55296 + Z.shiftr v 10)
    ++ [x5c; "u"] ++ hex4 (56320 + Z.land v 1023).

Definition json_string (s : pystr) : bytes :=
  [x22] ++ flat_map json_escape_cp (utf8_code_points s) ++ [x22].

Fixpoint join_sep (sep : bytes) (l : list bytes) : bytes :=
  match l with
  | [] => []
  | x :: r =>
      match r with
      | [] => x
      | _ => x ++ sep ++ join_sep sep r
      end
  end.

Fixpoint json_dumps (v : json) : bytes :=
  match v with
  | JNull => lit "null"
  | JBool true => lit "true"
  | JBool false => lit "false"
  | JNum l => l
  | JStr s => json_string s
  | JArr items => lit "[" ++ join_sep (lit ", ") (map json_dumps items) ++ lit "]"
  | JObj members =>
      lit "{"
      ++ join_sep (lit ", ")
           (map (fun kv => json_string (fst kv) ++ lit ": " ++ json_dumps (snd kv))
                members)
      ++ lit "}"
  end.

Definition is_ws (c : byte) : bool :=
  Byte.eqb c " " || Byte.eqb c x09 || Byte.eqb c x0a || Byte.eqb c x0d.

Fixpoint skip_ws (s : bytes) : bytes :=
  match s with
  | [] => []
  | c :: r => if is_ws c then skip_ws r else s
  end.

Fixpoint strip_prefix (p s : bytes) : option bytes :=
  match p with
  | [] => Some s
  | x :: p' =>
      match s with
      | [] => None
      | y :: s' => if Byte.eqb x y then strip_prefix p' s' else None
      end
  end.

Definition is_digit (c : byte) : bool := in_range 48 57 c.

Definition hex_value (c : byte) : option Z :=
  let z := byte_to_Z c in
  if is_digit c then Some (z - 48)
  else if in_range 97 102 c then Some (z - 87)
  else if in_range 65 70 c then Some (z - 55)
  else None.

Definition simple_escape (e : byte) : option byte :=
  if Byte.eqb e x22 then Some x22
  else if Byte.eqb e x5c then Some x5c
  else if Byte.eqb e "/" then Some "/"
  else if Byte.eqb e "b" then Some x08
  else if Byte.eqb e "f" then Some x0c
  else if Byte.eqb e "n" then Some x0a
  else if Byte.eqb e "r" then Some x0d
  else if Byte.eqb e "t" then Some x09
  else None.

(** What a string literal holds: bytes taken as they are, and the UTF-16
    units of [\uXXXX] escapes. *)
Inductive str_item : Type :=
| Raw (c : byte)
| Unit16 (u : Z).

(** The body of a string literal, after its opening quote. *)
Fixpoint scan_string (s : bytes) (acc : list str_item)
  : option (list str_item * bytes) :=
  match s with
  | [] => None
  | c :: r =>
      if Byte.eqb c x22 then Some (rev acc, r)
      else if Byte.eqb c x5c then
        match r with
        | [] => None
        | e :: r1 =>
            if Byte.eqb e "u" then
              match r1 with
              | h1 :: h2 :: h3 :: h4 :: r2 =>
                  match hex_value h1, hex_value h2, hex_value h3, hex_value h4 with
                  | Some a, Some b, Some c, Some d =>
                      scan_string r2 (Unit16 (((a * 16 + b) * 16 + c) * 16 + d) :: acc)
                  | _, _, _, _ => None
                  end
              | _ => None
              end
            else
              match simple_escape e with
              | Some x => scan_string r1 (Raw x :: acc)
              | None => None
              end
        end
      else if byte_to_Z c <? 32 then None
      else scan_string r (Raw c :: acc)
  end.

(** A high surrogate directly followed by a low one is one code point. *)
Fixpoint str_of_items (l : list str_item) : pystr :=
  match l with
  | [] => []
  | Raw c :: r => c :: str_of_items r
  | Unit16 hi :: r =>
      match r with
      | Unit16 lo :: r' =>
          if (55296 <=? hi) && (hi <=? 56319) && (56320 <=? lo) && (lo <=? 57343)
          then utf8_encode_cp (65536 + Z.lor (Z.shiftl (hi - 55296) 10) (lo - 56320))
               ++ str_of_items r'
          else utf8_encode_cp hi ++ str_of_items r
      | _ => utf8_encode_cp hi ++ str_of_items r
      end
  end.

Fixpoint span_digits (s : bytes) : bytes * bytes :=
  match s with
  | [] => ([], [])
  | c :: r =>
      if is_digit c then let (d, r') := span_digits r in (c :: d, r')
      else ([], s)
  end.

Definition scan_int (s : bytes) : option (bytes * bytes) :=
  match s with
  | [] => None
  | c :: r =>
      if Byte.eqb c "0" then Some ([c], r)
      else if is_digit c then let (d, r') := span_digits r in Some (c :: d, r')
      else None
  end.

Definition scan_frac (s : bytes) : bytes * bytes :=
  match s with
  | c :: r =>
      if Byte.eqb c "." then
        match span_digits r with
        | ([], _) => ([], s)
        | (d, r') => (c :: d, r')
        end
      else ([], s)
  | [] => ([], s)
  end.

Definition scan_exp (s : bytes) : bytes * bytes :=
  match s with
  | e :: r =>
      if Byte.eqb e "e" || Byte.eqb e "E" then
        let (sign, r1) :=
          match r with
          | c :: r' => if Byte.eqb c "+" || Byte.eqb c "-" then ([c], r') else ([], r)
          | [] => ([], r)
          end in
        match span_digits r1 with
        | ([], _) => ([], s)
        | (d, r2) => (e :: sign ++ d, r2)
        end
      else ([], s)
  | [] => ([], s)
  end.

(** The decoder's number pattern: an optional minus sign, then a zero or
    a digit string without leading zero, then an optional fraction (a dot
    and at least one digit), then an optional exponent. *)
Definition scan_number (s : bytes) : option (bytes * bytes) :=
  let (sign, s1) :=
    match s with
    | c :: r => if Byte.eqb c "-" then ([c], r) else ([], s)
    | [] => ([], s)
    end in
  match scan_int s1 with
  | Some (i, r) =>
      let (f, r1) := scan_frac r in
      let (e, r2) := scan_exp r1 in
      Some (sign ++ i ++ f ++ e, r2)
  | None => None
  end.

Definition scan_literal (s : bytes) : option (json * bytes) :=
  match strip_prefix (lit "null") s with
  | Some r => Some (JNull, r)
  | None =>
  match strip_prefix (lit "true") s with
  | Some r => Some (JBool true, r)
  | None =>
  match strip_prefix (lit "false") s with
  | Some r => Some (JBool false, r)
  | None =>
  match strip_prefix (lit "NaN") s with
  | Some r => Some (JNum (lit "NaN"), r)
  | None =>
  match strip_prefix (lit "Infinity") s with
  | Some r => Some (JNum (lit "Infinity"), r)
  | None =>
  match strip_prefix (lit "-Infinity") s with
  | Some r => Some (JNum (lit "-Infinity"), r)
  | None =>
  match scan_number s with
  | Some (l, r) => Some (JNum l, r)
  | None => None
  end end end end end end end.

(** The decoder's [scan_once]; [fuel] bounds the nesting and the number of
    elements, and the length of the text is always enough. *)
Fixpoint parse_value (fuel : nat) (s : bytes) {struct fuel} : option (json * bytes) :=
  match fuel with
  | O => None
  | S f =>
      match s with
      | [] => None
      | c :: r =>
          if Byte.eqb c x22 then
            match scan_string r [] with
            | Some (items, r') => Some (JStr (str_of_items items), r')
            | None => None
            end
          else if Byte.eqb c "[" then
            match skip_ws r with
            | [] => None
            | c' :: r' =>
                if Byte.eqb c' "]" then Some (JArr [], r')
                else parse_items f (c' :: r') []
            end
          else if Byte.eqb c "{" then
            match skip_ws r with
            | [] => None
            | c' :: r' =>
                if Byte.eqb c' "}" then Some (JObj [], r')
                else parse_members f (c' :: r') []
            end
          else scan_literal s
      end
  end
with parse_items (fuel : nat) (s : bytes) (acc : list json) {struct fuel}
  : option (json * bytes) :=
  match fuel with
  | O => None
  | S f =>
      match parse_value f s with
      | None => None
      | Some (v, r) =>
          match skip_ws r with
          | [] => None
          | c :: r' =>
              if Byte.eqb c "," then parse_items f (skip_ws r') (v :: acc)
              else if Byte.eqb c "]" then Some (JArr (rev (v :: acc)), r')
              else None
          end
      end
  end
with parse_members (fuel : nat) (s : bytes) (acc : list (pystr * json)) {struct fuel}
  : option (json * bytes) :=
  match fuel with
  | O => None
  | S f =>
      match s with
      | [] => None
      | q :: r =>
          if Byte.eqb q x22 then
            match scan_string r [] with
            | None => None
            | Some (k, r1) =>
                match skip_ws r1 with
                | [] => None
                | c1 :: r2 =>
                    if Byte.eqb c1 ":" then
                      match parse_value f (skip_ws r2) with
                      | None => None
                      | Some (v, r3) =>
                          match skip_ws r3 with
                          | [] => None
                          | c3 :: r4 =>
                              if Byte.eqb c3 "," then
                                parse_members f (skip_ws r4) ((str_of_items k, v) :: acc)
                              else if Byte.eqb c3 "}" then
                                Some (JObj (rev ((str_of_items k, v) :: acc)), r4)
                              else None
                          end
                      end
                    else None
                end
            end
          else None
      end
  end.

(** [json.loads] on [bytes]: the text must be UTF-8 (a leading byte-order
    mark is dropped), hold one value, and nothing but white space around
    it.  Input in UTF-16 or UTF-32, which the library also recognises, is
    outside this model and rejected.  The interpreter's own limits are not
    modelled either: it raises on an integer literal of more than 4300
    digits and on nesting deeper than its recursion limit, where this
    function parses the text. *)
Definition json_loads (b : bytes) : option json :=
  let b := match strip_prefix [xef; xbb; xbf] b with Some r => r | None => b end in
  if utf8_check true b then
    match parse_value (S (length b)) (skip_ws b) with
    | Some (v, r) => match skip_ws r with [] => Some v | _ :: _ => None end
    | None => None
    end
  else None.

Fixpoint obj_get (k : pystr) (m : list (pystr * json)) : option json :=
  match m with
  | [] => None
  | (k', v) :: r =>
      match obj_get k r with
      | Some v' => Some v'
      | None => if bytes_eqb k k' then Some v else None
      end
  end.

(** [for x in v]: a list yields its items, a dict its keys and a string
    its characters; anything else is not iterable. *)
Definition py_iter (v : json) : result (list json) :=
  match v with
  | JArr items => Ok items
  | JObj members => Ok (map (fun kv => JStr (fst kv)) members)
  | JStr s => Ok (map (fun c => JStr [byte_of_Z c]) (utf8_code_points s))
  | _ => Err TypeError
  end.

(** [v[k]] for a string key [k]. *)
Definition py_getitem (v : json) (k : pystr) : result json :=
  match v with
  | JObj members => of_option KeyError (obj_get k members)
  | _ => Err TypeError
  end.

(** [base64.b64decode(v)] for a value that came out of JSON. *)
Definition py_b64decode (v : json) : result bytes :=
  match v with
  | JStr s => b64decode s
  | _ => Err TypeError
  end.

(* ================================================================== *)
(** * core/key_manager.py *)
(* ================================================================== *)

(** [os.path.basename] (POSIX flavour): what follows the last slash. *)
Definition basename (p : pystr) : pystr :=
  fold_left (fun acc c => if Byte.eqb c "/" then [] else acc ++ [c]) p [].

(** [KeyManager.generate_file_key]. *)
Definition generate_file_key (master_key : bytes) (file_path : pystr) : bytes :=
  pbkdf2_hmac_sha256 master_key (basename file_path) 1000 32.

(* ================================================================== *)
(** * core/encryptor.py *)
(* ================================================================== *)

(** One entry of the chunk list, as [_encrypt_chunks] builds it: four
    base64 texts and the position of the segment. *)
Module Chunk.
Record t : Type := mk {
  iv : pystr;
  nonce : pystr;
  data : pystr;
  tag : pystr;
  index : nat
}.
End Chunk.

(** The operating system's entropy: byte [i] of the tape is the [i]-th
    random byte ever handed out, and the read position is the state. *)
Definition entropy := nat -> byte.

(** [secrets.token_bytes(n)]. *)
Definition token_bytes (tape : entropy) (pos n : nat) : bytes * nat :=
  (map tape (seq pos n), (pos + n)%nat).

(** [range(0, stop, step)] for a positive [step]. *)
Definition py_range (stop step : nat) : list nat :=
  map (fun k => (k * step)%nat) (seq 0 ((stop + step - 1) / step)).

(** The body of the [for] loop of [_encrypt_chunks], over the offsets that
    remain. *)
Fixpoint encrypt_loop (tape : entropy) (key iv : bytes) (chunk_size : nat)
         (data : bytes) (offsets : list nat) (pos : nat)
  : result (list Chunk.t * nat) :=
  match offsets with
  | [] => Ok ([], pos)
  | i :: rest =>
      let chunk := slice i chunk_size data in
      let (nonce, pos1) := token_bytes tape pos 12 in
      match aes_gcm_encrypt key nonce chunk with
      | Err e => Err e
      | Ok (encrypted_chunk, tag) =>
          match encrypt_loop tape key iv chunk_size data rest pos1 with
          | Err e => Err e
          | Ok (more, pos2) =>
              Ok (Chunk.mk (b64encode iv) (b64encode nonce)
                           (b64encode encrypted_chunk) (b64encode tag)
                           (i / chunk_size)
                  :: more, pos2)
          end
      end
  end.

(** [PHPEncryptor._encrypt_chunks]: the chunk list and the new read
    position of the entropy tape.  A zero [chunk_size] makes [range]
    raise. *)
Definition _encrypt_chunks (tape : entropy) (pos : nat) (data key : bytes)
           (chunk_size : nat) : result (list Chunk.t * nat) :=
  let (iv, pos1) := token_bytes tape pos 12 in
  if (chunk_size =? 0)%nat then Err ValueError
  else encrypt_loop tape key iv chunk_size data
                    (py_range (length data) chunk_size) pos1.

(** The text that is signed: for every chunk in list order, its ['nonce'],
    ['data'] and ['tag'] entries, concatenated as they are stored. *)
Definition chunks_data (encrypted_chunks : list Chunk.t) : pystr :=
  concat (map (fun chunk => Chunk.nonce chunk ++ Chunk.data chunk ++ Chunk.tag chunk)
              encrypted_chunks).

(** [PHPEncryptor._generate_integrity_hash]. *)
Definition _generate_integrity_hash (encrypted_chunks : list Chunk.t) (key : bytes)
  : pystr :=
  b64encode (hmac_sha256 key (chunks_data encrypted_chunks)).

Fixpoint uint_bytes (d : Decimal.uint) : bytes :=
  match d with
  | Decimal.Nil => []
  | Decimal.D0 r => "0" :: uint_bytes r
  | Decimal.D1 r => "1" :: uint_bytes r
  | Decimal.D2 r => "2" :: uint_bytes r
  | Decimal.D3 r => "3" :: uint_bytes r
  | Decimal.D4 r => "4" :: uint_bytes r
  | Decimal.D5 r => "5" :: uint_bytes r
  | Decimal.D6 r => "6" :: uint_bytes r
  | Decimal.D7 r => "7" :: uint_bytes r
  | Decimal.D8 r => "8" :: uint_bytes r
  | Decimal.D9 r => "9" :: uint_bytes r
  end.

(** [str(n)] for a natural number. *)
Definition decimal (n : nat) : bytes := uint_bytes (Nat.to_uint n).

(** The dictionary of one chunk, keys in insertion order. *)
Definition chunk_json (c : Chunk.t) : json :=
  JObj [(lit "iv", JStr (Chunk.iv c));
        (lit "nonce", JStr (Chunk.nonce c));
        (lit "data", JStr (Chunk.data c));
        (lit "tag", JStr (Chunk.tag c));
        (lit "index", JNum (decimal (Chunk.index c)))].

Definition chunks_json (encrypted_chunks : list Chunk.t) : pystr :=
  b64encode (json_dumps (JArr (map chunk_json encrypted_chunks))).

Definition php_lines (l : list string) : bytes :=
  concat (map (fun line => lit line ++ [x0a]) l).

(** The template of [_generate_decryptor], cut at its four
    placeholders. *)
Definition template_head : bytes :=
  php_lines
    (["<?php";
     "class PHPDecryptor {"]%string)
  ++ lit "    private $fileKey = '".

Definition template_salt : bytes :=
  php_lines
    (["';"]%string)
  ++ lit "    private $salt = '".

Definition template_hash : bytes :=
  php_lines
    (["';"]%string)
  ++ lit "    private $integrityHash = '".

Definition template_chunks : bytes :=
  php_lines
    (["';"]%string)
  ++ lit "    private $chunks = '".

Definition template_tail : bytes :=
  php_lines
    (["';";
     "";
     "    public function __construct() {";
     "        if (!$this->validateEnvironment()) {";
     "            die('Security check failed');";
     "        }";
     "";
     "        $this->execute();";
     "    }";
     "";
     "    private function validateEnvironment() {";
     "        if (version_compare(PHP_VERSION, '7.4.0', '<')) {";
     "            return false;";
     "        }";
     "";
     "        if (!extension_loaded('openssl')) {";
     "            return false;";
     "        }";
     "";
     "        return true;";
     "    }";
     "";
     "    private function decryptChunks() {";
     "        try {";
     "            $fileKey = base64_decode($this->fileKey);";
     "            $chunks = json_decode(base64_decode($this->chunks), true);";
     "";
     "            $decryptedData = '';";
     "";
     "            foreach ($chunks as $chunk) {";
     "                $iv = base64_decode($chunk['iv']);";
     "                $nonce = base64_decode($chunk['nonce']);";
     "                $data = base64_decode($chunk['data']);";
     "                $tag = base64_decode($chunk['tag']);";
     "";
     "                $cipher = openssl_decrypt(";
     "                    $data,";
     "                    'aes-256-gcm',";
     "                    $fileKey,";
     "                    OPENSSL_RAW_DATA,";
     "                    $nonce,";
     "                    $tag,";
     "                    ''";
     "                );";
     "";
     "                if ($cipher === false) {";
     "                    throw new Exception('Decryption failed');";
     "                }";
     "";
     "                $decryptedData .= $cipher;";
     "            }";
     "";
     "            if (!$this->verifyIntegrity($decryptedData)) {";
     "                throw new Exception('Integrity check failed');";
     "            }";
     "";
     "            return $decryptedData;";
     "";
     "        } catch (Exception $e) {";
     "            die('Decryption error: ' . $e->getMessage());";
     "        }";
     "    }";
     "";
     "    private function verifyIntegrity($data) {";
     "        $fileKey = base64_decode($this->fileKey);";
     "        $chunks = json_decode(base64_decode($this->chunks), true);";
     "";
     "        $chunksData = '';";
     "        foreach ($chunks as $chunk) {";
     "            $chunksData .= $chunk['nonce'] . $chunk['data'] . $chunk['tag'];";
     "        }";
     "";
     "        $computedHash = hash_hmac('sha256', $chunksData, $fileKey, true);";
     "        $expectedHash = base64_decode($this->integrityHash);";
     "";
     "        return hash_equals($computedHash, $expectedHash);";
     "    }";
     "";
     "    private function execute() {";
     "        $code = $this->decryptChunks();";
     "";
     "        // 创建一个临时的全局变量容器";
     "        $global_vars = array();";
     "";
     "        // 在方法作用域内执行代码，但捕获所有定义的变量";
     "        $capture_vars = function($code) use (&$global_vars) {";
     "            // 在这个闭包中执行原始代码";
     "            eval('?>' . $code);";
     "";
     "            // 捕获所有当前作用域的变量（除了内置变量）";
     "            $defined_vars = get_defined_vars();";
     "            $exclude_keys = ['code', 'global_vars', 'capture_vars', 'this'];";
     "";
     "            foreach ($defined_vars as $name => $value) {";
     "                if (!in_array($name, $exclude_keys) && $name !== 'GLOBALS' && strpos($name, '_') !== 0) {";
     "                    $global_vars[$name] = $value;";
     "                }";
     "            }";
     "        };";
     "";
     "        // 执行代码并捕获变量";
     "        $capture_vars($code);";
     "";
     "        // 将捕获的变量注入到全局作用域";
     "        foreach ($global_vars as $name => $value) {";
     "            $GLOBALS[$name] = $value;";
     "        }";
     "";
     "  ";
     "        unset($code, $global_vars, $capture_vars);";
     "    }";
     "}";
     "";
     "new PHPDecryptor();";
     "?>"]%string).

(** [PHPEncryptor._generate_decryptor]. *)
Definition _generate_decryptor (encrypted_chunks : list Chunk.t)
           (file_key salt : bytes) (integrity_hash : pystr) : pystr :=
  template_head ++ b64encode file_key
  ++ template_salt ++ b64encode salt
  ++ template_hash ++ integrity_hash
  ++ template_chunks ++ chunks_json encrypted_chunks
  ++ template_tail.


(* ================================================================== *)
(** * core/decryptor.py *)
(* ================================================================== *)

(** The dictionary [decrypt_info]; [None] stands for a field that was not
    found. *)
Module Info.
Record t : Type := mk {
  file_key : option pystr;
  salt : option pystr;
  integrity_hash : option pystr;
  chunks : option pystr
}.
End Info.

Fixpoint span_not_quote (s : bytes) : bytes * bytes :=
  match s with
  | [] => ([], [])
  | c :: r =>
      if Byte.eqb c "'" then ([], s)
      else let (v, r') := span_not_quote r in (c :: v, r')
  end.

(** A match, anchored at the start of [s], of the pattern
    [marker([^']+)';] where [marker] ends with the opening quote: the
    marker, a longest non-empty run without a quote, a quote, a
    semicolon.  (A shorter run cannot match, since the character after it
    would not be a quote.) *)
Definition match_field_at (marker s : bytes) : option pystr :=
  match strip_prefix marker s with
  | None => None
  | Some r =>
      match span_not_quote r with
      | ([], _) => None
      | (v, r') =>
          match strip_prefix (lit "';") r' with
          | Some _ => Some v
          | None => None
          end
      end
  end.

(** [re.search(pattern, s)] followed by [group(1)]: the leftmost match. *)
Fixpoint re_search_field (marker s : bytes) : option pystr :=
  match match_field_at marker s with
  | Some v => Some v
  | None =>
      match s with
      | [] => None
      | _ :: r => re_search_field marker r
      end
  end.

(** [PHPDecryptor._extract_decrypt_info]. *)
Definition _extract_decrypt_info (encrypted_code : pystr) : Info.t :=
  Info.mk (re_search_field (lit "private $fileKey = '") encrypted_code)
          (re_search_field (lit "private $salt = '") encrypted_code)
          (re_search_field (lit "private $integrityHash = '") encrypted_code)
          (re_search_field (lit "private $chunks = '") encrypted_code).

(** [json.loads(base64.b64decode(decrypt_info['chunks']))]. *)
Definition load_chunks (decrypt_info : Info.t) : result json :=
  chunks_b64 <- of_option TypeError (Info.chunks decrypt_info) ;;
  chunks_data <- b64decode chunks_b64 ;;
  of_option JSONDecodeError (json_loads chunks_data).

(** [base64.b64decode(chunk[k])]. *)
Definition chunk_field (chunk : json) (k : string) : result bytes :=
  v <- py_getitem chunk (lit k) ;;
  py_b64decode v.

(** The [for] loop of [_decrypt_data]; [decrypted_data] accumulates. *)
Fixpoint decrypt_loop (file_key : bytes) (chunks : list json) (decrypted_data : bytes)
  : result bytes :=
  match chunks with
  | [] => Ok decrypted_data
  | chunk :: rest =>
      nonce <- chunk_field chunk "nonce" ;;
      data <- chunk_field chunk "data" ;;
      tag <- chunk_field chunk "tag" ;;
      decrypted_chunk <- aes_gcm_decrypt file_key nonce data tag ;;
      decrypt_loop file_key rest (decrypted_data ++ decrypted_chunk)
  end.

(** [chunk['nonce'] + chunk['data'] + chunk['tag']], which the join that
    follows accepts only when it is a string. *)
Definition signed_text (chunk : json) : result pystr :=
  n <- py_getitem chunk (lit "nonce") ;;
  d <- py_getitem chunk (lit "data") ;;
  t <- py_getitem chunk (lit "tag") ;;
  match n, d, t with
  | JStr a, JStr b, JStr c => Ok (a ++ b ++ c)
  | _, _, _ => Err TypeError
  end.

Fixpoint map_result {A B} (f : A -> result B) (l : list A) : result (list B) :=
  match l with
  | [] => Ok []
  | x :: r =>
      y <- f x ;;
      ys <- map_result f r ;;
      Ok (y :: ys)
  end.

(** The body of the [try] of [_verify_integrity]. *)
Definition verify_integrity_body (decrypt_info : Info.t) (file_key : bytes)
  : result bool :=
  chunks <- load_chunks decrypt_info ;;
  items <- py_iter chunks ;;
  texts <- map_result signed_text items ;;
  let chunks_data_str := concat texts in
  encoded <- of_option ValueError (utf8_decode chunks_data_str) ;;
  let computed_hash := hmac_sha256 file_key encoded in
  h <- of_option TypeError (Info.integrity_hash decrypt_info) ;;
  expected_hash <- b64decode h ;;
  Ok (bytes_eqb computed_hash expected_hash).

(** [PHPDecryptor._verify_integrity]: any exception is a [False].  The
    plaintext [data] is not looked at. *)
Definition _verify_integrity (data : bytes) (decrypt_info : Info.t) (file_key : bytes)
  : bool :=
  match verify_integrity_body decrypt_info file_key with
  | Ok b => b
  | Err _ => false
  end.

(** [PHPDecryptor._decrypt_data].  [Err e] is the exception
    ["Decryption failed: ..."] whose cause is [e]. *)
Definition _decrypt_data (decrypt_info : Info.t) (file_key : bytes) : result pystr :=
  chunks <- load_chunks decrypt_info ;;
  items <- py_iter chunks ;;
  decrypted_data <- decrypt_loop file_key items [] ;;
  if _verify_integrity decrypted_data decrypt_info file_key then
    of_option UnicodeDecodeError (utf8_decode decrypted_data)
  else Err IntegrityFailure.

(** [s.replace(old, new)] for a non-empty [old]; [skip] counts the
    characters of a replaced occurrence that are still to be dropped. *)
Fixpoint replace_aux (old new : bytes) (skip : nat) (s : bytes) : bytes :=
  match s with
  | [] => []
  | c :: r =>
      match skip with
      | S k => replace_aux old new k r
      | O =>
          match strip_prefix old s with
          | Some _ => new ++ replace_aux old new (length old - 1) r
          | None => c :: replace_aux old new 0 r
          end
      end
  end.

Definition str_replace (s old new : bytes) : bytes := replace_aux old new 0 s.

(** [PHPDecryptor.decrypt_file] on an input file that holds
    [encrypted_file]: [Ok content] is what [output_path] holds afterwards,
    [Err e] the failure reported in the result dictionary.  Of the file
    system only the text layer is modelled. *)
Definition decrypt_file (master_key : bytes) (encrypted_file : bytes)
           (input_path : pystr) (original_file_path : option pystr) : result bytes :=
  encrypted_code <- read_text encrypted_file ;;
  let decrypt_info := _extract_decrypt_info encrypted_code in
  let original_file_path :=
    match original_file_path with
    | Some (c :: p) => c :: p
    | _ => str_replace input_path (lit ".encrypted.php") (lit ".php")
    end in
  let file_key := generate_file_key master_key original_file_path in
  decrypted_code <- _decrypt_data decrypt_info file_key ;;
  Ok (write_text decrypted_code).

(* ================================================================== *)
(** * utils/obfuscator.py *)
(* ================================================================== *)

(** The three name sets of [PHPParser.__init__]. *)
Definition reserved_keywords : list pystr :=
  map lit
   ([    "abstract"; "and"; "array"; "as"; "break"; "callable"; "case"; "catch";
     "class"; "clone"; "const"; "continue"; "declare"; "default"; "die";
     "do"; "echo"; "else"; "elseif"; "empty"; "enddeclare"; "endfor";
     "endforeach"; "endif"; "endswitch"; "endwhile"; "eval"; "exit";
     "extends"; "final"; "for"; "foreach"; "function"; "global"; "goto";
     "if"; "implements"; "include"; "include_once"; "instanceof";
     "insteadof"; "interface"; "isset"; "list"; "namespace"; "new"; "or";
     "print"; "private"; "protected"; "public"; "require"; "require_once";
     "return"; "static"; "switch"; "throw"; "trait"; "try"; "unset"; "use";
     "var"; "while"; "xor"; "yield"]%string).

Definition superglobals : list pystr :=
  map lit
   ([    "$GLOBALS"; "$_SERVER"; "$_GET"; "$_POST"; "$_FILES"; "$_COOKIE";
     "$_SESSION"; "$_REQUEST"; "$_ENV"; "$this"; "$argc"; "$argv"]%string).

Definition magic_constants : list pystr :=
  map lit
   ([    "__LINE__"; "__FILE__"; "__DIR__"; "__FUNCTION__"; "__CLASS__";
     "__TRAIT__"; "__METHOD__"; "__NAMESPACE__"]%string).

(** An entry of [parsed_code['functions']] or [parsed_code['classes']]. *)
Module Item.
Record t : Type := mk {
  name : pystr;
  position : nat
}.
End Item.

(** The entries of [parsed_code] that [obfuscate] reads. *)
Module Parsed.
Record t : Type := mk {
  original_code : pystr;
  variables : list pystr;
  functions : list Item.t;
  classes : list Item.t
}.
End Parsed.

(** A Python [dict] from names to names: the entries in insertion order,
    every key once. *)
Definition dict := list (pystr * pystr).

Fixpoint dict_get (k : pystr) (m : dict) : option pystr :=
  match m with
  | [] => None
  | (k', v) :: r => if bytes_eqb k k' then Some v else dict_get k r
  end.

(** [k in m]. *)
Definition dict_mem (k : pystr) (m : dict) : bool :=
  match dict_get k m with
  | Some _ => true
  | None => false
  end.

(** [m[k] = v]: a known key keeps its place and takes the new value, a new
    key goes last. *)
Fixpoint dict_set (k v : pystr) (m : dict) : dict :=
  match m with
  | [] => [(k, v)]
  | (k', v') :: r =>
      if bytes_eqb k k' then (k', v) :: r else (k', v') :: dict_set k v r
  end.

(** The fields of a [PHPObfuscator]. *)
Module Obf.
Record t : Type := mk {
  variable_map : dict;
  function_map : dict;
  class_map : dict
}.
End Obf.

Definition ascii_letters : bytes :=
  lit "abcdefghijklmnopqrstuvwxyzABCDEFGHIJKLMNOPQRSTUVWXYZ".

Definition digits : bytes := lit "0123456789".

(** The generator behind the [random] module: draw [i] of the tape decides
    the [i]-th call, whatever its range, and the read position is the
    state. *)
Definition rand_tape := nat -> nat.

(** [random.randint(a, b)]. *)
Definition randint (tape : rand_tape) (pos a b : nat) : nat * nat :=
  ((a + tape pos mod (b - a + 1))%nat, S pos).

(** [random.choice(chars)]. *)
Definition choice (tape : rand_tape) (pos : nat) (chars : bytes) : byte * nat :=
  (nth (tape pos mod length chars) chars x00, S pos).

(** [''.join(random.choice(chars) for _ in range(n))]. *)
Fixpoint choices (tape : rand_tape) (pos : nat) (chars : bytes) (n : nat)
  : bytes * nat :=
  match n with
  | O => ([], pos)
  | S n' =>
      let (c, pos1) := choice tape pos chars in
      let (r, pos2) := choices tape pos1 chars n' in
      (c :: r, pos2)
  end.

(** [PHPObfuscator._generate_obfuscated_name]. *)
Definition _generate_obfuscated_name (tape : rand_tape) (pos : nat) (prefix : pystr)
  : pystr * nat :=
  if bytes_eqb prefix (lit "var") then
    let chars := ascii_letters ++ digits in
    let (length, pos1) := randint tape pos 8 12 in
    let (name, pos2) := choices tape pos1 chars length in
    ("$" :: name, pos2)
  else
    let chars := ascii_letters in
    let (length, pos1) := randint tape pos 10 15 in
    choices tape pos1 chars length.

(** The first loop of the three [_obfuscate_*] methods: every name that
    has no alias yet is given one. *)
Fixpoint assign_names (tape : rand_tape) (prefix : pystr) (names : list pystr)
         (m : dict) (pos : nat) : dict * nat :=
  match names with
  | [] => (m, pos)
  | n :: rest =>
      if dict_mem n m then assign_names tape prefix rest m pos
      else
        let (alias, pos') := _generate_obfuscated_name tape pos prefix in
        assign_names tape prefix rest (dict_set n alias m) pos'
  end.

(** [re.escape] (Python 3.7 and later). *)
Definition re_special : bytes :=
  lit "()[]{}?*+-|^$\.&~# " ++ [x09; x0a; x0d; x0b; x0c].

Definition re_escape (s : pystr) : pystr :=
  flat_map (fun c => if existsb (Byte.eqb c) re_special then [x5c; c] else [c]) s.

Section Obfuscator.

(** [re.sub(pattern, repl, string)].  The regular-expression engine is
    left uninterpreted: its word boundaries depend on the Unicode
    character database, and nothing stated below depends on what it
    returns. *)
Variable re_sub : pystr -> pystr -> pystr -> pystr.

(** [PHPParser.parse], likewise a pattern scan of the text. *)
Variable parse : pystr -> Parsed.t.

Variable tape : rand_tape.

(** [PHPObfuscator._obfuscate_variables]: the rewritten code, the
    instance afterwards and the read position of the generator. *)
Definition _obfuscate_variables (code : pystr) (variables : list pystr)
           (self : Obf.t) (pos : nat) : pystr * Obf.t * nat :=
  let (m, pos') := assign_names tape (lit "var") variables
                                (Obf.variable_map self) pos in
  let result :=
    fold_left
      (fun result kv =>
         let pattern :=
           lit "(?<![\'" ++ [x22] ++ lit "$])\b" ++ re_escape (fst kv) ++ lit "\b" in
         re_sub pattern (snd kv) result)
      m code in
  (result, Obf.mk m (Obf.function_map self) (Obf.class_map self), pos').

(** [PHPObfuscator._obfuscate_functions]. *)
Definition _obfuscate_functions (code : pystr) (functions : list Item.t)
           (self : Obf.t) (pos : nat) : pystr * Obf.t * nat :=
  let (m, pos') := assign_names tape (lit "func") (map Item.name functions)
                                (Obf.function_map self) pos in
  let result :=
    fold_left
      (fun result kv =>
         let result :=
           re_sub (lit "\bfunction\s+" ++ re_escape (fst kv) ++ lit "\s*\(")
                  (lit "function " ++ snd kv ++ lit "(") result in
         re_sub (lit "\b" ++ re_escape (fst kv) ++ lit "\s*\(")
                (snd kv ++ lit "(") result)
      m code in
  (result, Obf.mk (Obf.variable_map self) m (Obf.class_map self), pos').

(** [PHPObfuscator._obfuscate_classes]. *)
Definition _obfuscate_classes (code : pystr) (classes : list Item.t)
           (self : Obf.t) (pos : nat) : pystr * Obf.t * nat :=
  let (m, pos') := assign_names tape (lit "class") (map Item.name classes)
                                (Obf.class_map self) pos in
  let result :=
    fold_left
      (fun result kv =>
         let result :=
           re_sub (lit "\bclass\s+" ++ re_escape (fst kv) ++ lit "\b")
                  (lit "class " ++ snd kv) result in
         let result :=
           re_sub (lit "\bnew\s+" ++ re_escape (fst kv) ++ lit "\b")
                  (lit "new " ++ snd kv) result in
         re_sub (lit "\b" ++ re_escape (fst kv) ++ lit "::")
                (snd kv ++ lit "::") result)
      m code in
  (result, Obf.mk (Obf.variable_map self) (Obf.function_map self) m, pos').

(** [PHPObfuscator.obfuscate]. *)
Definition obfuscate (parsed_code : Parsed.t)
           (obfuscate_vars obfuscate_functions obfuscate_classes : bool)
           (self : Obf.t) (pos : nat) : pystr * Obf.t * nat :=
  let code := Parsed.original_code parsed_code in
  let '(code, self, pos) :=
    if obfuscate_vars then
      _obfuscate_variables code (Parsed.variables parsed_code) self pos
    else (code, self, pos) in
  let '(code, self, pos) :=
    if obfuscate_functions then
      _obfuscate_functions code (Parsed.functions parsed_code) self pos
    else (code, self, pos) in
  let '(code, self, pos) :=
    if obfuscate_classes then
      _obfuscate_classes code (Parsed.classes parsed_code) self pos
    else (code, self, pos) in
  (code, self, pos).


End Obfuscator.

(* ================================================================== *)
(** * core/decryptor.py: [validate_file] *)
(* ================================================================== *)

(** [needle in s]. *)
Fixpoint contains (needle s : bytes) : bool :=
  match strip_prefix needle s with
  | Some _ => true
  | None =>
      match s with
      | [] => false
      | _ :: r => contains needle r
      end
  end.

(** The field names that [validate_file] looks for. *)
Definition required_fields : list pystr :=
  map lit (["private $fileKey"; "private $salt"; "private $integrityHash";
            "private $chunks"]%string).

(** [PHPDecryptor.validate_file] on a file that holds [file]; a file that
    cannot be read as text is refused like any other failure. *)
Definition validate_file (file : bytes) : bool :=
  match read_text file with
  | Err _ => false
  | Ok content =>
      if negb (contains (lit "class PHPDecryptor") content) then false
      else forallb (fun field => contains field content) required_fields
  end.

(* ================================================================== *)
(** * utils/obfuscator.py: [get_obfuscation_statistics] *)
(* ================================================================== *)

(** The dictionary that [get_obfuscation_statistics] returns. *)
Module Stats.
Record t : Type := mk {
obfuscated_variables : nat;
obfuscated_functions : nat;
obfuscated_classes : nat;
variable_map : dict;
function_map : dict;
class_map : dict
}.
End Stats.

(** [PHPObfuscator.get_obfuscation_statistics]; [len] of a dictionary is
    the number of its entries. *)
Definition get_obfuscation_statistics (self : Obf.t) : Stats.t :=
  Stats.mk (length (Obf.variable_map self)) (length (Obf.function_map self))
           (length (Obf.class_map self))
           (Obf.variable_map self) (Obf.function_map self) (Obf.class_map self).

(* ================================================================== *)
(** * Library calls of the key manager and of the dialogs *)
(* ================================================================== *)

(** [s.endswith(suffix)]. *)
Definition endswith (s suffix : bytes) : bool :=
  match strip_prefix (rev suffix) (rev s) with
  | Some _ => true
  | None => false
  end.

(** [os.path.join(a, b)] (POSIX flavour). *)
Definition path_join (a b : pystr) : pystr :=
  match b with
  | "/" :: _ => b
  | _ =>
      match a with
      | [] => b
      | _ => if endswith a (lit "/") then a ++ b else a ++ "/" :: b
      end
  end.

(* ================================================================== *)
(** * core/key_manager.py: master keys *)
(* ================================================================== *)

(** What [generate_master_key] returns: the key alone, or the pair of the
    key and the salt it was derived with. *)
Inductive master_key_result : Type :=
| KeyOnly (key : bytes)
| KeyAndSalt (key salt : bytes).

(** [KeyManager.generate_master_key]; a password that is [None] or empty
    counts as none. *)
Definition generate_master_key (tape : entropy) (pos : nat) (password : option pystr)
  : master_key_result * nat :=
  match password with
  | Some (c :: p) =>
      let (salt, pos1) := token_bytes tape pos 16 in
      (KeyAndSalt (pbkdf2_hmac_sha256 (c :: p) salt 100000 32) salt, pos1)
  | _ =>
      let (key, pos1) := token_bytes tape pos 32 in
      (KeyOnly key, pos1)
  end.

(* ================================================================== *)
(** * core/key_manager.py: the key package *)
(* ================================================================== *)

(** [json.dump] with [ensure_ascii=False] escapes the quote, the
    backslash and the control characters only; every other character is
    written as it is. *)
Definition json_escape_raw (c : byte) : bytes :=
  if Byte.eqb c x22 then [x5c; x22]
  else if Byte.eqb c x5c then [x5c; x5c]
  else if Byte.eqb c x0a then [x5c; "n"]
  else if Byte.eqb c x0d then [x5c; "r"]
  else if Byte.eqb c x09 then [x5c; "t"]
  else if Byte.eqb c x08 then [x5c; "b"]
  else if Byte.eqb c x0c then [x5c; "f"]
  else if byte_to_Z c <? 32 then [x5c; "u"] ++ hex4 (byte_to_Z c)
  else [c].

Definition json_string_raw (s : pystr) : bytes :=
  [x22] ++ flat_map json_escape_raw s ++ [x22].

(** The line break and the indentation at nesting depth [level], for
    [indent=2]. *)
Definition newline_indent (level : nat) : bytes :=
  x0a :: repeat " "%byte (2 * level).

(** [json.dump(v, f, indent=2, ensure_ascii=False)]: what is written, for
    a value at nesting depth [level]. *)
Fixpoint json_dump_indent (level : nat) (v : json) : bytes :=
  match v with
  | JNull => lit "null"
  | JBool true => lit "true"
  | JBool false => lit "false"
  | JNum l => l
  | JStr s => json_string_raw s
  | JArr [] => lit "[]"
  | JArr items =>
      lit "[" ++ newline_indent (S level)
      ++ join_sep (lit "," ++ newline_indent (S level))
           (map (json_dump_indent (S level)) items)
      ++ newline_indent level ++ lit "]"
  | JObj [] => lit "{}"
  | JObj members =>
      lit "{" ++ newline_indent (S level)
      ++ join_sep (lit "," ++ newline_indent (S level))
           (map (fun kv => json_string_raw (fst kv) ++ lit ": "
                           ++ json_dump_indent (S level) (snd kv))
                members)
      ++ newline_indent level ++ lit "}"
  end.

(** [json.loads] on a [str]: a leading byte-order mark is refused; the
    text must hold one value and nothing but white space around it. *)
Definition json_loads_str (s : pystr) : option json :=
  match strip_prefix [xef; xbb; xbf] s with
  | Some _ => None
  | None =>
      match parse_value (S (length s)) (skip_ws s) with
      | Some (v, r) => match skip_ws r with [] => Some v | _ :: _ => None end
      | None => None
      end
  end.

(** [KeyManager.save_key_info]: the path of the key file and what it
    holds afterwards; [stamp] is the time of the call as
    [strftime("%Y%m%d_%H%M%S")] prints it. *)
Definition save_key_info (key_data : json) (output_dir stamp : pystr) : pystr * bytes :=
  let key_file := path_join output_dir (lit "php_encryptor_keys_" ++ stamp ++ lit ".json") in
  (key_file, write_text (json_dump_indent 0 key_data)).

(** [KeyManager.load_key_info] on a key file that holds [key_file]. *)
Definition load_key_info (key_file : bytes) : result json :=
  text <- read_text key_file ;;
  of_option JSONDecodeError (json_loads_str text).

(** What [generate_key_package] returns, and the content of the key file
    that it wrote. *)
Module KeyPackage.
Record t : Type := mk {
  master_key : bytes;
  salt : bytes;
  key_file : pystr;
  package_data : json;
  key_file_content : bytes
}.
End KeyPackage.

(** [KeyManager.generate_key_package]; [timestamp] is the time of the call
    as [isoformat()] prints it, and [stamp] the one that [save_key_info]
    takes. *)
Definition generate_key_package (tape : entropy) (pos : nat)
           (output_dir timestamp stamp : pystr) : result (KeyPackage.t * nat) :=
  match generate_master_key tape pos None with
  | (KeyAndSalt _ _, _) => Err TypeError
  | (KeyOnly master_key, pos1) =>
      let (salt, pos2) := token_bytes tape pos1 16 in
      let key_package :=
        JObj [(lit "master_key", JStr (b64encode master_key));
              (lit "salt", JStr (b64encode salt));
              (lit "created_at", JStr timestamp);
              (lit "algorithm", JStr (lit "AES-256-GCM"));
              (lit "key_derivation", JStr (lit "PBKDF2-SHA256"));
              (lit "iterations", JNum (decimal 100000))] in
      let (key_file, content) := save_key_info key_package output_dir stamp in
      Ok (KeyPackage.mk master_key salt key_file key_package content, pos2)
  end.

(* ================================================================== *)
(** * gui/encrypt_dialog.py and gui/decrypt_dialog.py: the per-file steps *)
(* ================================================================== *)

(** The name under which [EncryptThread.run] writes the artifact of a
    file. *)
Definition encrypted_name (file_name : pystr) : pystr :=
  if endswith file_name (lit ".php") then
    str_replace file_name (lit ".php") (lit ".encrypted.php")
  else file_name ++ lit ".encrypted.php".



(** [d.get(k, '')] on a decoded object. *)
Definition obj_get_default (k : pystr) (members : list (pystr * json)) : json :=
  match obj_get k members with
  | Some v => v
  | None => JStr []
  end.

(** How [DecryptThread.run] loads the master key and the salt from a key
    file that holds [key_file]; [None] stands for every way of ending in
    the handler of the run before any file is looked at: a file that
    cannot be read or is not JSON, a document that is not an object, a
    value that is missing, empty or not a text, text that is not
    base64. *)
Definition load_keys (key_file : bytes) : option (bytes * bytes) :=
  match load_key_info key_file with
  | Ok (JObj key_info) =>
      match obj_get_default (lit "master_key") key_info,
            obj_get_default (lit "salt") key_info with
      | JStr (c :: m), JStr (d :: s) =>
          match b64decode (c :: m), b64decode (d :: s) with
          | Ok master_key, Ok salt => Some (master_key, salt)
          | _, _ => None
          end
      | _, _ => None
      end
  | _ => None
  end.

(* ================================================================== *)
(** * utils/php_parser.py: the variables of a text *)
(* ================================================================== *)

(** The characters of a text, each as its UTF-8 sequence: a byte that
    continues a sequence belongs to the character before it. *)
Fixpoint utf8_chars (s : bytes) : list bytes :=
  match s with
  | [] => []
  | c :: r =>
      match utf8_chars r with
      | (d :: ch) :: l =>
          if utf8_cont d then (c :: d :: ch) :: l else [c] :: (d :: ch) :: l
      | l => [c] :: l
      end
  end.

Definition ascii_letter (c : byte) : bool := in_range 65 90 c || in_range 97 122 c.

(** The class [[a-zA-Z_\x80-\xff]] of the patterns: an ASCII letter, the
    underscore, or a character from U+0080 to U+00FF, whose UTF-8 sequence
    starts with [C2] or [C3]. *)
Definition ident_start (ch : bytes) : bool :=
  match ch with
  | [c] => ascii_letter c || Byte.eqb c "_"
  | [l; d] => (Byte.eqb l xc2 || Byte.eqb l xc3) && utf8_cont d
  | _ => false
  end.

(** The class [[a-zA-Z0-9_\x80-\xff]]. *)
Definition ident_char (ch : bytes) : bool :=
  ident_start ch || match ch with [c] => is_digit c | _ => false end.

(** The longest run of [ident_char] in front of a text, and what follows
    it. *)
Fixpoint span_ident (s : list bytes) : list bytes * list bytes :=
  match s with
  | [] => ([], [])
  | ch :: r =>
      if ident_char ch then let (i, r') := span_ident r in (ch :: i, r')
      else ([], s)
  end.

(** ['$' + match.group(1)] for the matches that [re.finditer] finds for
    the variable pattern, from left to right and without overlap; [skip]
    counts the characters of the last match that are still to be passed. *)
Fixpoint find_variables (skip : nat) (s : list bytes) : list pystr :=
  match s with
  | [] => []
  | ch :: r =>
      match skip with
      | S k => find_variables k r
      | O =>
          if bytes_eqb ch (lit "$") then
            match r with
            | c1 :: r1 =>
                if ident_start c1 then
                  let (i, _) := span_ident r1 in
                  (lit "$" ++ concat (c1 :: i)) :: find_variables (S (length i)) r
                else find_variables 0 r
            | [] => []
            end
          else find_variables 0 r
      end
  end.

(** [x in l] for a list or a set of texts. *)
Definition str_in (x : pystr) (l : list pystr) : bool := existsb (bytes_eqb x) l.

(** [s.lstrip('$')]. *)
Fixpoint lstrip_dollar (s : pystr) : pystr :=
  match s with
  | c :: r => if Byte.eqb c "$" then lstrip_dollar r else s
  | [] => []
  end.

(** [PHPParser._should_obfuscate_variable]; the length of a text is the
    number of its characters. *)
Definition _should_obfuscate_variable (var_name : pystr) : bool :=
  if str_in var_name superglobals then false
  else if str_in var_name magic_constants then false
  else if str_in (lstrip_dollar var_name) reserved_keywords then false
  else if (length (utf8_chars var_name) <=? 2)%nat
          && negb (str_in var_name (map lit ["$i"; "$j"; "$k"; "$v"; "$k"; "$n"]%string))
       then false
  else true.

(** [PHPParser.extract_variables]. *)
Definition extract_variables (code : pystr) : list pystr :=
  fold_left
    (fun variables var_name =>
       if negb (_should_obfuscate_variable var_name) then variables
       else if negb (str_in var_name variables) then variables ++ [var_name]
       else variables)
    (find_variables 0 (utf8_chars code)) [].

(** [PHPParser.parse], the entries that [obfuscate] reads: the scans for
    function and class definitions, whose patterns use white space
    classes, are left uninterpreted. *)
Module PHPParser.
End PHPParser.

(* ================================================================== *)
(** * utils/obfuscator.py: the substitution of [_obfuscate_variables] *)
(* ================================================================== *)

Fixpoint strip_prefix_chars (p s : list bytes) : option (list bytes) :=
  match p with
  | [] => Some s
  | x :: p' =>
      match s with
      | [] => None
      | y :: s' => if bytes_eqb x y then strip_prefix_chars p' s' else None
      end
  end.

Section VariablePattern.

(** Whether a character outside ASCII is a word character ([\w]), which
    the Unicode character database decides. *)
Variable is_word_wide : bytes -> bool.

(** [\w]: within ASCII, a letter, a digit or the underscore. *)
Definition is_word (ch : bytes) : bool :=
  match ch with
  | [c] =>
      if is_ascii c then ascii_letter c || is_digit c || Byte.eqb c "_"
      else is_word_wide ch
  | _ => is_word_wide ch
  end.

Definition word_at (ch : option bytes) : bool :=
  match ch with
  | Some ch => is_word ch
  | None => false
  end.

(** [\b] between the character [prev] and the character [next], where
    [None] is an end of the text. *)
Definition boundary (prev next : option bytes) : bool :=
  xorb (word_at prev) (word_at next).

(** The look-behind of the pattern after the character [prev]: neither
    quote nor the dollar sign comes before. *)
Definition lookbehind (prev : option bytes) : bool :=
  match prev with
  | Some ch => negb (str_in ch (map lit ["'"; "$"]%string ++ [[x22]]))
  | None => true
  end.

(** Whether the pattern of [_obfuscate_variables] for [original] (the
    look-behind, [\b], [re.escape(original)], [\b]) matches in front of
    [s], after the character [prev]. *)
Definition match_here (original : list bytes) (prev : option bytes) (s : list bytes)
  : bool :=
  lookbehind prev && boundary prev (hd_error s)
  && match strip_prefix_chars original s with
     | Some rest =>
         boundary (match rev original with last :: _ => Some last | [] => prev end)
                  (hd_error rest)
     | None => false
     end.

(** The scan of [re.sub]: the matches are taken from left to right
    without overlap, and an empty match is followed by the next
    character of the text; [skip] counts the characters of the last
    match that are still to be passed. *)
Fixpoint sub_scan (original : list bytes) (repl : pystr) (skip : nat)
         (prev : option bytes) (s : list bytes) : pystr :=
  match s with
  | [] => if match_here original prev [] then repl else []
  | ch :: r =>
      match skip with
      | S k => sub_scan original repl k (Some ch) r
      | O =>
          if match_here original prev s then
            repl ++ match original with
                    | [] => ch ++ sub_scan original repl 0 (Some ch) r
                    | _ :: o => sub_scan original repl (length o) (Some ch) r
                    end
          else ch ++ sub_scan original repl 0 (Some ch) r
      end
  end.

(** [re.sub(pattern, repl, text)] for the pattern that
    [_obfuscate_variables] builds from [original], and for a replacement
    without backslash, which [re.sub] takes as it is. *)
Definition sub_variable (original repl text : pystr) : pystr :=
  sub_scan (utf8_chars original) repl 0 None (utf8_chars text).

End VariablePattern.

(* ================================================================== *)
(** * Notions used in the statements and proofs *)
(* ================================================================== *)

(** Every byte is one of the 256 values of [all_bytes], so a decidable
    property of bytes can be settled by running it on all of them. *)
Definition all_bytes : bytes := map (fun n => byte_of_Z (Z.of_nat n)) (seq 0 256).

(** The characters that [b64encode] can produce. *)
Definition b64_text_char (c : byte) : bool :=
  existsb (Byte.eqb c) (b64_alphabet ++ ["="]).

Definition b64_text (s : bytes) : Prop := Forall (fun c => b64_text_char c = true) s.

(** What is used of a base64 character further on: it is printable ASCII
    and none of the delimiters of the artifact or of JSON. *)
Definition plain_char (c : byte) : bool :=
  in_range 32 126 c && negb (Byte.eqb c x22) && negb (Byte.eqb c x5c)
  && negb (Byte.eqb c "'").

(** The four sextets of a group of three bytes. *)
Definition sextet0 (a : byte) : Z := Z.shiftr (byte_to_Z a) 2.
Definition sextet1 (a b : byte) : Z :=
  Z.lor (Z.shiftl (Z.land (byte_to_Z a) 3) 4) (Z.shiftr (byte_to_Z b) 4).
Definition sextet2 (b c : byte) : Z :=
  Z.lor (Z.shiftl (Z.land (byte_to_Z b) 15) 2) (Z.shiftr (byte_to_Z c) 6).
Definition sextet3 (c : byte) : Z := Z.land (byte_to_Z c) 63.

Definition good_sextet (v : Z) : bool :=
  negb (Byte.eqb (b64_char v) "=")
  && match b64_value (b64_char v) with Some w => w =? v | None => false end.

(** Text that needs no escaping. *)
Definition plain (s : bytes) : Prop := Forall (fun c => plain_char c = true) s.

Ltac norm_lit :=
  repeat match goal with
         | |- context [lit ?s] =>
             let v := eval vm_compute in (lit s) in change (lit s) with v
         end.

(** Decide the comparisons between concrete bytes in the goal. *)
Ltac byte_cmp :=
  repeat match goal with
         | |- context [Byte.eqb ?a ?b] =>
             let v := eval vm_compute in (Byte.eqb a b) in
             lazymatch v with
             | true => change (Byte.eqb a b) with true
             | false => change (Byte.eqb a b) with false
             end
         end;
  cbn iota.

Definition plain_facts (c : byte) : bool :=
  negb (Byte.eqb c x22) && negb (Byte.eqb c x5c) && negb (byte_to_Z c <? 32)
  && negb (Byte.eqb c "'") && (byte_to_Z c <? 128)
  && bytes_eqb (json_escape_cp (byte_to_Z c)) [c].

(** The character after a number must not continue it. *)
Definition stops_number (rest : bytes) : bool :=
  match rest with
  | [] => true
  | c :: _ =>
      negb (is_digit c) && negb (Byte.eqb c ".") && negb (Byte.eqb c "e")
      && negb (Byte.eqb c "E")
  end.

(** A chunk whose four texts need no escaping, as base64 text does. *)
Definition plain_chunk (c : Chunk.t) : Prop :=
  plain (Chunk.iv c) /\ plain (Chunk.nonce c) /\ plain (Chunk.data c)
  /\ plain (Chunk.tag c).

(** [m] and [t] disagree at a position that both have. *)
Fixpoint mismatch (m t : bytes) : bool :=
  match m, t with
  | x :: m', y :: t' => if Byte.eqb x y then mismatch m' t' else true
  | _, _ => false
  end.

(** No match of the field pattern can start at [t]: either the marker
    does not fit, or the value after it is empty. *)
Definition dead (m t : bytes) : bool :=
  mismatch m t
  || match strip_prefix m t with
     | Some (c :: _) => Byte.eqb c "'"
     | _ => false
     end.

Fixpoint no_match_in (m pre : bytes) : bool :=
  match pre with
  | [] => true
  | _ :: r => dead m pre && no_match_in m r
  end.

(** Before a quote or its end, the marker has a space: it cannot start
    inside a run of base64 text that a quote ends. *)
Fixpoint blocked (p : bytes) : bool :=
  match p with
  | [] => false
  | x :: p' => if Byte.eqb x " " then true else negb (Byte.eqb x "'") && blocked p'
  end.

Definition marker_key : bytes := lit "private $fileKey = '".
Definition marker_salt : bytes := lit "private $salt = '".
Definition marker_hash : bytes := lit "private $integrityHash = '".
Definition marker_chunks : bytes := lit "private $chunks = '".

(** [c] is what one pass of the loop appends for the plaintext segment
    [pt] at position [idx], with some 12-byte nonce. *)
Definition honest_chunk (key : bytes) (iv_text : pystr) (pt : bytes) (idx : nat)
           (c : Chunk.t) : Prop :=
  exists nonce ct tag,
    length nonce = 12%nat
    /\ aes_gcm_encrypt key nonce pt = Ok (ct, tag)
    /\ c = Chunk.mk iv_text (b64encode nonce) (b64encode ct) (b64encode tag) idx.

Definition sample_tape : entropy := fun i => byte_of_Z (Z.of_nat (7 * i + 3)).

Definition sample_master_key : bytes := repeat x01 32.

(** A 32-byte key, standing for a derived file key. *)
Definition sample_key : bytes := map (fun i => byte_of_Z (Z.of_nat i)) (seq 0 32).

Definition sample_code : pystr := lit "<?php echo 1;".

(** The chunk list of [sample_code] under [sample_key], five bytes to a
    chunk. *)
Definition sample_chunks : list Chunk.t :=
  match _encrypt_chunks sample_tape 0 sample_code sample_key 5 with
  | Ok (chunks, _) => chunks
  | Err _ => []
  end.

(** The raw bytes behind a base64 text. *)
Definition unb64 (s : pystr) : bytes :=
  match b64decode s with
  | Ok raw => raw
  | Err _ => []
  end.

(** The integrity tag as the specification words it: HMAC-SHA256 over the
    raw nonce, ciphertext and tag of every chunk in order. *)
Definition spec_integrity_tag (encrypted_chunks : list Chunk.t) (key : bytes) : pystr :=
  b64encode
    (hmac_sha256 key
       (concat (map (fun chunk => unb64 (Chunk.nonce chunk) ++ unb64 (Chunk.data chunk)
                                  ++ unb64 (Chunk.tag chunk))
                    encrypted_chunks))).

(** The three fields of a chunk that carry cryptographic material. *)
Inductive field : Type := FNonce | FData | FTag.




(** HMAC-SHA256 under [key] tells the two messages apart if they differ. *)
Definition no_collision (key m1 m2 : bytes) : Prop :=
  m1 <> m2 -> hmac_sha256 key m1 <> hmac_sha256 key m2.

(** A decoded chunk list without the ['iv'] entries of its chunks. *)
Definition drop_iv_chunk (chunk : json) : json :=
  match chunk with
  | JObj members =>
      JObj (filter (fun kv => negb (bytes_eqb (fst kv) (lit "iv"))) members)
  | _ => chunk
  end.

Definition drop_iv (chunks : json) : json :=
  match chunks with
  | JArr items => JArr (map drop_iv_chunk items)
  | _ => chunks
  end.


(** Two decryption inputs for the sample chunk list: the generated one, and
    one whose chunks carry another ['iv'] text. *)
Definition sample_info : Info.t :=
  Info.mk None None (Some (_generate_integrity_hash sample_chunks sample_key))
          (Some (chunks_json sample_chunks)).

Definition sample_info_other_iv : Info.t :=
  Info.mk None None (Some (_generate_integrity_hash sample_chunks sample_key))
          (Some (chunks_json
                   (map (fun c => Chunk.mk (lit "AAAA") (Chunk.nonce c) (Chunk.data c)
                                           (Chunk.tag c) (Chunk.index c))
                        sample_chunks))).

Definition loaded (decrypt_info : Info.t) : json :=
  match load_chunks decrypt_info with
  | Ok j => j
  | Err _ => JNull
  end.

(** The shape of the names that [_generate_obfuscated_name] builds: for a
    variable, a dollar sign and 8 to 12 letters or digits; for a function or
    a class, 10 to 15 letters. *)
Definition is_letter (c : byte) : bool := existsb (Byte.eqb c) ascii_letters.

Definition is_alnum (c : byte) : bool := existsb (Byte.eqb c) (ascii_letters ++ digits).

Definition var_alias (v : pystr) : bool :=
  match v with
  | c :: name =>
      Byte.eqb c "$" && (8 <=? length name)%nat && (length name <=? 12)%nat
      && forallb is_alnum name
  | [] => false
  end.

Definition name_alias (v : pystr) : bool :=
  (10 <=? length v)%nat && (length v <=? 15)%nat && forallb is_letter v.

(** No two names of the map have the same alias. *)
Definition injective (m : dict) : Prop :=
  forall k1 k2 v, dict_get k1 m = Some v -> dict_get k2 m = Some v -> k1 = k2.

(** Every entry of [m] is an entry of [m'], with the same alias. *)
Definition extends (m m' : dict) : Prop :=
  forall k v, dict_get k m = Some v -> dict_get k m' = Some v.

(** Stand-ins for the pattern engine: a substitution that leaves the text
    alone and a parser that finds nothing. *)
Definition re_sub_none (pattern repl s : pystr) : pystr := s.


(** What [PHPParser.parse] reports for two small programs: two variables
    in the first, one function definition in the second. *)
Definition parsed_vars : Parsed.t :=
  Parsed.mk (lit "<?php $foo = $bar;") [lit "$foo"; lit "$bar"] [] [].

Definition parsed_func : Parsed.t :=
  Parsed.mk (lit "<?php function run() {}") [] [Item.mk (lit "run") 6] [].

(** Two generators: one that always draws 0, one whose draws spell a
    keyword. *)
Definition zero_tape : rand_tape := fun _ => 0%nat.

Definition keyword_tape : rand_tape :=
  fun i => nth i [0; 8; 13; 18; 19; 0; 13; 2; 4; 14; 5]%nat 0%nat.

Definition fresh : Obf.t := Obf.mk [] [] [].

(** The instance after a call of [obfuscate]. *)
Definition obfuscated (re_sub : pystr -> pystr -> pystr -> pystr) (tape : rand_tape)
           (parsed_code : Parsed.t) (vars funcs classes : bool) (self : Obf.t)
           (pos : nat) : Obf.t :=
  snd (fst (obfuscate re_sub tape parsed_code vars funcs classes self pos)).

(** Every alias of the map has the given shape. *)
Definition alias_ok (shape : pystr -> bool) (m : dict) : Prop :=
  forall k v, dict_get k m = Some v -> shape v = true.

Definition aliases_ok (self : Obf.t) : Prop :=
  alias_ok var_alias (Obf.variable_map self)
  /\ alias_ok name_alias (Obf.function_map self)
  /\ alias_ok name_alias (Obf.class_map self).


(** The text has no carriage return. *)
Definition no_cr (s : bytes) : bool := forallb (fun c => negb (Byte.eqb c x0d)) s.


(** A chunk that some pass of the encryption loop produced under [key]. *)
Definition encrypted_chunk (key : bytes) (c : Chunk.t) : Prop :=
  exists iv pt idx, honest_chunk key (b64encode iv) pt idx c.

(** The artifact of the sample encryption. *)
Definition sample_artifact : pystr :=
  _generate_decryptor sample_chunks sample_key (lit "saltsaltsaltsalt")
                      (_generate_integrity_hash sample_chunks sample_key).

(** A decoded chunk list without the entries of its chunks under the key
    [k]. *)
Definition drop_field_chunk (k : pystr) (chunk : json) : json :=
  match chunk with
  | JObj members => JObj (filter (fun kv => negb (bytes_eqb (fst kv) k)) members)
  | _ => chunk
  end.

Definition drop_field (k : pystr) (chunks : json) : json :=
  match chunks with
  | JArr items => JArr (map (drop_field_chunk k) items)
  | _ => chunks
  end.

(** The keys of a chunk that [_decrypt_data] and [_verify_integrity] look
    up. *)
Definition read_by_decryption (k : pystr) : bool :=
  bytes_eqb k (lit "nonce") || bytes_eqb k (lit "data") || bytes_eqb k (lit "tag").

(** A decryption input for the sample chunk list in which every chunk
    claims the index 7. *)
Definition sample_info_other_index : Info.t :=
  Info.mk None None (Some (_generate_integrity_hash sample_chunks sample_key))
          (Some (chunks_json
                   (map (fun c => Chunk.mk (Chunk.iv c) (Chunk.nonce c) (Chunk.data c)
                                           (Chunk.tag c) 7)
                        sample_chunks))).

(** A decryption input whose chunk list is the first sample chunk followed
    by a string. *)
Definition sample_info_bad_chunk : Info.t :=
  Info.mk None None (Some (_generate_integrity_hash sample_chunks sample_key))
          (Some (b64encode
                   (json_dumps (JArr (firstn 1 (map chunk_json sample_chunks)
                                        ++ [JStr (lit "x")]))))).

(** The names of [names] that are not among [known], each once, in the
    order of their first appearance. *)
Fixpoint new_names (known names : list pystr) : list pystr :=
  match names with
  | [] => []
  | n :: rest =>
      if existsb (bytes_eqb n) known then new_names known rest
      else n :: new_names (known ++ [n]) rest
  end.

(** What a call of [obfuscate] makes of the instance and of the read
    position of the generator: the three passes that are switched on, one
    after the other. *)
Definition passes (tape : rand_tape) (parsed_code : Parsed.t)
           (vars funcs classes : bool) (self : Obf.t) (pos : nat) : Obf.t * nat :=
  let (mv, p1) :=
    if vars then assign_names tape (lit "var") (Parsed.variables parsed_code)
                              (Obf.variable_map self) pos
    else (Obf.variable_map self, pos) in
  let (mf, p2) :=
    if funcs then assign_names tape (lit "func")
                               (map Item.name (Parsed.functions parsed_code))
                               (Obf.function_map self) p1
    else (Obf.function_map self, p1) in
  let (mc, p3) :=
    if classes then assign_names tape (lit "class")
                                 (map Item.name (Parsed.classes parsed_code))
                                 (Obf.class_map self) p2
    else (Obf.class_map self, p2) in
  (Obf.mk mv mf mc, p3).


(** The two suffixes that the dialogs exchange. *)
Definition php_suffix : bytes := lit ".php".
Definition encrypted_suffix : bytes := lit ".encrypted.php".

(** The text has no slash: it is one component of a path. *)
Definition no_slash (s : bytes) : bool := forallb (fun c => negb (Byte.eqb c "/")) s.


(** ASCII text without carriage return: text that a file gives back as it
    was written. *)
Definition clean (s : bytes) : bool := forallb is_ascii s && no_cr s.

(** The pattern that [_obfuscate_variables] builds for the variable
    [original]. *)
Definition variable_pattern (original : pystr) : pystr :=
  lit "(?<![\'" ++ [x22] ++ lit "$])\b" ++ re_escape original ++ lit "\b".

Definition no_backslash (s : pystr) : bool := forallb (fun c => negb (Byte.eqb c x5c)) s.

(** A dollar sign and then a byte that starts a character and is no
    dollar sign: how every name that [extract_variables] returns starts. *)
Definition dollar_name (v : pystr) : bool :=
  match v with
  | d :: c :: _ => Byte.eqb d "$" && negb (utf8_cont c) && negb (Byte.eqb c "$")
  | _ => false
  end.

(** No dollar sign of the text directly follows a word character; [prev]
    is the character before the text. *)
Fixpoint dollars_apart (is_word_wide : bytes -> bool) (prev : option bytes)
         (s : list bytes) : bool :=
  match s with
  | [] => true
  | ch :: r =>
      negb (bytes_eqb ch (lit "$") && word_at is_word_wide prev)
      && dollars_apart is_word_wide (Some ch) r
  end.

(** Code as it is usually written: a dollar sign stands at the start of
    the text or after a character that is no letter, digit or
    underscore. *)
Definition ordinary (is_word_wide : bytes -> bool) (code : pystr) : bool :=
  dollars_apart is_word_wide None (utf8_chars code).

(** The engine is right about the patterns of [_obfuscate_variables]. *)
Definition sub_variable_engine (is_word_wide : bytes -> bool)
           (re_sub : pystr -> pystr -> pystr -> pystr) : Prop :=
  forall original repl text,
    no_backslash repl = true ->
    re_sub (variable_pattern original) repl text
    = sub_variable is_word_wide original repl text.

Definition strip_suffix (suffix s : bytes) : option bytes :=
  match strip_prefix (rev suffix) (rev s) with
  | Some r => Some (rev r)
  | None => None
  end.

(** The text that [re.escape] was applied to. *)
Fixpoint re_unescape (s : bytes) : bytes :=
  match s with
  | [] => []
  | c :: r =>
      if Byte.eqb c x5c then
        match r with
        | d :: r' => d :: re_unescape r'
        | [] => [c]
        end
      else c :: re_unescape r
  end.

(** An engine that knows the patterns of [_obfuscate_variables] and
    nothing else. *)
Definition re_sub_variables (is_word_wide : bytes -> bool) (pattern repl text : pystr)
  : pystr :=
  match strip_prefix (lit "(?<![\'" ++ [x22] ++ lit "$])\b") pattern with
  | Some t =>
      match strip_suffix (lit "\b") t with
      | Some e => sub_variable is_word_wide (re_unescape e) repl text
      | None => text
      end
  | None => text
  end.

(** One pass, switched on or off. *)
Definition pass (tape : rand_tape) (on : bool) (prefix : pystr) (names : list pystr)
           (m : dict) (pos : nat) : dict * nat :=
  if on then assign_names tape prefix names m pos else (m, pos).



(* ================================================================== *)
(** * Bytes *)
(* ================================================================== *)

Lemma byte_to_Z_range (b : byte) : 0 <= byte_to_Z b < 256.
Proof.
  unfold byte_to_Z. pose proof (Byte.to_N_bounded b). lia.
Qed.

Lemma byte_of_to_Z (b : byte) : byte_of_Z (byte_to_Z b) = b.
Proof.
  unfold byte_of_Z, byte_to_Z.
  pose proof (Byte.to_N_bounded b) as Hb.
  replace (Z.land (Z.of_N (Byte.to_N b)) 255) with (Z.of_N (Byte.to_N b)).
  - rewrite N2Z.id, Byte.of_to_N. reflexivity.
  - change 255 with (Z.ones 8). rewrite Z.land_ones by lia.
    symmetry. apply Z.mod_small. change (2 ^ 8) with 256. lia.
Qed.

Lemma byte_to_Z_inj (a b : byte) : byte_to_Z a = byte_to_Z b -> a = b.
Proof.
  intros H. rewrite <- (byte_of_to_Z a), <- (byte_of_to_Z b), H. reflexivity.
Qed.

Lemma byte_eqb_refl (b : byte) : Byte.eqb b b = true.
Proof. apply Byte.byte_dec_lb. reflexivity. Qed.

Lemma byte_eqb_eq (a b : byte) : Byte.eqb a b = true <-> a = b.
Proof.
  split; [apply Byte.byte_dec_bl | apply Byte.byte_dec_lb].
Qed.


Lemma bytes_eqb_eq (a b : bytes) : bytes_eqb a b = true <-> a = b.
Proof.
  revert b. induction a as [| x a IH]; intros [| y b]; simpl; split;
    try congruence; try reflexivity.
  - intros H. apply andb_true_iff in H as [H1 H2].
    apply byte_eqb_eq in H1. apply IH in H2. congruence.
  - intros H. injection H as -> ->.
    rewrite byte_eqb_refl. simpl. apply IH. reflexivity.
Qed.

Lemma bytes_eqb_refl (a : bytes) : bytes_eqb a a = true.
Proof. apply bytes_eqb_eq. reflexivity. Qed.

Lemma bytes_eqb_neq (a b : bytes) : bytes_eqb a b = false <-> a <> b.
Proof.
  split.
  - intros H E. apply bytes_eqb_eq in E. congruence.
  - intros H. destruct (bytes_eqb a b) eqn:E; [| reflexivity].
    apply bytes_eqb_eq in E. contradiction.
Qed.

Lemma in_all_bytes (b : byte) : In b all_bytes.
Proof.
  unfold all_bytes. apply in_map_iff.
  exists (Z.to_nat (byte_to_Z b)). pose proof (byte_to_Z_range b). split.
  - rewrite Z2Nat.id by lia. apply byte_of_to_Z.
  - apply in_seq. lia.
Qed.

Lemma forall_byte (P : byte -> bool) :
  forallb P all_bytes = true -> forall b, P b = true.
Proof.
  intros H b. rewrite forallb_forall in H. apply H, in_all_bytes.
Qed.

Lemma forall_byte2 (P : byte -> byte -> bool) :
  forallb (fun a => forallb (P a) all_bytes) all_bytes = true ->
  forall a b, P a b = true.
Proof.
  intros H a b. apply forall_byte. revert a. apply forall_byte. exact H.
Qed.

Lemma xor_byte_cancel (a k : byte) : xor_byte (xor_byte a k) k = a.
Proof.
  apply byte_eqb_eq. revert a k.
  apply (forall_byte2 (fun a k => Byte.eqb (xor_byte (xor_byte a k) k) a)).
  vm_compute. reflexivity.
Qed.



(* ================================================================== *)
(** * base64 *)
(* ================================================================== *)

Lemma list_ind3 {A} (P : list A -> Prop) :
  P [] -> (forall a, P [a]) -> (forall a b, P [a; b]) ->
  (forall a b c r, P r -> P (a :: b :: c :: r)) ->
  forall l, P l.
Proof.
  intros H0 H1 H2 H3.
  fix IH 1. intros [| a [| b [| c r]]].
  - exact H0.
  - apply H1.
  - apply H2.
  - apply H3, IH.
Qed.

Lemma b64_char_text (n : Z) : b64_text_char (b64_char n) = true.
Proof.
  unfold b64_text_char, b64_char. apply existsb_exists.
  exists (nth (Z.to_nat n) b64_alphabet "="). split; [| apply byte_eqb_refl].
  apply in_or_app.
  destruct (nth_in_or_default (Z.to_nat n) b64_alphabet "=") as [H | H].
  - left. exact H.
  - right. rewrite H. left. reflexivity.
Qed.

Lemma b64encode_text (d : bytes) : b64_text (b64encode d).
Proof.
  unfold b64_text.
  induction d as [| a | a b | a b c r IH] using list_ind3; cbn [b64encode];
    repeat (apply Forall_cons;
            [lazymatch goal with
             | |- b64_text_char (b64_char _) = true => apply b64_char_text
             | |- _ => reflexivity
             end |]);
    auto.
Qed.

Lemma b64_text_app (a b : bytes) : b64_text a -> b64_text b -> b64_text (a ++ b).
Proof. unfold b64_text. intros. apply Forall_app. auto. Qed.

Lemma b64_text_char_plain (c : byte) :
  b64_text_char c = true ->
  plain_char c = true /\ Byte.eqb c " " = false.
Proof.
  intros H.
  assert (G : implb (b64_text_char c) (plain_char c && negb (Byte.eqb c " ")) = true).
  { revert c H. intros c _. revert c. apply forall_byte. vm_compute. reflexivity. }
  rewrite H in G. simpl in G. apply andb_true_iff in G as [G1 G2].
  split; [exact G1 | now apply negb_true_iff].
Qed.

Lemma b64encode_length (d : bytes) :
  length (b64encode d) = (4 * ((length d + 2) / 3))%nat.
Proof.
  induction d as [| a | a b | a b c r IH] using list_ind3; try reflexivity.
  cbn [b64encode length]. rewrite IH.
  replace (S (S (S (length r))) + 2)%nat with (length r + 2 + 1 * 3)%nat by lia.
  rewrite Nat.div_add by lia. lia.
Qed.

Lemma b64encode_nonempty (d : bytes) : d <> [] -> b64encode d <> [].
Proof.
  destruct d as [| a [| b [| c r]]]; cbn [b64encode]; congruence.
Qed.

Lemma good_sextet_spec (v : Z) :
  good_sextet v = true ->
  Byte.eqb (b64_char v) "=" = false /\ b64_value (b64_char v) = Some v.
Proof.
  unfold good_sextet. intros H. apply andb_true_iff in H as [H1 H2].
  apply negb_true_iff in H1. split; [exact H1 |].
  destruct (b64_value (b64_char v)) as [w |]; [| discriminate].
  apply Z.eqb_eq in H2. congruence.
Qed.

Lemma sextet0_good a : good_sextet (sextet0 a) = true.
Proof. revert a. apply forall_byte. vm_compute. reflexivity. Qed.

Lemma sextet1_good a b : good_sextet (sextet1 a b) = true.
Proof. revert a b. apply forall_byte2. vm_compute. reflexivity. Qed.

Lemma sextet2_good b c : good_sextet (sextet2 b c) = true.
Proof. revert b c. apply forall_byte2. vm_compute. reflexivity. Qed.

Lemma sextet3_good c : good_sextet (sextet3 c) = true.
Proof. revert c. apply forall_byte. vm_compute. reflexivity. Qed.

Lemma sextet_tail1_good a :
  good_sextet (Z.shiftl (Z.land (byte_to_Z a) 3) 4) = true.
Proof. revert a. apply forall_byte. vm_compute. reflexivity. Qed.

Lemma sextet_tail2_good b :
  good_sextet (Z.shiftl (Z.land (byte_to_Z b) 15) 2) = true.
Proof. revert b. apply forall_byte. vm_compute. reflexivity. Qed.

Lemma decode_byte0 a b :
  byte_of_Z (Z.lor (Z.shiftl (sextet0 a) 2) (Z.shiftr (sextet1 a b) 4)) = a.
Proof.
  apply byte_eqb_eq. revert a b.
  apply (forall_byte2 (fun a b =>
    Byte.eqb (byte_of_Z (Z.lor (Z.shiftl (sextet0 a) 2) (Z.shiftr (sextet1 a b) 4))) a)).
  vm_compute. reflexivity.
Qed.

Lemma decode_left1 a b : Z.land (sextet1 a b) 15 = Z.shiftr (byte_to_Z b) 4.
Proof.
  apply Z.eqb_eq. revert a b.
  apply (forall_byte2 (fun a b =>
    Z.land (sextet1 a b) 15 =? Z.shiftr (byte_to_Z b) 4)).
  vm_compute. reflexivity.
Qed.

Lemma decode_byte1 b c :
  byte_of_Z (Z.lor (Z.shiftl (Z.shiftr (byte_to_Z b) 4) 4) (Z.shiftr (sextet2 b c) 2)) = b.
Proof.
  apply byte_eqb_eq. revert b c.
  apply (forall_byte2 (fun b c =>
    Byte.eqb (byte_of_Z (Z.lor (Z.shiftl (Z.shiftr (byte_to_Z b) 4) 4)
                               (Z.shiftr (sextet2 b c) 2))) b)).
  vm_compute. reflexivity.
Qed.

Lemma decode_left2 b c : Z.land (sextet2 b c) 3 = Z.shiftr (byte_to_Z c) 6.
Proof.
  apply Z.eqb_eq. revert b c.
  apply (forall_byte2 (fun b c =>
    Z.land (sextet2 b c) 3 =? Z.shiftr (byte_to_Z c) 6)).
  vm_compute. reflexivity.
Qed.

Lemma decode_byte2 c :
  byte_of_Z (Z.lor (Z.shiftl (Z.shiftr (byte_to_Z c) 6) 6) (sextet3 c)) = c.
Proof.
  apply byte_eqb_eq. revert c.
  apply (forall_byte (fun c =>
    Byte.eqb (byte_of_Z (Z.lor (Z.shiftl (Z.shiftr (byte_to_Z c) 6) 6) (sextet3 c))) c)).
  vm_compute. reflexivity.
Qed.

Lemma decode_tail1 a :
  byte_of_Z (Z.lor (Z.shiftl (sextet0 a) 2)
                   (Z.shiftr (Z.shiftl (Z.land (byte_to_Z a) 3) 4) 4)) = a.
Proof.
  apply byte_eqb_eq. revert a.
  apply (forall_byte (fun a =>
    Byte.eqb (byte_of_Z (Z.lor (Z.shiftl (sextet0 a) 2)
                   (Z.shiftr (Z.shiftl (Z.land (byte_to_Z a) 3) 4) 4))) a)).
  vm_compute. reflexivity.
Qed.

Lemma decode_tail2 b :
  byte_of_Z (Z.lor (Z.shiftl (Z.shiftr (byte_to_Z b) 4) 4)
                   (Z.shiftr (Z.shiftl (Z.land (byte_to_Z b) 15) 2) 2)) = b.
Proof.
  apply byte_eqb_eq. revert b.
  apply (forall_byte (fun b =>
    Byte.eqb (byte_of_Z (Z.lor (Z.shiftl (Z.shiftr (byte_to_Z b) 4) 4)
                   (Z.shiftr (Z.shiftl (Z.land (byte_to_Z b) 15) 2) 2))) b)).
  vm_compute. reflexivity.
Qed.

(** One step of the decoder on a character that [b64encode] produced. *)
Lemma a2b_step (v : Z) (r : bytes) (q : nat) (l : Z) (p : nat) (out : bytes) :
  good_sextet v = true ->
  a2b_base64 (b64_char v :: r) q l p out =
  match q with
  | 0%nat => a2b_base64 r 1%nat v 0%nat out
  | 1%nat => a2b_base64 r 2%nat (Z.land v 15) 0%nat
               (byte_of_Z (Z.lor (Z.shiftl l 2) (Z.shiftr v 4)) :: out)
  | 2%nat => a2b_base64 r 3%nat (Z.land v 3) 0%nat
               (byte_of_Z (Z.lor (Z.shiftl l 4) (Z.shiftr v 2)) :: out)
  | _ => a2b_base64 r 0%nat 0 0%nat (byte_of_Z (Z.lor (Z.shiftl l 6) v) :: out)
  end.
Proof.
  intros H. apply good_sextet_spec in H as [H1 H2].
  cbn [a2b_base64]. rewrite H1, H2. reflexivity.
Qed.

Lemma a2b_encode (d : bytes) :
  forall out, a2b_base64 (b64encode d) 0%nat 0 0%nat out = Some (rev out ++ d).
Proof.
  induction d as [| a | a b | a b c r IH] using list_ind3; intros out.
  - simpl. rewrite app_nil_r. reflexivity.
  - cbn [b64encode].
    change (Z.shiftr (byte_to_Z a) 2) with (sextet0 a).
    rewrite a2b_step by apply sextet0_good.
    rewrite a2b_step by apply sextet_tail1_good.
    rewrite decode_tail1. reflexivity.
  - cbn [b64encode].
    change (Z.shiftr (byte_to_Z a) 2) with (sextet0 a).
    change (Z.lor (Z.shiftl (Z.land (byte_to_Z a) 3) 4) (Z.shiftr (byte_to_Z b) 4))
      with (sextet1 a b).
    rewrite a2b_step by apply sextet0_good.
    rewrite a2b_step by apply sextet1_good.
    rewrite a2b_step by apply sextet_tail2_good.
    rewrite decode_byte0, decode_left1, decode_tail2.
    cbn. rewrite <- app_assoc. reflexivity.
  - cbn [b64encode].
    change (Z.shiftr (byte_to_Z a) 2) with (sextet0 a).
    change (Z.lor (Z.shiftl (Z.land (byte_to_Z a) 3) 4) (Z.shiftr (byte_to_Z b) 4))
      with (sextet1 a b).
    change (Z.lor (Z.shiftl (Z.land (byte_to_Z b) 15) 2) (Z.shiftr (byte_to_Z c) 6))
      with (sextet2 b c).
    change (Z.land (byte_to_Z c) 63) with (sextet3 c).
    rewrite a2b_step by apply sextet0_good.
    rewrite a2b_step by apply sextet1_good.
    rewrite a2b_step by apply sextet2_good.
    rewrite a2b_step by apply sextet3_good.
    rewrite decode_byte0, decode_left1, decode_byte1, decode_left2, decode_byte2.
    rewrite IH. cbn [rev]. rewrite <- !app_assoc. reflexivity.
Qed.

Lemma plain_char_ascii (c : byte) : plain_char c = true -> is_ascii c = true.
Proof.
  intros H.
  assert (G : implb (plain_char c) (is_ascii c) = true).
  { clear H. revert c. apply forall_byte. vm_compute. reflexivity. }
  rewrite H in G. exact G.
Qed.

Lemma b64_text_ascii (s : bytes) : b64_text s -> forallb is_ascii s = true.
Proof.
  intros H. apply forallb_forall. intros c Hc.
  unfold b64_text in H. rewrite Forall_forall in H.
  apply plain_char_ascii, b64_text_char_plain, H, Hc.
Qed.

Lemma b64decode_encode (d : bytes) : b64decode (b64encode d) = Ok d.
Proof.
  unfold b64decode.
  rewrite (b64_text_ascii _ (b64encode_text d)), a2b_encode. reflexivity.
Qed.




(* ================================================================== *)
(** * UTF-8 *)
(* ================================================================== *)

Lemma ascii_utf8_check (sp : bool) (s : bytes) :
  forallb is_ascii s = true -> utf8_check sp s = true.
Proof.
  induction s as [| a r IH]; intros H; [reflexivity |].
  cbn [forallb] in H. apply andb_true_iff in H as [Ha Hr].
  cbn [utf8_check]. rewrite Ha. apply IH, Hr.
Qed.

Lemma ascii_utf8_decode (s : bytes) :
  forallb is_ascii s = true -> utf8_decode s = Some s.
Proof.
  intros H. unfold utf8_decode, utf8_valid. rewrite ascii_utf8_check by exact H.
  reflexivity.
Qed.

(* ================================================================== *)
(** * Sizes of digests and derived keys *)
(* ================================================================== *)

Lemma sha256_round_length (st : list Z) (kw : Z * Z) :
  length st = 8%nat -> length (sha256_round st kw) = 8%nat.
Proof.
  intros H.
  destruct st as [| a [| b [| c [| d [| e [| f [| g [| h [| x r]]]]]]]]];
    try discriminate H.
  reflexivity.
Qed.

Lemma sha256_rounds_length (l : list (Z * Z)) :
  forall st, length st = 8%nat -> length (fold_left sha256_round l st) = 8%nat.
Proof.
  induction l as [| kw l IH]; intros st H; [exact H |].
  cbn [fold_left]. apply IH, sha256_round_length, H.
Qed.

Lemma sha256_compress_length (st : list Z) (block : bytes) :
  length st = 8%nat -> length (sha256_compress st block) = 8%nat.
Proof.
  intros H. unfold sha256_compress.
  rewrite length_map, length_combine, sha256_rounds_length by exact H.
  rewrite H. reflexivity.
Qed.

Lemma sha256_blocks_length (n : nat) :
  forall st m, length st = 8%nat -> length (sha256_blocks n st m) = 8%nat.
Proof.
  induction n as [| n IH]; intros st m H; [exact H |].
  cbn [sha256_blocks]. apply IH, sha256_compress_length, H.
Qed.

Lemma be_bytes_length (n : nat) (z : Z) : length (be_bytes n z) = n.
Proof. unfold be_bytes. rewrite length_map, length_seq. reflexivity. Qed.

Lemma flat_map_be_bytes_length (l : list Z) :
  length (flat_map (be_bytes 4) l) = (4 * length l)%nat.
Proof.
  induction l as [| x l IH]; [reflexivity |].
  cbn [flat_map]. rewrite length_app, be_bytes_length, IH. cbn [length]. lia.
Qed.

Lemma sha256_length (msg : bytes) : length (sha256 msg) = 32%nat.
Proof.
  unfold sha256. rewrite flat_map_be_bytes_length, sha256_blocks_length; reflexivity.
Qed.

Lemma hmac_sha256_length (key msg : bytes) : length (hmac_sha256 key msg) = 32%nat.
Proof. unfold hmac_sha256. apply sha256_length. Qed.






(* ================================================================== *)
(** * AES-GCM: decryption undoes encryption *)
(* ================================================================== *)

Lemma gcm_ctr_length (key : bytes) (j0 : Z) (data : bytes) :
  length (gcm_ctr key j0 data) = length data.
Proof.
  unfold gcm_ctr. rewrite length_map, length_combine, length_seq. lia.
Qed.

Lemma xor_stream_cancel (g : nat -> byte) (idx : list nat) :
  forall data,
    length idx = length data ->
    map (fun p => xor_byte (snd p) (g (fst p)))
        (combine idx (map (fun p => xor_byte (snd p) (g (fst p))) (combine idx data)))
    = data.
Proof.
  induction idx as [| i idx IH]; intros [| x data] H; try discriminate H;
    [reflexivity |].
  cbn [combine map fst snd]. rewrite xor_byte_cancel. f_equal.
  apply IH. cbn [length] in H. lia.
Qed.

Lemma gcm_ctr_cancel (key : bytes) (j0 : Z) (data : bytes) :
  gcm_ctr key j0 (gcm_ctr key j0 data) = data.
Proof.
  unfold gcm_ctr at 1. rewrite gcm_ctr_length. unfold gcm_ctr.
  apply (xor_stream_cancel
           (fun i => byte_of_Z
              (Z.shiftr
                 (nth (i / 16)
                      (map (fun q => aes_encrypt_block key (gcm_counter j0 (Z.of_nat q + 1)))
                           (seq 0 ((length data + 15) / 16))) 0)
                 (8 * Z.of_nat (15 - i mod 16))))).
  rewrite length_seq. reflexivity.
Qed.

Lemma gcm_tag_length (key nonce ct : bytes) : length (gcm_tag key nonce ct) = 16%nat.
Proof. unfold gcm_tag. apply be_bytes_length. Qed.

Lemma aes_gcm_roundtrip (key nonce pt ct tag : bytes) :
  aes_gcm_encrypt key nonce pt = Ok (ct, tag) ->
  aes_gcm_decrypt key nonce ct tag = Ok pt.
Proof.
  unfold aes_gcm_encrypt, aes_gcm_decrypt.
  destruct (aes_key_ok key && gcm_nonce_ok nonce) eqn:E; [| discriminate].
  intros H. injection H as <- <-.
  rewrite gcm_tag_length, bytes_eqb_refl, gcm_ctr_cancel. reflexivity.
Qed.

Lemma aes_gcm_encrypt_ok (key nonce pt : bytes) :
  aes_key_ok key = true -> length nonce = 12%nat ->
  exists ct tag,
    aes_gcm_encrypt key nonce pt = Ok (ct, tag)
    /\ length ct = length pt /\ length tag = 16%nat
    /\ tag = gcm_tag key nonce ct.
Proof.
  intros Hk Hn. unfold aes_gcm_encrypt, gcm_nonce_ok. rewrite Hk, Hn.
  cbn [andb Nat.leb].
  eexists. eexists. split; [reflexivity |].
  rewrite gcm_ctr_length, gcm_tag_length. auto.
Qed.

Lemma aes_gcm_encrypt_key_ok (key nonce pt : bytes) (r : bytes * bytes) :
  aes_gcm_encrypt key nonce pt = Ok r -> aes_key_ok key = true.
Proof.
  unfold aes_gcm_encrypt. destruct (aes_key_ok key); [reflexivity | discriminate].
Qed.





(* ================================================================== *)
(** * JSON: [json.loads] reads back what [json.dumps] wrote *)
(* ================================================================== *)

Lemma b64_text_plain (s : bytes) : b64_text s -> plain s.
Proof.
  unfold b64_text, plain. intros H. eapply Forall_impl; [| exact H].
  intros c Hc. apply b64_text_char_plain, Hc.
Qed.

Lemma plain_ascii (s : bytes) : plain s -> forallb is_ascii s = true.
Proof.
  intros H. apply forallb_forall. intros c Hc.
  unfold plain in H. rewrite Forall_forall in H. apply plain_char_ascii, H, Hc.
Qed.

Lemma plain_char_facts (c : byte) :
  plain_char c = true ->
  Byte.eqb c x22 = false /\ Byte.eqb c x5c = false /\ (byte_to_Z c <? 32) = false
  /\ Byte.eqb c "'" = false /\ (byte_to_Z c <? 128) = true
  /\ json_escape_cp (byte_to_Z c) = [c].
Proof.
  intros H.
  assert (G : implb (plain_char c) (plain_facts c) = true).
  { clear H. revert c. apply forall_byte. vm_compute. reflexivity. }
  rewrite H in G. cbn [implb] in G. unfold plain_facts in G.
  rewrite !andb_true_iff, !negb_true_iff in G.
  destruct G as (((((G1 & G2) & G3) & G4) & G5) & G6).
  apply bytes_eqb_eq in G6. auto 10.
Qed.

Lemma escape_plain (s : bytes) :
  plain s -> flat_map json_escape_cp (utf8_code_points s) = s.
Proof.
  induction 1 as [| c s Hc Hs IH]; [reflexivity |].
  apply plain_char_facts in Hc as (_ & _ & _ & _ & Ha & He).
  cbn [utf8_code_points]. rewrite Ha. cbn [flat_map]. rewrite He, IH. reflexivity.
Qed.

Lemma json_string_plain (s : bytes) : plain s -> json_string s = x22 :: s ++ [x22].
Proof.
  intros H. unfold json_string. rewrite escape_plain by exact H. reflexivity.
Qed.

Lemma scan_string_plain (s : bytes) :
  plain s ->
  forall rest acc,
    scan_string (s ++ x22 :: rest) acc = Some (rev acc ++ map Raw s, rest).
Proof.
  induction 1 as [| c s Hc Hs IH]; intros rest acc.
  - cbn. rewrite app_nil_r. reflexivity.
  - apply plain_char_facts in Hc as (Hq & Hb & Hl & _).
    cbn [app scan_string]. rewrite Hq, Hb, Hl, IH.
    cbn [rev map]. rewrite <- app_assoc. reflexivity.
Qed.

Lemma str_of_items_raw (s : bytes) : str_of_items (map Raw s) = s.
Proof.
  induction s as [| c s IH]; [reflexivity |].
  cbn [map str_of_items]. rewrite IH. reflexivity.
Qed.

(** Reading a string literal that was written for a plain text. *)
Lemma scan_json_string (s rest : bytes) :
  plain s ->
  exists items,
    scan_string (s ++ x22 :: rest) [] = Some (items, rest) /\ str_of_items items = s.
Proof.
  intros H. exists (map Raw s). split.
  - apply (scan_string_plain s H rest []).
  - apply str_of_items_raw.
Qed.

Lemma span_digits_uint (u : Decimal.uint) (rest : bytes) :
  stops_number rest = true ->
  span_digits (uint_bytes u ++ rest) = (uint_bytes u, rest).
Proof.
  intros H. induction u; cbn [uint_bytes app span_digits];
    try (change (is_digit _) with true; cbn iota; rewrite IHu; reflexivity).
  destruct rest as [| c r]; [reflexivity |].
  cbn [span_digits]. cbn [stops_number] in H.
  destruct (is_digit c); [discriminate | reflexivity].
Qed.

Lemma scan_frac_stop (rest : bytes) :
  stops_number rest = true -> scan_frac rest = ([], rest).
Proof.
  destruct rest as [| c r]; [reflexivity |]. cbn [stops_number scan_frac].
  destruct (Byte.eqb c "."); [| reflexivity].
  intros H. rewrite !andb_false_r in H. rewrite andb_false_l in H. discriminate.
Qed.

Lemma scan_exp_stop (rest : bytes) :
  stops_number rest = true -> scan_exp rest = ([], rest).
Proof.
  destruct rest as [| c r]; [reflexivity |]. cbn [stops_number scan_exp].
  destruct (Byte.eqb c "e"), (Byte.eqb c "E"); cbn [orb]; try reflexivity;
    intros H; rewrite ?andb_false_r in H; discriminate.
Qed.

Lemma to_uint_normal (n : nat) : Decimal.unorm (Nat.to_uint n) = Nat.to_uint n.
Proof.
  rewrite <- (DecimalNat.Unsigned.to_of (Nat.to_uint n)).
  rewrite DecimalNat.Unsigned.of_to. reflexivity.
Qed.

Lemma scan_literal_decimal (n : nat) (rest : bytes) :
  stops_number rest = true ->
  scan_literal (decimal n ++ rest) = Some (JNum (decimal n), rest)
  /\ exists c ds, decimal n = c :: ds /\ is_digit c = true.
Proof.
  intros H. unfold decimal. pose proof (to_uint_normal n) as Hn.
  destruct (Nat.to_uint n) as [| u | u | u | u | u | u | u | u | u | u] eqn:E.
  1: discriminate Hn.
  1: { (* a leading zero is the whole number *)
    assert (u = Decimal.Nil) as ->.
    { unfold Decimal.unorm in Hn. cbn [Decimal.nzhead] in Hn.
      destruct (Decimal.nzhead u) eqn:Hz; try (injection Hn as <-; reflexivity);
        exfalso; rewrite <- Hz in Hn;
        apply (DecimalFacts.nzhead_nonzero u u); exact Hn. }
    split; [| exists "0", []; split; reflexivity].
    cbn [uint_bytes app]. unfold scan_literal. norm_lit. cbn [strip_prefix]. byte_cmp.
    unfold scan_number. byte_cmp. cbn [scan_int app]. byte_cmp.
    rewrite scan_frac_stop, scan_exp_stop by exact H. reflexivity. }
  all: split; [| eexists; eexists; split; reflexivity].
  all: cbn [uint_bytes app]; unfold scan_literal; norm_lit;
    cbn [strip_prefix]; byte_cmp; unfold scan_number; byte_cmp;
    cbn [scan_int app]; byte_cmp;
    match goal with
    | |- context [if is_digit ?c then _ else _] => change (is_digit c) with true
    end;
    cbn iota; rewrite span_digits_uint by exact H;
    rewrite scan_frac_stop, scan_exp_stop by exact H; rewrite !app_nil_r;
    reflexivity.
Qed.


Lemma skip_ws_space (r : bytes) : skip_ws (" " :: r) = skip_ws r.
Proof. reflexivity. Qed.

Lemma skip_ws_stop (c : byte) (r : bytes) : is_ws c = false -> skip_ws (c :: r) = c :: r.
Proof. intros H. cbn [skip_ws]. rewrite H. reflexivity. Qed.

Ltac ws_step :=
  repeat first [ rewrite skip_ws_space
               | rewrite skip_ws_stop by (vm_compute; reflexivity) ].

Lemma parse_value_step (f : nat) (c : byte) (r : bytes) :
  parse_value (S f) (c :: r) =
  if Byte.eqb c x22 then
    match scan_string r [] with
    | Some (items, r') => Some (JStr (str_of_items items), r')
    | None => None
    end
  else if Byte.eqb c "[" then
    match skip_ws r with
    | [] => None
    | c' :: r' =>
        if Byte.eqb c' "]" then Some (JArr [], r') else parse_items f (c' :: r') []
    end
  else if Byte.eqb c "{" then
    match skip_ws r with
    | [] => None
    | c' :: r' =>
        if Byte.eqb c' "}" then Some (JObj [], r') else parse_members f (c' :: r') []
    end
  else scan_literal (c :: r).
Proof. reflexivity. Qed.

Lemma parse_items_step (f : nat) (s : bytes) (acc : list json) :
  parse_items (S f) s acc =
  match parse_value f s with
  | None => None
  | Some (v, r) =>
      match skip_ws r with
      | [] => None
      | c :: r' =>
          if Byte.eqb c "," then parse_items f (skip_ws r') (v :: acc)
          else if Byte.eqb c "]" then Some (JArr (rev (v :: acc)), r')
          else None
      end
  end.
Proof. reflexivity. Qed.

Lemma parse_members_step (f : nat) (q : byte) (r : bytes) (acc : list (pystr * json)) :
  parse_members (S f) (q :: r) acc =
  if Byte.eqb q x22 then
    match scan_string r [] with
    | None => None
    | Some (k, r1) =>
        match skip_ws r1 with
        | [] => None
        | c1 :: r2 =>
            if Byte.eqb c1 ":" then
              match parse_value f (skip_ws r2) with
              | None => None
              | Some (v, r3) =>
                  match skip_ws r3 with
                  | [] => None
                  | c3 :: r4 =>
                      if Byte.eqb c3 "," then
                        parse_members f (skip_ws r4) ((str_of_items k, v) :: acc)
                      else if Byte.eqb c3 "}" then
                        Some (JObj (rev ((str_of_items k, v) :: acc)), r4)
                      else None
                  end
              end
            else None
        end
    end
  else None.
Proof. reflexivity. Qed.

Lemma json_string_app (s rest : bytes) :
  plain s -> json_string s ++ rest = x22 :: s ++ x22 :: rest.
Proof.
  intros H. rewrite json_string_plain by exact H.
  cbn [app]. rewrite <- app_assoc. reflexivity.
Qed.

Lemma skip_ws_json_string (s rest : bytes) :
  skip_ws (json_string s ++ rest) = json_string s ++ rest.
Proof. reflexivity. Qed.

Lemma parse_value_string (f : nat) (s rest : bytes) :
  plain s ->
  parse_value (S f) (json_string s ++ rest) = Some (JStr s, rest).
Proof.
  intros H. rewrite json_string_app by exact H.
  rewrite parse_value_step. byte_cmp.
  rewrite (scan_string_plain s H rest []). cbn [rev app].
  rewrite str_of_items_raw. reflexivity.
Qed.

(** One member whose value is a plain string, followed by another
    member. *)
Lemma parse_members_str (f : nat) (key val rest : bytes) (acc : list (pystr * json)) :
  plain key -> plain val ->
  parse_members (S (S f))
    (json_string key ++ lit ": " ++ json_string val ++ lit ", " ++ rest) acc
  = parse_members (S f) (skip_ws rest) ((key, JStr val) :: acc).
Proof.
  intros Hk Hv. rewrite (json_string_app key) by exact Hk.
  rewrite parse_members_step. byte_cmp.
  rewrite (scan_string_plain key Hk _ []). cbn [rev app]. rewrite str_of_items_raw.
  norm_lit. cbn [app]. ws_step. byte_cmp.
  rewrite skip_ws_json_string.
  rewrite parse_value_string by exact Hv.
  ws_step. byte_cmp. reflexivity.
Qed.

Lemma digit_not_delimiter (c : byte) :
  is_digit c = true ->
  is_ws c = false /\ Byte.eqb c x22 = false /\ Byte.eqb c "[" = false
  /\ Byte.eqb c "{" = false.
Proof.
  intros H.
  assert (G : implb (is_digit c)
                    (negb (is_ws c) && negb (Byte.eqb c x22) && negb (Byte.eqb c "[")
                     && negb (Byte.eqb c "{")) = true).
  { clear H. revert c. apply forall_byte. vm_compute. reflexivity. }
  rewrite H in G. cbn [implb] in G.
  rewrite !andb_true_iff, !negb_true_iff in G. tauto.
Qed.

Lemma parse_value_decimal (f n : nat) (rest : bytes) :
  stops_number rest = true ->
  parse_value (S f) (skip_ws (decimal n ++ rest)) = Some (JNum (decimal n), rest).
Proof.
  intros H. destruct (scan_literal_decimal n rest H) as (Hs & c & ds & Hd & Hc).
  apply digit_not_delimiter in Hc as (Hw & Hq & Hb & Ho).
  rewrite Hd in Hs |- *. cbn [app] in Hs |- *.
  rewrite skip_ws_stop by exact Hw. rewrite parse_value_step, Hq, Hb, Ho. exact Hs.
Qed.

(** The last member, whose value is a natural number. *)
Lemma parse_members_num (f n : nat) (key rest : bytes) (acc : list (pystr * json)) :
  plain key ->
  parse_members (S (S f)) (json_string key ++ lit ": " ++ decimal n ++ lit "}" ++ rest) acc
  = Some (JObj (rev ((key, JNum (decimal n)) :: acc)), rest).
Proof.
  intros Hk. rewrite (json_string_app key) by exact Hk.
  rewrite parse_members_step. byte_cmp.
  rewrite (scan_string_plain key Hk _ []). cbn [rev app]. rewrite str_of_items_raw.
  norm_lit. cbn [app]. rewrite (skip_ws_stop ":") by reflexivity. byte_cmp.
  rewrite skip_ws_space.
  rewrite parse_value_decimal by reflexivity.
  ws_step. byte_cmp. reflexivity.
Qed.

Lemma plain_lit_keys :
  plain (lit "iv") /\ plain (lit "nonce") /\ plain (lit "data")
  /\ plain (lit "tag") /\ plain (lit "index").
Proof.
  unfold plain. norm_lit. repeat split; repeat constructor.
Qed.

Lemma json_dumps_chunk (c : Chunk.t) (rest : bytes) :
  json_dumps (chunk_json c) ++ rest =
  lit "{" ++ json_string (lit "iv") ++ lit ": " ++ json_string (Chunk.iv c) ++ lit ", "
  ++ json_string (lit "nonce") ++ lit ": " ++ json_string (Chunk.nonce c) ++ lit ", "
  ++ json_string (lit "data") ++ lit ": " ++ json_string (Chunk.data c) ++ lit ", "
  ++ json_string (lit "tag") ++ lit ": " ++ json_string (Chunk.tag c) ++ lit ", "
  ++ json_string (lit "index") ++ lit ": " ++ decimal (Chunk.index c) ++ lit "}" ++ rest.
Proof.
  unfold chunk_json. cbn [json_dumps map join_sep fst snd].
  rewrite <- !app_assoc. reflexivity.
Qed.

Lemma parse_value_chunk (f : nat) (c : Chunk.t) (rest : bytes) :
  plain_chunk c ->
  parse_value (7 + f) (json_dumps (chunk_json c) ++ rest) = Some (chunk_json c, rest).
Proof.
  intros (Hi & Hn & Hd & Ht).
  destruct plain_lit_keys as (Ki & Kn & Kd & Kt & Kx).
  rewrite json_dumps_chunk.
  change (lit "{") with ["{"]. cbn [app Nat.add]. rewrite parse_value_step. byte_cmp.
  rewrite skip_ws_json_string.
  rewrite (json_string_app (lit "iv")) at 1 by exact Ki. byte_cmp.
  rewrite <- (json_string_app (lit "iv")) by exact Ki.
  rewrite parse_members_str by assumption. rewrite skip_ws_json_string.
  rewrite parse_members_str by assumption. rewrite skip_ws_json_string.
  rewrite parse_members_str by assumption. rewrite skip_ws_json_string.
  rewrite parse_members_str by assumption. rewrite skip_ws_json_string.
  rewrite parse_members_num by assumption.
  reflexivity.
Qed.

Lemma json_dumps_chunk_head (c : Chunk.t) (rest : bytes) :
  exists r, json_dumps (chunk_json c) ++ rest = "{" :: r.
Proof. rewrite json_dumps_chunk. eexists. reflexivity. Qed.

Lemma join_sep_cons (sep x y : bytes) (l : list bytes) :
  join_sep sep (x :: y :: l) = x ++ sep ++ join_sep sep (y :: l).
Proof. reflexivity. Qed.

Lemma join_chunks_head (sep : bytes) (c : Chunk.t) (cs : list Chunk.t) (rest : bytes) :
  exists r,
    join_sep sep (map json_dumps (map chunk_json (c :: cs))) ++ rest = "{" :: r.
Proof.
  cbn [map]. destruct cs as [| c2 cs'].
  - cbn [map join_sep]. apply json_dumps_chunk_head.
  - cbn [map]. rewrite join_sep_cons, <- app_assoc. apply json_dumps_chunk_head.
Qed.

Lemma skip_ws_join_chunks (sep : bytes) (c : Chunk.t) (cs : list Chunk.t) (rest : bytes) :
  skip_ws (join_sep sep (map json_dumps (map chunk_json (c :: cs))) ++ rest)
  = join_sep sep (map json_dumps (map chunk_json (c :: cs))) ++ rest.
Proof.
  destruct (join_chunks_head sep c cs rest) as [r ->]. reflexivity.
Qed.

Lemma parse_items_chunks (cs : list Chunk.t) :
  cs <> [] -> Forall plain_chunk cs ->
  forall f acc rest,
    parse_items (length cs + 7 + f)
      (join_sep (lit ", ") (map json_dumps (map chunk_json cs)) ++ lit "]" ++ rest) acc
    = Some (JArr (rev acc ++ map chunk_json cs), rest).
Proof.
  induction cs as [| c cs IH]; [congruence |]. intros _ Hp f acc rest.
  inversion Hp as [| ? ? Hc Hcs]; subst.
  destruct cs as [| c2 cs'].
  - cbn [map join_sep length Nat.add]. rewrite parse_items_step.
    rewrite (parse_value_chunk f c) by exact Hc.
    change (lit "]") with ["]"]. cbn [app]. ws_step. byte_cmp.
    cbn [rev]. reflexivity.
  - specialize (IH ltac:(congruence) Hcs f (chunk_json c :: acc) rest).
    change (map json_dumps (map chunk_json (c :: c2 :: cs')))
      with (json_dumps (chunk_json c)
            :: map json_dumps (map chunk_json (c2 :: cs'))).
    change (map json_dumps (map chunk_json (c2 :: cs')))
      with (json_dumps (chunk_json c2) :: map json_dumps (map chunk_json cs')) at 1.
    rewrite join_sep_cons.
    change (json_dumps (chunk_json c2) :: map json_dumps (map chunk_json cs'))
      with (map json_dumps (map chunk_json (c2 :: cs'))).
    change (length (c :: c2 :: cs') + 7 + f)%nat
      with (S (length (c2 :: cs') + 7 + f)).
    rewrite parse_items_step. rewrite <- !app_assoc.
    replace (length (c2 :: cs') + 7 + f)%nat with (7 + (f + length (c2 :: cs')))%nat at 1
      by lia.
    rewrite (parse_value_chunk _ c) by exact Hc.
    change (lit ", ") with [","; " "] at 1. cbn [app].
    rewrite (skip_ws_stop ",") by reflexivity. byte_cmp.
    rewrite skip_ws_space, skip_ws_join_chunks.
    rewrite IH. cbn [rev map]. rewrite <- app_assoc. reflexivity.
Qed.

Lemma json_string_length (s : bytes) : (2 <= length (json_string s))%nat.
Proof. unfold json_string. rewrite !length_app. cbn [length]. lia. Qed.

Lemma json_dumps_chunk_length (c : Chunk.t) :
  (9 <= length (json_dumps (chunk_json c)))%nat.
Proof.
  rewrite <- (app_nil_r (json_dumps (chunk_json c))). rewrite json_dumps_chunk.
  rewrite !length_app.
  pose proof (json_string_length (Chunk.iv c)).
  pose proof (json_string_length (Chunk.nonce c)).
  pose proof (json_string_length (Chunk.data c)).
  pose proof (json_string_length (Chunk.tag c)).
  change (length (lit "{")) with 1%nat.
  generalize dependent (length (json_string (Chunk.iv c))).
  generalize dependent (length (json_string (Chunk.nonce c))).
  generalize dependent (length (json_string (Chunk.data c))).
  generalize dependent (length (json_string (Chunk.tag c))).
  intros. lia.
Qed.

Lemma join_sep_chunks_length (sep : bytes) (cs : list Chunk.t) :
  (9 * length cs <= length (join_sep sep (map json_dumps (map chunk_json cs))))%nat.
Proof.
  induction cs as [| c cs IH]; [cbn; lia |].
  pose proof (json_dumps_chunk_length c) as Hc.
  destruct cs as [| c2 cs'].
  - cbn [map join_sep length]. lia.
  - change (map json_dumps (map chunk_json (c :: c2 :: cs')))
      with (json_dumps (chunk_json c) :: json_dumps (chunk_json c2)
            :: map json_dumps (map chunk_json cs')).
    rewrite join_sep_cons.
    change (json_dumps (chunk_json c2) :: map json_dumps (map chunk_json cs'))
      with (map json_dumps (map chunk_json (c2 :: cs'))).
    rewrite !length_app.
    change (length (c :: c2 :: cs')) with (S (length (c2 :: cs'))). lia.
Qed.

Lemma json_string_ascii (s : bytes) :
  plain s -> forallb is_ascii (json_string s) = true.
Proof.
  intros H. rewrite json_string_plain by exact H.
  cbn [forallb]. rewrite forallb_app, (plain_ascii _ H). reflexivity.
Qed.

Lemma decimal_ascii (n : nat) : forallb is_ascii (decimal n) = true.
Proof.
  unfold decimal. induction (Nat.to_uint n) as [| u IH | u IH | u IH | u IH | u IH
                                               | u IH | u IH | u IH | u IH | u IH];
    cbn [uint_bytes forallb]; try rewrite IH; reflexivity.
Qed.

Lemma json_dumps_chunk_ascii (c : Chunk.t) :
  plain_chunk c -> forallb is_ascii (json_dumps (chunk_json c)) = true.
Proof.
  intros (Hi & Hn & Hd & Ht).
  destruct plain_lit_keys as (Ki & Kn & Kd & Kt & Kx).
  rewrite <- (app_nil_r (json_dumps (chunk_json c))). rewrite json_dumps_chunk.
  rewrite !forallb_app, !json_string_ascii, decimal_ascii by assumption.
  reflexivity.
Qed.

Lemma json_dumps_ascii_chunks (cs : list Chunk.t) :
  Forall plain_chunk cs ->
  forallb is_ascii (json_dumps (JArr (map chunk_json cs))) = true.
Proof.
  intros Hp. cbn [json_dumps].
  assert (H : forallb is_ascii
                (join_sep (lit ", ") (map json_dumps (map chunk_json cs))) = true).
  { induction Hp as [| c cs Hc Hcs IH]; [reflexivity |].
    pose proof (json_dumps_chunk_ascii c Hc) as Hd.
    destruct cs as [| c2 cs'].
    - cbn [map join_sep]. exact Hd.
    - change (map json_dumps (map chunk_json (c :: c2 :: cs')))
        with (json_dumps (chunk_json c) :: json_dumps (chunk_json c2)
              :: map json_dumps (map chunk_json cs')).
      rewrite join_sep_cons.
      change (json_dumps (chunk_json c2) :: map json_dumps (map chunk_json cs'))
        with (map json_dumps (map chunk_json (c2 :: cs'))).
      rewrite !forallb_app, Hd, IH. reflexivity. }
  rewrite !forallb_app, H. reflexivity.
Qed.

(** [json.loads(json.dumps(encrypted_chunks))] gives the chunk list back. *)
Lemma json_loads_dumps_chunks (cs : list Chunk.t) :
  Forall plain_chunk cs ->
  json_loads (json_dumps (JArr (map chunk_json cs))) = Some (JArr (map chunk_json cs)).
Proof.
  intros Hp. unfold json_loads.
  pose proof (json_dumps_ascii_chunks cs Hp) as Ha.
  pose proof (join_sep_chunks_length (lit ", ") cs) as Hl.
  cbn [json_dumps] in Ha |- *. change (lit "[") with ["["] in Ha |- *.
  cbn [app] in Ha |- *. byte_cmp. cbn [strip_prefix]. byte_cmp.
  rewrite (ascii_utf8_check true _ Ha).
  ws_step. cbn [length]. rewrite parse_value_step. byte_cmp.
  destruct cs as [| c cs'].
  - cbn [map join_sep app]. change (lit "]") with ["]"]. ws_step. byte_cmp.
    reflexivity.
  - destruct (join_chunks_head (lit ", ") c cs' (lit "]")) as [r Hj].
    rewrite Hj. ws_step. byte_cmp. rewrite <- Hj.
    rewrite length_app in *. change (length (lit "]")) with 1%nat.
    set (J := join_sep (lit ", ") (map json_dumps (map chunk_json (c :: cs')))) in *.
    replace (S (length J + 1))%nat
      with (length (c :: cs') + 7 + (length J + 2 - length (c :: cs') - 7))%nat
      by (cbn [length] in *; lia).
    rewrite <- (app_nil_r (lit "]")). subst J.
    rewrite (parse_items_chunks (c :: cs') ltac:(congruence) Hp _ [] []).
    reflexivity.
Qed.



(* ================================================================== *)
(** * Field extraction from a generated artifact *)
(* ================================================================== *)

Lemma strip_prefix_app (m s : bytes) : strip_prefix m (m ++ s) = Some s.
Proof.
  induction m as [| x m IH]; [reflexivity |].
  cbn [app strip_prefix]. rewrite byte_eqb_refl. exact IH.
Qed.

Lemma mismatch_strip (m t : bytes) :
  mismatch m t = true -> forall s, strip_prefix m (t ++ s) = None.
Proof.
  revert t. induction m as [| x m IH]; intros [| y t] H s; try discriminate H.
  cbn [mismatch] in H. cbn [app strip_prefix].
  destruct (Byte.eqb x y); [apply IH, H | reflexivity].
Qed.

Lemma dead_no_match (m t : bytes) :
  dead m t = true -> forall s, match_field_at m (t ++ s) = None.
Proof.
  unfold dead, match_field_at. intros H s.
  apply orb_true_iff in H as [H | H].
  - rewrite mismatch_strip by exact H. reflexivity.
  - destruct (strip_prefix m t) as [[| c r] |] eqn:E; try discriminate H.
    apply byte_eqb_eq in H. subst c.
    assert (E' : strip_prefix m (t ++ s) = Some (("'" :: r) ++ s)).
    { clear - E. revert t E. induction m as [| x m IH]; intros t E.
      - cbn in E. injection E as ->. reflexivity.
      - destruct t as [| y t]; [discriminate E |]. cbn [strip_prefix app] in E |- *.
        destruct (Byte.eqb x y); [apply IH, E | discriminate E]. }
    rewrite E'. reflexivity.
Qed.

Lemma re_search_skip (m pre : bytes) :
  no_match_in m pre = true ->
  forall s, re_search_field m (pre ++ s) = re_search_field m s.
Proof.
  induction pre as [| c pre IH]; intros H s; [reflexivity |].
  cbn [no_match_in] in H. apply andb_true_iff in H as [H1 H2].
  change ((c :: pre) ++ s) with (c :: pre ++ s).
  cbn [re_search_field].
  change (c :: pre ++ s) with ((c :: pre) ++ s).
  rewrite dead_no_match by exact H1. apply IH, H2.
Qed.

Lemma blocked_strip (p : bytes) :
  blocked p = true ->
  forall v rest, b64_text v -> strip_prefix p (v ++ "'" :: rest) = None.
Proof.
  induction p as [| x p IH]; intros H v rest Hv; [discriminate H |].
  cbn [blocked] in H. destruct v as [| c v].
  - cbn [app strip_prefix]. destruct (Byte.eqb x " ") eqn:E.
    + apply byte_eqb_eq in E. subst x. reflexivity.
    + apply andb_true_iff in H as [H _]. apply negb_true_iff in H. rewrite H.
      reflexivity.
  - inversion Hv as [| ? ? Hc Hv']; subst. cbn [app strip_prefix].
    destruct (Byte.eqb x c) eqn:Exc; [| reflexivity].
    apply byte_eqb_eq in Exc. subst c.
    apply b64_text_char_plain in Hc as [_ Hs]. rewrite Hs in H.
    apply andb_true_iff in H as [_ H]. apply IH; assumption.
Qed.

Lemma re_search_skip_b64 (m v rest : bytes) :
  blocked m = true -> b64_text v -> hd_error rest = Some "'" ->
  re_search_field m (v ++ rest) = re_search_field m rest.
Proof.
  intros Hm Hv Hr. destruct rest as [| q rest]; [discriminate Hr |].
  cbn in Hr. injection Hr as ->.
  induction v as [| c v IH]; [reflexivity |].
  inversion Hv as [| ? ? Hc Hv']; subst.
  change ((c :: v) ++ "'" :: rest) with (c :: v ++ "'" :: rest).
  cbn [re_search_field]. unfold match_field_at at 1.
  change (c :: v ++ "'" :: rest) with ((c :: v) ++ "'" :: rest).
  rewrite blocked_strip by assumption. apply IH, Hv'.
Qed.

Lemma span_not_quote_plain (v rest : bytes) :
  plain v -> span_not_quote (v ++ "'" :: rest) = (v, "'" :: rest).
Proof.
  induction 1 as [| c v Hc Hv IH]; [reflexivity |].
  apply plain_char_facts in Hc as (_ & _ & _ & Hq & _).
  cbn [app span_not_quote]. rewrite Hq, IH. reflexivity.
Qed.

(** The pattern matches where the marker, a non-empty plain value, a
    quote and a semicolon stand. *)
Lemma re_search_here (m v rest : bytes) :
  plain v -> v <> [] ->
  re_search_field m (m ++ v ++ "'" :: ";" :: rest) = Some v.
Proof.
  intros Hv Hne.
  assert (H : match_field_at m (m ++ v ++ "'" :: ";" :: rest) = Some v).
  { unfold match_field_at. rewrite strip_prefix_app, span_not_quote_plain by exact Hv.
    destruct v as [| c v]; [congruence |]. norm_lit. cbn [strip_prefix]. byte_cmp.
    reflexivity. }
  destruct (m ++ v ++ "'" :: ";" :: rest); cbn [re_search_field]; rewrite H;
    reflexivity.
Qed.

(** Every placeholder of the template sits right after its marker. *)
Lemma template_shape :
  template_head = firstn 31 template_head ++ marker_key
  /\ template_salt = firstn 7 template_salt ++ marker_salt
  /\ template_hash = firstn 7 template_hash ++ marker_hash
  /\ template_chunks = firstn 7 template_chunks ++ marker_chunks
  /\ template_tail = "'" :: ";" :: skipn 2 template_tail.
Proof. repeat split; vm_compute; reflexivity. Qed.

Lemma chunks_json_text (cs : list Chunk.t) :
  b64_text (chunks_json cs) /\ chunks_json cs <> [].
Proof.
  unfold chunks_json. split; [apply b64encode_text |].
  apply b64encode_nonempty. cbn [json_dumps]. discriminate.
Qed.

(** What [_extract_decrypt_info] finds in the text that
    [_generate_decryptor] wrote: always the integrity hash and the chunk
    list, the key, and the salt unless it is empty. *)
Lemma extract_generated (cs : list Chunk.t) (file_key salt : bytes) (ih : pystr) :
  b64_text ih -> ih <> [] ->
  let info := _extract_decrypt_info (_generate_decryptor cs file_key salt ih) in
  Info.integrity_hash info = Some ih
  /\ Info.chunks info = Some (chunks_json cs)
  /\ Info.file_key info
     = match file_key with [] => None | _ => Some (b64encode file_key) end
  /\ Info.salt info = match salt with [] => None | _ => Some (b64encode salt) end.
Proof.
  intros Hih Hne info. subst info.
  destruct (chunks_json_text cs) as [Hc Hcne].
  destruct template_shape as (Th & Ts & Tx & Tc & Tt).
  pose proof (b64encode_text file_key) as Hk.
  pose proof (b64encode_text salt) as Hs.
  unfold _extract_decrypt_info, _generate_decryptor. cbn [Info.integrity_hash
    Info.chunks Info.file_key Info.salt].
  fold marker_key marker_salt marker_hash marker_chunks.
  set (K := b64encode file_key) in *. set (S := b64encode salt) in *.
  set (C := chunks_json cs) in *.
  repeat split.
  - (* integrity hash *)
    rewrite (re_search_skip marker_hash template_head) by (vm_compute; reflexivity).
    rewrite (re_search_skip_b64 marker_hash K) by (assumption || reflexivity).
    rewrite (re_search_skip marker_hash template_salt) by (vm_compute; reflexivity).
    rewrite (re_search_skip_b64 marker_hash S) by (assumption || reflexivity).
    rewrite Tx, <- !app_assoc.
    rewrite (re_search_skip marker_hash (firstn 7 template_hash))
      by (vm_compute; reflexivity).
    rewrite Tc at 1. rewrite <- !app_assoc.
    change (firstn 7 template_chunks) with ("'" :: ";" :: skipn 2 (firstn 7 template_chunks)).
    cbn [app]. apply re_search_here; [apply b64_text_plain, Hih | exact Hne].
  - (* chunk list *)
    rewrite (re_search_skip marker_chunks template_head) by (vm_compute; reflexivity).
    rewrite (re_search_skip_b64 marker_chunks K) by (assumption || reflexivity).
    rewrite (re_search_skip marker_chunks template_salt) by (vm_compute; reflexivity).
    rewrite (re_search_skip_b64 marker_chunks S) by (assumption || reflexivity).
    rewrite (re_search_skip marker_chunks template_hash) by (vm_compute; reflexivity).
    rewrite (re_search_skip_b64 marker_chunks ih) by (assumption || reflexivity).
    rewrite Tc, <- !app_assoc.
    rewrite (re_search_skip marker_chunks (firstn 7 template_chunks))
      by (vm_compute; reflexivity).
    rewrite Tt. apply re_search_here; [apply b64_text_plain, Hc | exact Hcne].
  - (* embedded key *)
    rewrite Th, <- !app_assoc.
    rewrite (re_search_skip marker_key (firstn 31 template_head))
      by (vm_compute; reflexivity).
    destruct file_key as [| k0 kr].
    + subst K. cbn [b64encode app]. rewrite (app_assoc marker_key template_salt).
      rewrite (re_search_skip marker_key (marker_key ++ template_salt))
        by (vm_compute; reflexivity).
      rewrite (re_search_skip_b64 marker_key S) by (assumption || reflexivity).
      rewrite (re_search_skip marker_key template_hash) by (vm_compute; reflexivity).
      rewrite (re_search_skip_b64 marker_key ih) by (assumption || reflexivity).
      rewrite (re_search_skip marker_key template_chunks) by (vm_compute; reflexivity).
      rewrite (re_search_skip_b64 marker_key C) by (assumption || reflexivity).
      vm_compute. reflexivity.
    + change template_salt with ("'" :: ";" :: skipn 2 template_salt).
      cbn [app]. apply re_search_here; [apply b64_text_plain, Hk |].
      subst K. apply b64encode_nonempty. discriminate.
  - (* salt *)
    rewrite (re_search_skip marker_salt template_head) by (vm_compute; reflexivity).
    rewrite (re_search_skip_b64 marker_salt K) by (assumption || reflexivity).
    rewrite Ts, <- !app_assoc.
    rewrite (re_search_skip marker_salt (firstn 7 template_salt))
      by (vm_compute; reflexivity).
    destruct salt as [| s0 sr].
    + subst S. cbn [b64encode app]. rewrite (app_assoc marker_salt template_hash).
      rewrite (re_search_skip marker_salt (marker_salt ++ template_hash))
        by (vm_compute; reflexivity).
      rewrite (re_search_skip_b64 marker_salt ih) by (assumption || reflexivity).
      rewrite (re_search_skip marker_salt template_chunks) by (vm_compute; reflexivity).
      rewrite (re_search_skip_b64 marker_salt C) by (assumption || reflexivity).
      vm_compute. reflexivity.
    + change template_hash with ("'" :: ";" :: skipn 2 template_hash).
      cbn [app]. apply re_search_here; [apply b64_text_plain, Hs |].
      subst S. apply b64encode_nonempty. discriminate.
Qed.



(* ================================================================== *)
(** * The chunk list of [_encrypt_chunks] *)
(* ================================================================== *)

Lemma token_bytes_length (tape : entropy) (pos n : nat) :
  length (fst (token_bytes tape pos n)) = n.
Proof. cbn. rewrite length_map, length_seq. reflexivity. Qed.

Lemma encrypt_loop_spec (tape : entropy) (key iv : bytes) (chunk_size : nat)
      (data : bytes) (offsets : list nat) :
  forall pos chunks pos',
    encrypt_loop tape key iv chunk_size data offsets pos = Ok (chunks, pos') ->
    Forall2 (fun off c =>
               honest_chunk key (b64encode iv) (slice off chunk_size data)
                            (off / chunk_size) c)
            offsets chunks
    /\ pos' = (pos + 12 * length offsets)%nat.
Proof.
  induction offsets as [| i rest IH]; intros pos chunks pos' H.
  - cbn in H. injection H as <- <-. split; [constructor | cbn; lia].
  - cbn [encrypt_loop] in H. unfold token_bytes in H.
    destruct (aes_gcm_encrypt key (map tape (seq pos 12)) (slice i chunk_size data))
      as [[ct tag] | e] eqn:E; [| discriminate H].
    destruct (encrypt_loop tape key iv chunk_size data rest (pos + 12))
      as [[more pos2] | e] eqn:E2; [| discriminate H].
    injection H as <- <-. destruct (IH _ _ _ E2) as [H1 H2]. split.
    + constructor; [| exact H1].
      exists (map tape (seq pos 12)), ct, tag.
      split; [rewrite length_map, length_seq; reflexivity |].
      split; [exact E | reflexivity].
    + cbn [length]. lia.
Qed.

Lemma encrypt_loop_total (tape : entropy) (key iv : bytes) (chunk_size : nat)
      (data : bytes) (offsets : list nat) :
  aes_key_ok key = true ->
  forall pos, exists chunks,
    encrypt_loop tape key iv chunk_size data offsets pos
    = Ok (chunks, (pos + 12 * length offsets)%nat).
Proof.
  intros Hk. induction offsets as [| i rest IH]; intros pos.
  - exists []. cbn. f_equal. f_equal. lia.
  - cbn [encrypt_loop]. unfold token_bytes.
    destruct (aes_gcm_encrypt_ok key (map tape (seq pos 12)) (slice i chunk_size data) Hk)
      as (ct & tag & E & _).
    { rewrite length_map, length_seq. reflexivity. }
    rewrite E. destruct (IH (pos + 12)%nat) as [more Hm]. rewrite Hm.
    eexists. f_equal. f_equal. cbn [length]. lia.
Qed.

Lemma honest_chunk_plain (key : bytes) (iv : bytes) (pt : bytes) (idx : nat)
      (c : Chunk.t) :
  honest_chunk key (b64encode iv) pt idx c -> plain_chunk c.
Proof.
  intros (nonce & ct & tag & _ & _ & ->).
  repeat split; cbn; apply b64_text_plain, b64encode_text.
Qed.

Lemma honest_chunks_plain (key iv : bytes) (f : nat -> bytes) (g : nat -> nat)
      (offsets : list nat) (chunks : list Chunk.t) :
  Forall2 (fun off c => honest_chunk key (b64encode iv) (f off) (g off) c)
          offsets chunks ->
  Forall plain_chunk chunks.
Proof.
  induction 1 as [| off c offs cs Hc _ IH]; constructor;
    [eapply honest_chunk_plain; exact Hc | exact IH].
Qed.

(* ------------------------------------------------------------------ *)
(** ** Offsets and segments *)

Lemma py_range_length (stop step : nat) :
  length (py_range stop step) = ((stop + step - 1) / step)%nat.
Proof. unfold py_range. rewrite length_map, length_seq. reflexivity. Qed.

Lemma py_range_nth (stop step k : nat) :
  (k < (stop + step - 1) / step)%nat -> nth k (py_range stop step) 0%nat = (k * step)%nat.
Proof.
  intros H. unfold py_range.
  change (nth k (map (fun j => (j * step)%nat) (seq 0 ((stop + step - 1) / step)))
              ((fun j => (j * step)%nat) 0%nat) = (k * step)%nat).
  rewrite map_nth, seq_nth by exact H. reflexivity.
Qed.

Lemma slices_concat {A} (n : nat) :
  forall (m : nat) (l : list A),
    (length l <= m * n)%nat ->
    concat (map (fun k => slice (k * n) n l) (seq 0 m)) = l.
Proof.
  intros m. induction m as [| m IH]; intros l H.
  - cbn in H. destruct l; [reflexivity | cbn in H; lia].
  - rewrite <- cons_seq, <- seq_shift. cbn [map concat]. rewrite map_map.
    transitivity (firstn n l ++ skipn n l); [| apply firstn_skipn].
    f_equal.
    rewrite <- (IH (skipn n l)) at 1.
    + apply f_equal, map_ext. intros k. unfold slice.
      rewrite skipn_skipn. f_equal. f_equal. lia.
    + rewrite length_skipn. cbn [Nat.mul] in H. lia.
Qed.

Lemma ceil_div_bound (n d : nat) : (0 < d)%nat -> (n <= (n + d - 1) / d * d)%nat.
Proof.
  intros Hd. pose proof (Nat.div_mod_eq (n + d - 1) d) as E.
  pose proof (Nat.mod_upper_bound (n + d - 1) d ltac:(lia)) as B. nia.
Qed.

Lemma py_range_slices (chunk_size : nat) (data : bytes) :
  (0 < chunk_size)%nat ->
  concat (map (fun off => slice off chunk_size data) (py_range (length data) chunk_size))
  = data.
Proof.
  intros H. unfold py_range. rewrite map_map.
  apply slices_concat, ceil_div_bound, H.
Qed.

(* ================================================================== *)
(** * Decrypting a chunk list *)
(* ================================================================== *)

Lemma chunk_field_nonce (c : Chunk.t) :
  chunk_field (chunk_json c) "nonce" = b64decode (Chunk.nonce c).
Proof. reflexivity. Qed.

Lemma chunk_field_data (c : Chunk.t) :
  chunk_field (chunk_json c) "data" = b64decode (Chunk.data c).
Proof. reflexivity. Qed.

Lemma chunk_field_tag (c : Chunk.t) :
  chunk_field (chunk_json c) "tag" = b64decode (Chunk.tag c).
Proof. reflexivity. Qed.

Lemma decrypt_loop_cons (file_key : bytes) (c : Chunk.t) (rest : list json)
      (acc : bytes) :
  decrypt_loop file_key (chunk_json c :: rest) acc =
  (nonce <- b64decode (Chunk.nonce c) ;;
   data <- b64decode (Chunk.data c) ;;
   tag <- b64decode (Chunk.tag c) ;;
   decrypted_chunk <- aes_gcm_decrypt file_key nonce data tag ;;
   decrypt_loop file_key rest (acc ++ decrypted_chunk)).
Proof. reflexivity. Qed.

Lemma decrypt_loop_honest (key : bytes) (iv_text : pystr)
      (pts : list bytes) (idxs : list nat) (chunks : list Chunk.t) :
  Forall2 (fun pi c => honest_chunk key iv_text (fst pi) (snd pi) c)
          (combine pts idxs) chunks ->
  length pts = length idxs ->
  forall acc,
    decrypt_loop key (map chunk_json chunks) acc = Ok (acc ++ concat pts).
Proof.
  revert idxs chunks. induction pts as [| pt pts IH]; intros idxs chunks H Hl acc.
  - cbn in H. inversion H; subst. cbn. rewrite app_nil_r. reflexivity.
  - destruct idxs as [| i idxs]; [discriminate Hl |].
    cbn [combine] in H. inversion H as [| ? c ? cs Hc Hcs]; subst.
    destruct Hc as (nonce & ct & tag & Hn & He & ->). cbn [fst snd] in He.
    cbn [map]. rewrite decrypt_loop_cons. cbn [Chunk.nonce Chunk.data Chunk.tag].
    rewrite !b64decode_encode. cbn [bind].
    rewrite (aes_gcm_roundtrip _ _ _ _ _ He). cbn [bind].
    rewrite (IH idxs cs Hcs) by (cbn in Hl; lia).
    cbn [concat]. rewrite app_assoc. reflexivity.
Qed.

Lemma signed_text_chunk (c : Chunk.t) :
  signed_text (chunk_json c) = Ok (Chunk.nonce c ++ Chunk.data c ++ Chunk.tag c).
Proof. reflexivity. Qed.

Lemma map_signed_text (cs : list Chunk.t) :
  map_result signed_text (map chunk_json cs)
  = Ok (map (fun c => Chunk.nonce c ++ Chunk.data c ++ Chunk.tag c) cs).
Proof.
  induction cs as [| c cs IH]; [reflexivity |].
  cbn [map map_result]. rewrite signed_text_chunk. cbn [bind]. rewrite IH. reflexivity.
Qed.

Lemma chunks_data_plain (cs : list Chunk.t) :
  Forall plain_chunk cs -> plain (chunks_data cs).
Proof.
  unfold chunks_data, plain. induction 1 as [| c cs (Hi & Hn & Hd & Ht) _ IH];
    [constructor |].
  cbn [map concat]. repeat (apply Forall_app; split); assumption.
Qed.

Lemma load_chunks_generated (cs : list Chunk.t) (di : Info.t) :
  Forall plain_chunk cs ->
  Info.chunks di = Some (chunks_json cs) ->
  load_chunks di = Ok (JArr (map chunk_json cs)).
Proof.
  intros Hp Hc. unfold load_chunks. rewrite Hc. cbn [of_option bind].
  unfold chunks_json. rewrite b64decode_encode. cbn [bind].
  rewrite json_loads_dumps_chunks by exact Hp. reflexivity.
Qed.

(** What [_verify_integrity] decides for a well-formed chunk list: whether
    the embedded hash is the HMAC of the signed text. *)
Lemma verify_integrity_generated (cs : list Chunk.t) (di : Info.t)
      (data file_key : bytes) :
  Forall plain_chunk cs ->
  Info.chunks di = Some (chunks_json cs) ->
  _verify_integrity data di file_key =
  match Info.integrity_hash di with
  | Some h =>
      match b64decode h with
      | Ok expected => bytes_eqb (hmac_sha256 file_key (chunks_data cs)) expected
      | Err _ => false
      end
  | None => false
  end.
Proof.
  intros Hp Hc. unfold _verify_integrity, verify_integrity_body.
  rewrite (load_chunks_generated cs di Hp Hc). cbn [bind py_iter].
  rewrite map_signed_text. cbn [bind]. fold (chunks_data cs).
  rewrite (ascii_utf8_decode _ (plain_ascii _ (chunks_data_plain cs Hp))).
  cbn [of_option bind].
  destruct (Info.integrity_hash di) as [h |]; [| reflexivity].
  cbn [of_option bind]. destruct (b64decode h); reflexivity.
Qed.

Lemma decrypt_data_generated (cs : list Chunk.t) (di : Info.t) (file_key : bytes) :
  Forall plain_chunk cs ->
  Info.chunks di = Some (chunks_json cs) ->
  _decrypt_data di file_key =
  (decrypted_data <- decrypt_loop file_key (map chunk_json cs) [] ;;
   if _verify_integrity decrypted_data di file_key then
     of_option UnicodeDecodeError (utf8_decode decrypted_data)
   else Err IntegrityFailure).
Proof.
  intros Hp Hc. unfold _decrypt_data.
  rewrite (load_chunks_generated cs di Hp Hc). reflexivity.
Qed.

Lemma verify_integrity_honest (cs : list Chunk.t) (di : Info.t) (data file_key : bytes) :
  Forall plain_chunk cs ->
  Info.chunks di = Some (chunks_json cs) ->
  Info.integrity_hash di = Some (_generate_integrity_hash cs file_key) ->
  _verify_integrity data di file_key = true.
Proof.
  intros Hp Hc Hh. rewrite (verify_integrity_generated cs di data file_key Hp Hc), Hh.
  unfold _generate_integrity_hash. rewrite b64decode_encode. apply bytes_eqb_refl.
Qed.

Lemma integrity_hash_text (cs : list Chunk.t) (key : bytes) :
  b64_text (_generate_integrity_hash cs key) /\ _generate_integrity_hash cs key <> [].
Proof.
  unfold _generate_integrity_hash. split; [apply b64encode_text |].
  apply b64encode_nonempty. intros E.
  pose proof (hmac_sha256_length key (chunks_data cs)) as L. rewrite E in L.
  discriminate L.
Qed.

(** The chunk list that [_encrypt_chunks] returns, read back. *)
Lemma encrypt_chunks_spec (tape : entropy) (pos : nat) (data key : bytes)
      (chunk_size : nat) (chunks : list Chunk.t) (pos' : nat) :
  _encrypt_chunks tape pos data key chunk_size = Ok (chunks, pos') ->
  (0 < chunk_size)%nat
  /\ Forall2 (fun off c =>
                honest_chunk key (b64encode (map tape (seq pos 12)))
                             (slice off chunk_size data) (off / chunk_size) c)
             (py_range (length data) chunk_size) chunks
  /\ pos' = (pos + 12 + 12 * ((length data + chunk_size - 1) / chunk_size))%nat.
Proof.
  unfold _encrypt_chunks, token_bytes. intros H.
  destruct (chunk_size =? 0)%nat eqn:E; [discriminate H |].
  apply Nat.eqb_neq in E. apply encrypt_loop_spec in H as [H1 H2].
  rewrite py_range_length in H2. repeat split; [lia | exact H1 | exact H2].
Qed.

Lemma encrypt_chunks_total (tape : entropy) (pos : nat) (data key : bytes)
      (chunk_size : nat) :
  aes_key_ok key = true -> (0 < chunk_size)%nat ->
  exists chunks pos', _encrypt_chunks tape pos data key chunk_size = Ok (chunks, pos').
Proof.
  intros Hk Hc. unfold _encrypt_chunks, token_bytes.
  destruct (chunk_size =? 0)%nat eqn:E; [apply Nat.eqb_eq in E; lia |].
  destruct (encrypt_loop_total tape key (map tape (seq pos 12)) chunk_size data
              (py_range (length data) chunk_size) Hk (pos + 12)%nat) as [chunks H].
  eauto.
Qed.

Lemma decrypt_loop_encrypted (tape : entropy) (pos : nat) (data key : bytes)
      (chunk_size : nat) (chunks : list Chunk.t) (pos' : nat) :
  _encrypt_chunks tape pos data key chunk_size = Ok (chunks, pos') ->
  Forall plain_chunk chunks
  /\ decrypt_loop key (map chunk_json chunks) [] = Ok data.
Proof.
  intros H. apply encrypt_chunks_spec in H as (Hc & H & _). split.
  - eapply (honest_chunks_plain key _ (fun off => slice off chunk_size data)
                                (fun off => (off / chunk_size)%nat)). exact H.
  - set (offs := py_range (length data) chunk_size) in *.
    rewrite (decrypt_loop_honest key (b64encode (map tape (seq pos 12)))
               (map (fun off => slice off chunk_size data) offs)
               (map (fun off => (off / chunk_size)%nat) offs) chunks).
    + subst offs. rewrite py_range_slices by exact Hc. reflexivity.
    + clear - H. induction H as [| off c offs cs Hc _ IH]; cbn [map combine];
        constructor; [exact Hc | exact IH].
    + rewrite !length_map. reflexivity.
Qed.

(** Decrypting what was encrypted: the bytes come back, and the result is
    their text when they are UTF-8. *)
Lemma decrypt_data_encrypted (tape : entropy) (pos : nat) (data key : bytes)
      (chunk_size : nat) (chunks : list Chunk.t) (pos' : nat) (di : Info.t) :
  _encrypt_chunks tape pos data key chunk_size = Ok (chunks, pos') ->
  Info.chunks di = Some (chunks_json chunks) ->
  Info.integrity_hash di = Some (_generate_integrity_hash chunks key) ->
  _decrypt_data di key = of_option UnicodeDecodeError (utf8_decode data).
Proof.
  intros He Hc Hh. destruct (decrypt_loop_encrypted _ _ _ _ _ _ _ He) as [Hp Hd].
  rewrite (decrypt_data_generated chunks di key Hp Hc), Hd. cbn [bind].
  rewrite (verify_integrity_honest chunks di data key Hp Hc Hh). reflexivity.
Qed.



(* ================================================================== *)
(** * Known answers of the primitives *)
(* ================================================================== *)

(** FIPS 180-4, the one-block message. *)
Example sha256_abc :
  hex (sha256 (lit "abc"))
  = "ba7816bf8f01cfea414140de5dae2223b00361a396177a9cb410ff61f20015ad"%string.
Proof. vm_compute. reflexivity. Qed.

Example hmac_sha256_fox :
  hex (hmac_sha256 (lit "key") (lit "The quick brown fox jumps over the lazy dog"))
  = "f7bc83f430538424b13298e6aa6fb143ef4d59a14946175997479dbc2d1a3cd8"%string.
Proof. vm_compute. reflexivity. Qed.

Example pbkdf2_two_iterations :
  hex (pbkdf2_hmac_sha256 (lit "password") (lit "salt") 2 32)
  = "ae4d0c95af6b46d32d0adff928f06dd02a303f8ef3c251dfd6e2d85a95474c43"%string.
Proof. vm_compute. reflexivity. Qed.

(** FIPS 197, appendix C.3. *)
Example aes256_fips197 :
  hex (be_bytes 16
         (aes_encrypt_block
            (unhex "000102030405060708090a0b0c0d0e0f101112131415161718191a1b1c1d1e1f")
            (be_int 0 (unhex "00112233445566778899aabbccddeeff"))))
  = "8ea2b7ca516745bfeafc49904b496089"%string.
Proof. vm_compute. reflexivity. Qed.

(** The GCM specification's test case 14. *)
Example aes256_gcm_case14 :
  aes_gcm_encrypt (repeat x00 32) (repeat x00 12) (repeat x00 16)
  = Ok (unhex "cea7403d4d606b6e074ec5d3baf39d18",
        unhex "d0d1c8a799996bf0265b98b5d48ab919").
Proof. vm_compute. reflexivity. Qed.

Example b64_samples :
  b64encode (lit "ABCD") = lit "QUJDRA=="
  /\ b64decode (lit "QUJDRA==") = Ok (lit "ABCD")
  /\ b64decode (lit "QU JD") = Ok (lit "ABC").
Proof. vm_compute. repeat split. Qed.



(* ================================================================== *)
(** * The text layer of the files *)
(* ================================================================== *)

Lemma universal_newlines_cons (c : byte) (r : bytes) :
  Byte.eqb c x0d = false -> universal_newlines (c :: r) = c :: universal_newlines r.
Proof. intros H. cbn [universal_newlines]. rewrite H. reflexivity. Qed.

Lemma universal_newlines_no_cr (s : bytes) :
  no_cr s = true -> universal_newlines s = s.
Proof.
  unfold no_cr. induction s as [| c r IH]; intros H; [reflexivity |].
  cbn [forallb] in H. apply andb_true_iff in H as [Hc Hr].
  apply negb_true_iff in Hc. rewrite universal_newlines_cons by exact Hc.
  rewrite IH by exact Hr. reflexivity.
Qed.

Lemma no_cr_app (a b : bytes) : no_cr (a ++ b) = no_cr a && no_cr b.
Proof. apply forallb_app. Qed.

Lemma b64_text_no_cr (s : bytes) : b64_text s -> no_cr s = true.
Proof.
  intros H. apply forallb_forall. intros c Hc.
  unfold b64_text in H. rewrite Forall_forall in H. specialize (H c Hc).
  assert (G : implb (b64_text_char c) (negb (Byte.eqb c x0d)) = true).
  { clear. revert c. apply forall_byte. vm_compute. reflexivity. }
  rewrite H in G. exact G.
Qed.

Lemma utf8_check_ascii_app (sp : bool) (a b : bytes) :
  forallb is_ascii a = true -> utf8_check sp (a ++ b) = utf8_check sp b.
Proof.
  induction a as [| c a IH]; intros H; [reflexivity |].
  cbn [forallb] in H. apply andb_true_iff in H as [Hc Ha].
  cbn [app utf8_check]. rewrite Hc. apply IH, Ha.
Qed.

Lemma in_range_not_cr (lo hi : Z) (b : byte) :
  128 <= lo -> in_range lo hi b = true -> Byte.eqb b x0d = false.
Proof.
  intros Hlo H. destruct (Byte.eqb b x0d) eqn:E; [| reflexivity].
  apply byte_eqb_eq in E. subst b. unfold in_range in H.
  apply andb_true_iff in H as [H _]. apply Z.leb_le in H.
  change (byte_to_Z x0d) with 13 in H. lia.
Qed.

Lemma nonascii_not_cr (b : byte) : is_ascii b = false -> Byte.eqb b x0d = false.
Proof.
  intros H.
  assert (G : implb (negb (is_ascii b)) (negb (Byte.eqb b x0d)) = true).
  { clear. revert b. apply forall_byte. vm_compute. reflexivity. }
  rewrite H in G. apply negb_true_iff in G. exact G.
Qed.

(** Reading the line endings of a text leaves it a text. *)
Lemma utf8_check_newlines (sp : bool) (n : nat) :
  forall s, (length s <= n)%nat -> utf8_check sp s = true ->
            utf8_check sp (universal_newlines s) = true.
Proof.
  induction n as [| n IH]; intros s L H.
  { destruct s; [reflexivity | cbn in L; lia]. }
  destruct s as [| a r]; [reflexivity |]. cbn [length] in L.
  cbn [utf8_check] in H. destruct (is_ascii a) eqn:Ha.
  - destruct (Byte.eqb a x0d) eqn:Ecr.
    + cbn [universal_newlines]. rewrite Ecr. cbn [utf8_check].
      change (is_ascii x0a) with true. cbn iota.
      destruct r as [| d r']; [reflexivity |].
      destruct (Byte.eqb d x0a) eqn:Ed.
      * apply byte_eqb_eq in Ed. subst d. cbn [utf8_check] in H.
        change (is_ascii x0a) with true in H. cbn iota in H.
        apply IH; [cbn [length] in L; lia | exact H].
      * apply IH; [lia | exact H].
    + rewrite universal_newlines_cons by exact Ecr. cbn [utf8_check]. rewrite Ha.
      apply IH; [lia | exact H].
  - rewrite universal_newlines_cons by (apply nonascii_not_cr, Ha).
    destruct r as [| b r1]; [discriminate H |]. cbn [length] in L.
    destruct (in_range 194 223 a) eqn:E2.
    { apply andb_true_iff in H as [Hb Hr].
      rewrite universal_newlines_cons
        by (apply (in_range_not_cr 128 191); [lia | exact Hb]).
      cbn [utf8_check]. rewrite Ha, E2, Hb. apply IH; [lia | exact Hr]. }
    destruct r1 as [| c r2]; [discriminate H |]. cbn [length] in L.
    assert (T3 : forall lo hi,
               128 <= lo -> in_range lo hi b && utf8_cont c && utf8_check sp r2 = true ->
               universal_newlines (b :: c :: r2) = b :: c :: universal_newlines r2
               /\ in_range lo hi b && utf8_cont c
                  && utf8_check sp (universal_newlines r2) = true).
    { intros lo hi Hlo G. apply andb_true_iff in G as [G Hr].
      apply andb_true_iff in G as [Hb Hc].
      rewrite universal_newlines_cons by (apply (in_range_not_cr lo hi); assumption).
      rewrite universal_newlines_cons
        by (apply (in_range_not_cr 128 191); [lia | exact Hc]).
      split; [reflexivity |]. rewrite Hb, Hc. apply IH; [lia | exact Hr]. }
    destruct (in_range 224 224 a) eqn:E3a.
    { destruct (T3 160 191 ltac:(lia) H) as [-> G].
      cbn [utf8_check]. rewrite Ha, E2, E3a. exact G. }
    destruct (in_range 225 236 a || in_range 238 239 a) eqn:E3b.
    { destruct (T3 128 191 ltac:(lia) H) as [-> G].
      cbn [utf8_check]. rewrite Ha, E2, E3a, E3b. exact G. }
    destruct (in_range 237 237 a) eqn:E3c.
    { destruct (T3 128 (if sp then 191 else 159) ltac:(lia) H) as [-> G].
      cbn [utf8_check]. rewrite Ha, E2, E3a, E3b, E3c. exact G. }
    clear T3. destruct r2 as [| d r3]; [discriminate H |]. cbn [length] in L.
    assert (T4 : forall lo hi,
               128 <= lo ->
               in_range lo hi b && utf8_cont c && utf8_cont d && utf8_check sp r3 = true ->
               universal_newlines (b :: c :: d :: r3)
               = b :: c :: d :: universal_newlines r3
               /\ in_range lo hi b && utf8_cont c && utf8_cont d
                  && utf8_check sp (universal_newlines r3) = true).
    { intros lo hi Hlo G. apply andb_true_iff in G as [G Hr].
      apply andb_true_iff in G as [G Hd]. apply andb_true_iff in G as [Hb Hc].
      rewrite universal_newlines_cons by (apply (in_range_not_cr lo hi); assumption).
      rewrite universal_newlines_cons
        by (apply (in_range_not_cr 128 191); [lia | exact Hc]).
      rewrite universal_newlines_cons
        by (apply (in_range_not_cr 128 191); [lia | exact Hd]).
      split; [reflexivity |]. rewrite Hb, Hc, Hd. apply IH; [lia | exact Hr]. }
    destruct (in_range 240 240 a) eqn:E4a.
    { destruct (T4 144 191 ltac:(lia) H) as [-> G].
      cbn [utf8_check]. rewrite Ha, E2, E3a, E3b, E3c, E4a. exact G. }
    destruct (in_range 241 243 a) eqn:E4b.
    { destruct (T4 128 191 ltac:(lia) H) as [-> G].
      cbn [utf8_check]. rewrite Ha, E2, E3a, E3b, E3c, E4a, E4b. exact G. }
    destruct (in_range 244 244 a) eqn:E4c; [| discriminate H].
    destruct (T4 128 143 ltac:(lia) H) as [-> G].
    cbn [utf8_check]. rewrite Ha, E2, E3a, E3b, E3c, E4a, E4b, E4c. exact G.
Qed.

Lemma read_text_utf8 (content : bytes) :
  utf8_valid content = true ->
  read_text content = Ok (universal_newlines content)
  /\ utf8_valid (universal_newlines content) = true.
Proof.
  intros H. split.
  - unfold read_text, utf8_decode. rewrite H. reflexivity.
  - exact (utf8_check_newlines false (length content) content (le_n _) H).
Qed.

Lemma read_text_not_utf8 (content : bytes) :
  utf8_valid content = false -> read_text content = Err UnicodeDecodeError.
Proof. intros H. unfold read_text, utf8_decode. rewrite H. reflexivity. Qed.

(** The artifact is read back from its file as it was written. *)
Lemma read_written_artifact (cs : list Chunk.t) (file_key salt : bytes) (ih : pystr) :
  b64_text ih ->
  read_text (write_text (_generate_decryptor cs file_key salt ih))
  = Ok (_generate_decryptor cs file_key salt ih).
Proof.
  intros Hih. unfold write_text.
  pose proof (b64encode_text file_key) as Hk.
  pose proof (b64encode_text salt) as Hs.
  destruct (chunks_json_text cs) as [Hc _].
  assert (V : utf8_valid (_generate_decryptor cs file_key salt ih) = true).
  { unfold utf8_valid, _generate_decryptor.
    repeat (rewrite utf8_check_ascii_app;
            [| first [ apply b64_text_ascii; assumption | vm_compute; reflexivity ]]).
    vm_compute. reflexivity. }
  assert (N : no_cr (_generate_decryptor cs file_key salt ih) = true).
  { unfold _generate_decryptor. rewrite !no_cr_app.
    rewrite (b64_text_no_cr _ Hk), (b64_text_no_cr _ Hs), (b64_text_no_cr _ Hih),
      (b64_text_no_cr _ Hc).
    vm_compute. reflexivity. }
  destruct (read_text_utf8 _ V) as [R _]. rewrite R.
  rewrite universal_newlines_no_cr by exact N. reflexivity.
Qed.



(* ================================================================== *)
(** * C1: round trip *)
(* ================================================================== *)

Lemma zero_lt_8192 : (0 < 8192)%nat.
Proof. apply Nat.ltb_lt. reflexivity. Qed.







(* ================================================================== *)
(** * C3: what the integrity tag is computed over *)
(* ================================================================== *)

Lemma sample_chunks_encrypted :
  _encrypt_chunks sample_tape 0 sample_code sample_key 5 = Ok (sample_chunks, 48%nat).
Proof. vm_compute. reflexivity. Qed.

(** C3 as stated fails: on the chunk list of a sample encryption, the tag
    that the encryptor embeds is not the HMAC of the raw binary values. *)
Lemma integrity_tag_is_not_over_raw_bytes :
  _encrypt_chunks sample_tape 0 sample_code sample_key 5 = Ok (sample_chunks, 48%nat)
  /\ _generate_integrity_hash sample_chunks sample_key
     <> spec_integrity_tag sample_chunks sample_key.
Proof.
  split; [exact sample_chunks_encrypted |].
  intros H. vm_compute in H. discriminate H.
Qed.

(** C3, as amended.  For every artifact, the embedded integrity tag is
    the HMAC-SHA256, keyed by the file key, of the concatenation in chunk
    order of each chunk's nonce, ciphertext and tag in their stored,
    base64-encoded form (as text, not the raw binary values); and
    decryption accepts exactly the embedded value that decodes to the HMAC
    of that same concatenation. *)
Theorem integrity_tag_over_base64_text (tape : entropy) (pos : nat) (data key : bytes)
        (chunk_size : nat) (chunks : list Chunk.t) (pos' : nat)
        (di : Info.t) (decrypted : bytes) :
  _encrypt_chunks tape pos data key chunk_size = Ok (chunks, pos') ->
  Info.chunks di = Some (chunks_json chunks) ->
  let signed :=
    concat (map (fun c => Chunk.nonce c ++ Chunk.data c ++ Chunk.tag c) chunks) in
  _generate_integrity_hash chunks key = b64encode (hmac_sha256 key signed)
  /\ Forall (fun c => exists nonce ct tag,
                 Chunk.nonce c = b64encode nonce /\ Chunk.data c = b64encode ct
                 /\ Chunk.tag c = b64encode tag) chunks
  /\ (_verify_integrity decrypted di key = true <->
      exists h, Info.integrity_hash di = Some h
                /\ b64decode h = Ok (hmac_sha256 key signed)).
Proof.
  intros He Hc signed. split; [reflexivity |].
  destruct (decrypt_loop_encrypted _ _ _ _ _ _ _ He) as [Hp _].
  apply encrypt_chunks_spec in He as (_ & Hf & _). split.
  - clear - Hf. induction Hf as [| off c offs cs (nonce & ct & tag & _ & _ & ->) _ IH];
      constructor; [| exact IH].
    exists nonce, ct, tag. repeat split.
  - rewrite (verify_integrity_generated chunks di decrypted key Hp Hc).
    fold (chunks_data chunks) in signed. subst signed.
    destruct (Info.integrity_hash di) as [h |].
    + destruct (b64decode h) as [expected | e] eqn:Eh.
      * rewrite bytes_eqb_eq. split.
        -- intros <-. exists h. split; [reflexivity | exact Eh].
        -- intros (h' & Hh & Hd). injection Hh as <-. congruence.
      * split; [discriminate |]. intros (h' & Hh & Hd). injection Hh as <-.
        congruence.
    + split; [discriminate |]. intros (h' & Hh & _). discriminate Hh.
Qed.

Lemma integrity_tag_over_base64_text_witness :
  _encrypt_chunks sample_tape 0 sample_code sample_key 5 = Ok (sample_chunks, 48%nat)
  /\ Info.chunks (Info.mk None None None (Some (chunks_json sample_chunks)))
     = Some (chunks_json sample_chunks)
  /\ _generate_integrity_hash sample_chunks sample_key
     = b64encode (hmac_sha256 sample_key (chunks_data sample_chunks)).
Proof.
  split; [exact sample_chunks_encrypted |]. split; [reflexivity |].
  destruct (integrity_tag_over_base64_text sample_tape 0%nat sample_code sample_key
              5%nat sample_chunks 48%nat
              (Info.mk None None None (Some (chunks_json sample_chunks))) []
              sample_chunks_encrypted eq_refl) as (H & _).
  exact H.
Defined.

(* ================================================================== *)
(** * C4: file key derivation *)
(* ================================================================== *)

Lemma basename_fold (name : pystr) :
  forallb (fun c => negb (Byte.eqb c "/")) name = true ->
  forall acc,
    fold_left (fun acc c => if Byte.eqb c "/" then [] else acc ++ [c]) name acc
    = acc ++ name.
Proof.
  induction name as [| c name IH]; intros H acc.
  - cbn. rewrite app_nil_r. reflexivity.
  - cbn [forallb] in H. apply andb_true_iff in H as [Hc Hn].
    apply negb_true_iff in Hc. cbn [fold_left]. rewrite Hc, IH by exact Hn.
    rewrite <- app_assoc. reflexivity.
Qed.

Lemma basename_in_directory (dir name : pystr) :
  forallb (fun c => negb (Byte.eqb c "/")) name = true ->
  basename (dir ++ "/" :: name) = name.
Proof.
  intros H. unfold basename. rewrite fold_left_app. cbn [fold_left].
  rewrite byte_eqb_refl. apply (basename_fold name H []).
Qed.





(* ================================================================== *)
(** * C5: chunking *)
(* ================================================================== *)

Lemma nth_error_seq_inv (m : nat) :
  forall a k x, nth_error (seq a m) k = Some x -> x = (a + k)%nat /\ (k < m)%nat.
Proof.
  induction m as [| m IH]; intros a k x H.
  - destruct k; discriminate H.
  - destruct k as [| k].
    + cbn in H. injection H as <-. lia.
    + cbn [seq nth_error] in H. apply IH in H as [-> Hk]. lia.
Qed.

Lemma py_range_nth_error (stop step k off : nat) :
  nth_error (py_range stop step) k = Some off ->
  off = (k * step)%nat /\ (k < (stop + step - 1) / step)%nat.
Proof.
  unfold py_range. rewrite nth_error_map.
  destruct (nth_error (seq 0 ((stop + step - 1) / step)) k) as [x |] eqn:E;
    [| discriminate].
  apply nth_error_seq_inv in E as [-> Hk]. cbn. intros H. injection H as <-. auto.
Qed.

Lemma Forall2_nth_error_r {A B} (R : A -> B -> Prop) (l1 : list A) (l2 : list B) :
  Forall2 R l1 l2 ->
  forall k y, nth_error l2 k = Some y -> exists x, nth_error l1 k = Some x /\ R x y.
Proof.
  induction 1 as [| x y l1 l2 Hxy _ IH]; intros k z H.
  - destruct k; discriminate H.
  - destruct k as [| k].
    + cbn in H. injection H as <-. exists x. auto.
    + cbn in H. apply IH in H. exact H.
Qed.

Lemma aes_gcm_encrypt_inv (key nonce pt ct tag : bytes) :
  aes_gcm_encrypt key nonce pt = Ok (ct, tag) ->
  length ct = length pt /\ tag = gcm_tag key nonce ct /\ aes_key_ok key = true.
Proof.
  unfold aes_gcm_encrypt. destruct (aes_key_ok key); [| discriminate].
  destruct (gcm_nonce_ok nonce); [| discriminate]. cbn [andb].
  intros H. injection H as <- <-. rewrite gcm_ctr_length. auto.
Qed.

Lemma unb64_encode (d : bytes) : unb64 (b64encode d) = d.
Proof. unfold unb64. rewrite b64decode_encode. reflexivity. Qed.

Lemma honest_chunk_decrypts (key : bytes) (iv_text : pystr) (pt : bytes) (idx : nat)
      (c : Chunk.t) :
  honest_chunk key iv_text pt idx c ->
  forall rest acc,
    decrypt_loop key (chunk_json c :: rest) acc = decrypt_loop key rest (acc ++ pt).
Proof.
  intros (nonce & ct & tag & _ & He & ->) rest acc.
  rewrite decrypt_loop_cons. cbn [Chunk.nonce Chunk.data Chunk.tag].
  rewrite !b64decode_encode. cbn [bind].
  rewrite (aes_gcm_roundtrip _ _ _ _ _ He). reflexivity.
Qed.

Lemma ceil_div_lt (n d k : nat) :
  (0 < d)%nat -> (k < (n + d - 1) / d)%nat -> (k * d < n)%nat.
Proof.
  intros Hd Hk. pose proof (Nat.div_mod_eq (n + d - 1) d) as E.
  pose proof (Nat.mod_upper_bound (n + d - 1) d ltac:(lia)) as B. nia.
Qed.

Lemma slice_length {A} (i n : nat) (l : list A) :
  length (slice i n l) = Nat.min n (length l - i).
Proof. unfold slice. rewrite length_firstn, length_skipn. reflexivity. Qed.

(** C5.  [_encrypt_chunks] cuts the plaintext into consecutive segments of
    [chunk_size] bytes, the last one possibly shorter: there are
    ceil(len / chunk_size) chunks, chunk number [k] carries the index [k]
    and encrypts the bytes from [k * chunk_size] on, and the segments in
    order make up the plaintext.  A 20,000-byte input under the default
    size gives three chunks of 8192, 8192 and 3616 bytes, and decryption
    returns the same 20,000 bytes (as the text they encode). *)
Theorem chunking (tape : entropy) (pos : nat) (data key : bytes) (chunk_size : nat) :
  aes_key_ok key = true -> (0 < chunk_size)%nat ->
  exists chunks pos',
    _encrypt_chunks tape pos data key chunk_size = Ok (chunks, pos')
    /\ length chunks = ((length data + chunk_size - 1) / chunk_size)%nat
    /\ (forall k c,
          nth_error chunks k = Some c ->
          let segment := slice (k * chunk_size) chunk_size data in
          Chunk.index c = k
          /\ decrypt_loop key [chunk_json c] [] = Ok segment
          /\ length (unb64 (Chunk.data c)) = length segment
          /\ length segment = Nat.min chunk_size (length data - k * chunk_size)
          /\ (0 < length segment)%nat)
    /\ concat (map (fun k => slice (k * chunk_size) chunk_size data)
                   (seq 0 (length chunks))) = data
    /\ (length data = 20000%nat -> chunk_size = 8192%nat ->
        map (fun c => length (unb64 (Chunk.data c))) chunks
        = [8192; 8192; 3616]%nat)
    /\ (forall di,
          Info.chunks di = Some (chunks_json chunks) ->
          Info.integrity_hash di = Some (_generate_integrity_hash chunks key) ->
          utf8_valid data = true ->
          _decrypt_data di key = Ok data).
Proof.
  intros Hk Hc.
  destruct (encrypt_chunks_total tape pos data key chunk_size Hk Hc)
    as (chunks & pos' & He).
  exists chunks, pos'. split; [exact He |].
  pose proof (encrypt_chunks_spec _ _ _ _ _ _ _ He) as (_ & Hf & _).
  assert (Hlen : length chunks = ((length data + chunk_size - 1) / chunk_size)%nat).
  { rewrite <- (Forall2_length Hf). apply py_range_length. }
  assert (Hnth : forall k c,
             nth_error chunks k = Some c ->
             let segment := slice (k * chunk_size) chunk_size data in
             Chunk.index c = k
             /\ decrypt_loop key [chunk_json c] [] = Ok segment
             /\ length (unb64 (Chunk.data c)) = length segment
             /\ length segment = Nat.min chunk_size (length data - k * chunk_size)
             /\ (0 < length segment)%nat).
  { intros k c Hkc segment.
    destruct (Forall2_nth_error_r _ _ _ Hf k c Hkc) as (off & Hoff & Hh).
    apply py_range_nth_error in Hoff as [-> Hlt].
    fold segment in Hh. rewrite Nat.div_mul in Hh by lia.
    pose proof (ceil_div_lt _ _ _ Hc Hlt) as Hpos.
    assert (Hseg : length segment = Nat.min chunk_size (length data - k * chunk_size))
      by apply slice_length.
    split; [| split; [| split; [| split]]].
    - destruct Hh as (nonce & ct & tag & _ & _ & ->). reflexivity.
    - rewrite (honest_chunk_decrypts _ _ _ _ _ Hh). reflexivity.
    - destruct Hh as (nonce & ct & tag & _ & Henc & ->). cbn [Chunk.data].
      rewrite unb64_encode. apply (aes_gcm_encrypt_inv _ _ _ _ _ Henc).
    - exact Hseg.
    - rewrite Hseg. lia. }
  split; [exact Hlen |]. split; [exact Hnth |]. split; [| split].
  - rewrite Hlen. apply slices_concat, ceil_div_bound, Hc.
  - intros Hd ->. rewrite Hd in Hlen.
    change ((20000 + 8192 - 1) / 8192)%nat with 3%nat in Hlen.
    destruct chunks as [| c0 [| c1 [| c2 [| c3 r]]]]; try discriminate Hlen.
    destruct (Hnth 0%nat c0 eq_refl) as (_ & _ & L0 & S0 & _).
    destruct (Hnth 1%nat c1 eq_refl) as (_ & _ & L1 & S1 & _).
    destruct (Hnth 2%nat c2 eq_refl) as (_ & _ & L2 & S2 & _).
    cbn [map]. rewrite L0, L1, L2, S0, S1, S2, Hd. reflexivity.
  - intros di Hdc Hdh Hu.
    rewrite (decrypt_data_encrypted _ _ _ _ _ _ _ di He Hdc Hdh).
    unfold utf8_decode. rewrite Hu. reflexivity.
Qed.

Lemma chunking_witness :
  aes_key_ok sample_key = true /\ (0 < 8192)%nat
  /\ exists chunks pos',
       _encrypt_chunks sample_tape 0 (repeat x61 20000) sample_key 8192
       = Ok (chunks, pos')
       /\ map (fun c => length (unb64 (Chunk.data c))) chunks
          = [8192; 8192; 3616]%nat.
Proof.
  split; [reflexivity |]. split; [exact zero_lt_8192 |].
  destruct (chunking sample_tape 0%nat (repeat x61 20000) sample_key 8192%nat
              eq_refl zero_lt_8192)
    as (chunks & pos' & He & _ & _ & _ & Hs & _).
  exists chunks, pos'. split; [exact He |].
  apply Hs; [apply repeat_length | reflexivity].
Defined.



(* ================================================================== *)
(** * Tampering with a chunk *)
(* ================================================================== *)




Lemma decrypt_loop_app (key : bytes) (l1 l2 : list json) :
  forall acc,
    decrypt_loop key (l1 ++ l2) acc
    = (d <- decrypt_loop key l1 acc ;; decrypt_loop key l2 d).
Proof.
  induction l1 as [| c l1 IH]; intros acc; [reflexivity |].
  cbn [app decrypt_loop].
  destruct (chunk_field c "nonce") as [n |]; [| reflexivity]. cbn [bind].
  destruct (chunk_field c "data") as [d |]; [| reflexivity]. cbn [bind].
  destruct (chunk_field c "tag") as [t |]; [| reflexivity]. cbn [bind].
  destruct (aes_gcm_decrypt key n d t) as [p |]; [| reflexivity]. cbn [bind].
  apply IH.
Qed.

Lemma encrypted_chunks_of_loop (key iv : bytes) (f : nat -> bytes)
      (g : nat -> nat) (offsets : list nat) (chunks : list Chunk.t) :
  Forall2 (fun off c => honest_chunk key (b64encode iv) (f off) (g off) c)
          offsets chunks ->
  Forall (encrypted_chunk key) chunks.
Proof.
  induction 1 as [| off c offs cs Hc _ IH]; constructor; [| exact IH].
  exists iv, (f off), (g off). exact Hc.
Qed.

Lemma encrypted_chunks_of (tape : entropy) (pos : nat) (data key : bytes)
      (chunk_size : nat) (chunks : list Chunk.t) (pos' : nat) :
  _encrypt_chunks tape pos data key chunk_size = Ok (chunks, pos') ->
  Forall (encrypted_chunk key) chunks.
Proof.
  intros H. apply encrypt_chunks_spec in H as (_ & H & _).
  exact (encrypted_chunks_of_loop key _ (fun off => slice off chunk_size data)
           (fun off => (off / chunk_size)%nat) _ _ H).
Qed.

Lemma decrypt_loop_encrypted_list (key : bytes) (cs : list Chunk.t) :
  Forall (encrypted_chunk key) cs ->
  forall acc, exists d, decrypt_loop key (map chunk_json cs) acc = Ok d.
Proof.
  induction 1 as [| c cs (iv_text & pt & idx & Hc) _ IH]; intros acc.
  - exists acc. reflexivity.
  - cbn [map]. rewrite (honest_chunk_decrypts _ _ _ _ _ Hc). apply IH.
Qed.

(** The three texts of an encrypted chunk, and what lies behind them. *)
Lemma encrypted_chunk_inv (key : bytes) (c : Chunk.t) :
  encrypted_chunk key c ->
  exists nonce ct tag,
    Chunk.nonce c = b64encode nonce /\ Chunk.data c = b64encode ct
    /\ Chunk.tag c = b64encode tag
    /\ length nonce = 12%nat /\ length tag = 16%nat
    /\ tag = gcm_tag key nonce ct /\ aes_key_ok key = true.
Proof.
  intros (iv_text & pt & idx & nonce & ct & tag & Hn & He & ->).
  apply aes_gcm_encrypt_inv in He as (_ & Ht & Hk).
  exists nonce, ct, tag. cbn [Chunk.nonce Chunk.data Chunk.tag].
  split; [reflexivity |]. split; [reflexivity |]. split; [reflexivity |].
  split; [exact Hn |]. split; [rewrite Ht; apply gcm_tag_length |].
  split; [exact Ht | exact Hk].
Qed.

Lemma chunks_data_app (a b : list Chunk.t) :
  chunks_data (a ++ b) = chunks_data a ++ chunks_data b.
Proof. unfold chunks_data. rewrite map_app, concat_app. reflexivity. Qed.

Lemma chunks_data_cons (c : Chunk.t) (b : list Chunk.t) :
  chunks_data (c :: b)
  = (Chunk.nonce c ++ Chunk.data c ++ Chunk.tag c) ++ chunks_data b.
Proof. reflexivity. Qed.



Lemma encrypted_chunk_is_plain (key : bytes) (c : Chunk.t) :
  encrypted_chunk key c -> plain_chunk c.
Proof. intros (iv & pt & idx & H). exact (honest_chunk_plain key iv pt idx c H). Qed.

Lemma encrypted_chunks_plain (key : bytes) (cs : list Chunk.t) :
  Forall (encrypted_chunk key) cs -> Forall plain_chunk cs.
Proof. apply Forall_impl. apply encrypted_chunk_is_plain. Qed.

(** What decryption makes of an artifact whose chunk list is [cs'] while
    its integrity tag is the one of [cs]. *)
Lemma decrypt_data_mixed (cs cs' : list Chunk.t) (key salt : bytes) :
  Forall plain_chunk cs' ->
  _decrypt_data
    (_extract_decrypt_info
       (_generate_decryptor cs' key salt (_generate_integrity_hash cs key))) key
  = (decrypted_data <- decrypt_loop key (map chunk_json cs') [] ;;
     if bytes_eqb (hmac_sha256 key (chunks_data cs')) (hmac_sha256 key (chunks_data cs))
     then of_option UnicodeDecodeError (utf8_decode decrypted_data)
     else Err IntegrityFailure)
  /\ forall d,
       _verify_integrity d
         (_extract_decrypt_info
            (_generate_decryptor cs' key salt (_generate_integrity_hash cs key))) key
       = bytes_eqb (hmac_sha256 key (chunks_data cs')) (hmac_sha256 key (chunks_data cs)).
Proof.
  intros Hp.
  destruct (integrity_hash_text cs key) as [Ht Hne].
  destruct (extract_generated cs' key salt (_generate_integrity_hash cs key) Ht Hne)
    as (Hh & Hc & _ & _).
  set (di := _extract_decrypt_info _) in *.
  assert (V : forall d, _verify_integrity d di key
                        = bytes_eqb (hmac_sha256 key (chunks_data cs'))
                                    (hmac_sha256 key (chunks_data cs))).
  { intros d. rewrite (verify_integrity_generated cs' di d key Hp Hc), Hh.
    unfold _generate_integrity_hash. rewrite b64decode_encode. reflexivity. }
  split; [| exact V].
  rewrite (decrypt_data_generated cs' di key Hp Hc).
  destruct (decrypt_loop key (map chunk_json cs') []) as [d | e]; [| reflexivity].
  cbn [bind]. rewrite V. reflexivity.
Qed.

Lemma hmac_differs (key m1 m2 : bytes) :
  no_collision key m1 m2 -> m1 <> m2 ->
  bytes_eqb (hmac_sha256 key m1) (hmac_sha256 key m2) = false.
Proof.
  intros H Hne. destruct (bytes_eqb _ _) eqn:E; [| reflexivity].
  apply bytes_eqb_eq in E. exfalso. exact (H Hne E).
Qed.



(* ================================================================== *)
(** * C6: the order of the chunks *)
(* ================================================================== *)

Lemma encrypted_nonce_length (key : bytes) (c : Chunk.t) :
  encrypted_chunk key c -> length (Chunk.nonce c) = 16%nat.
Proof.
  intros H. destruct (encrypted_chunk_inv key c H) as (n & _ & _ & -> & _ & _ & L & _).
  rewrite b64encode_length, L. reflexivity.
Qed.






(* ================================================================== *)
(** * C10: the ['iv'] field of a chunk *)
(* ================================================================== *)

Lemma obj_get_drop_iv (k : pystr) (m : list (pystr * json)) :
  bytes_eqb k (lit "iv") = false ->
  obj_get k (filter (fun kv => negb (bytes_eqb (fst kv) (lit "iv"))) m) = obj_get k m.
Proof.
  intros Hk. induction m as [| [k' v] r IH]; [reflexivity |].
  cbn [filter fst obj_get]. destruct (bytes_eqb k' (lit "iv")) eqn:E; cbn [negb].
  - rewrite IH. apply bytes_eqb_eq in E. subst k'. rewrite Hk.
    destruct (obj_get k r); reflexivity.
  - cbn [obj_get]. rewrite IH. reflexivity.
Qed.

Lemma getitem_drop_iv (c : json) (k : pystr) :
  bytes_eqb k (lit "iv") = false ->
  py_getitem (drop_iv_chunk c) k = py_getitem c k.
Proof.
  intros Hk. destruct c; try reflexivity.
  cbn [drop_iv_chunk py_getitem]. rewrite obj_get_drop_iv by exact Hk. reflexivity.
Qed.

Lemma chunk_field_drop_iv (c : json) (k : string) :
  bytes_eqb (lit k) (lit "iv") = false ->
  chunk_field (drop_iv_chunk c) k = chunk_field c k.
Proof. intros Hk. unfold chunk_field. rewrite getitem_drop_iv by exact Hk. reflexivity. Qed.

Lemma decrypt_loop_drop_iv (fk : bytes) (items : list json) :
  forall acc,
    decrypt_loop fk (map drop_iv_chunk items) acc = decrypt_loop fk items acc.
Proof.
  induction items as [| c r IH]; intros acc; [reflexivity |].
  cbn [map decrypt_loop].
  rewrite !chunk_field_drop_iv by (vm_compute; reflexivity).
  destruct (chunk_field c "nonce") as [n |]; [| reflexivity]. cbn [bind].
  destruct (chunk_field c "data") as [d |]; [| reflexivity]. cbn [bind].
  destruct (chunk_field c "tag") as [t |]; [| reflexivity]. cbn [bind].
  destruct (aes_gcm_decrypt fk n d t) as [p |]; [| reflexivity]. cbn [bind].
  apply IH.
Qed.

Lemma signed_text_drop_iv (c : json) :
  signed_text (drop_iv_chunk c) = signed_text c.
Proof.
  unfold signed_text. rewrite !getitem_drop_iv by (vm_compute; reflexivity).
  reflexivity.
Qed.

Lemma signed_texts_drop_iv (items : list json) :
  map_result signed_text (map drop_iv_chunk items) = map_result signed_text items.
Proof.
  induction items as [| c r IH]; [reflexivity |].
  cbn [map map_result]. rewrite signed_text_drop_iv, IH. reflexivity.
Qed.

Lemma drop_iv_cases (j1 j2 : json) :
  drop_iv j1 = drop_iv j2 ->
  j1 = j2
  \/ exists i1 i2, j1 = JArr i1 /\ j2 = JArr i2
                   /\ map drop_iv_chunk i1 = map drop_iv_chunk i2.
Proof.
  intros H. destruct j1 as [| | | | i1 |]; destruct j2 as [| | | | i2 |];
    cbn [drop_iv] in H; try discriminate H; try (left; exact H).
  right. exists i1, i2. injection H as H. auto.
Qed.

(** The integrity check and the decryption of a chunk list that is a JSON
    array, in terms of the list without its ['iv'] entries. *)
Lemma verify_integrity_array (di : Info.t) (items : list json) (fk d : bytes) :
  load_chunks di = Ok (JArr items) ->
  _verify_integrity d di fk
  = match (texts <- map_result signed_text (map drop_iv_chunk items) ;;
           encoded <- of_option ValueError (utf8_decode (concat texts)) ;;
           h <- of_option TypeError (Info.integrity_hash di) ;;
           expected_hash <- b64decode h ;;
           Ok (bytes_eqb (hmac_sha256 fk encoded) expected_hash)) with
    | Ok b => b
    | Err _ => false
    end.
Proof.
  intros H. unfold _verify_integrity, verify_integrity_body. rewrite H.
  cbn [bind py_iter]. rewrite signed_texts_drop_iv. reflexivity.
Qed.

Lemma decrypt_data_array (di : Info.t) (items : list json) (fk : bytes) :
  load_chunks di = Ok (JArr items) ->
  _decrypt_data di fk
  = (decrypted_data <- decrypt_loop fk (map drop_iv_chunk items) [] ;;
     if _verify_integrity decrypted_data di fk then
       of_option UnicodeDecodeError (utf8_decode decrypted_data)
     else Err IntegrityFailure).
Proof.
  intros H. unfold _decrypt_data. rewrite H. cbn [bind py_iter].
  rewrite decrypt_loop_drop_iv. reflexivity.
Qed.

Lemma encrypt_loop_iv (tape : entropy) (key iv : bytes) (chunk_size : nat) (data : bytes)
      (offsets : list nat) (chunks : list Chunk.t) :
  Forall2 (fun off c => honest_chunk key (b64encode iv) (slice off chunk_size data)
                                     (off / chunk_size) c) offsets chunks ->
  Forall (fun c => Chunk.iv c = b64encode iv) chunks.
Proof.
  induction 1 as [| off c offs cs (n & ct & t & _ & _ & ->) _ IH]; constructor;
    [reflexivity | exact IH].
Qed.

(** C10.  Every chunk of one encryption call carries the same ['iv']
    text, the base64 form of the 12 bytes drawn before the loop; and
    decryption does not read it: two decryption inputs with the same
    integrity tag whose decoded chunk lists agree once the ['iv'] entries
    are left out get the same verdict of the integrity check and the same
    result of decryption, plaintext or failure. *)
Theorem iv_field_unused (tape : entropy) (pos : nat) (data key : bytes)
        (chunk_size : nat) (chunks : list Chunk.t) (pos' : nat)
        (di1 di2 : Info.t) (j1 j2 : json) (fk : bytes) :
  _encrypt_chunks tape pos data key chunk_size = Ok (chunks, pos') ->
  load_chunks di1 = Ok j1 ->
  load_chunks di2 = Ok j2 ->
  drop_iv j1 = drop_iv j2 ->
  Info.integrity_hash di1 = Info.integrity_hash di2 ->
  (length (fst (token_bytes tape pos 12)) = 12%nat
   /\ Forall (fun c => Chunk.iv c = b64encode (fst (token_bytes tape pos 12))) chunks)
  /\ (forall d, _verify_integrity d di1 fk = _verify_integrity d di2 fk)
  /\ _decrypt_data di1 fk = _decrypt_data di2 fk.
Proof.
  intros He H1 H2 Hj Hh. split.
  - split; [apply token_bytes_length |].
    apply encrypt_chunks_spec in He as (_ & He & _).
    exact (encrypt_loop_iv tape key _ chunk_size data _ _ He).
  - assert (V : forall d, _verify_integrity d di1 fk = _verify_integrity d di2 fk).
    { intros d. destruct (drop_iv_cases j1 j2 Hj) as [E | (i1 & i2 & -> & -> & E)].
      - subst j2. unfold _verify_integrity, verify_integrity_body.
        rewrite H1, H2, Hh. reflexivity.
      - rewrite (verify_integrity_array di1 i1 fk d H1),
          (verify_integrity_array di2 i2 fk d H2), E, Hh. reflexivity. }
    split; [exact V |].
    destruct (drop_iv_cases j1 j2 Hj) as [E | (i1 & i2 & -> & -> & E)].
    + subst j2. unfold _decrypt_data. rewrite H1, H2. cbn [bind].
      destruct (py_iter j1) as [items |]; [| reflexivity]. cbn [bind].
      destruct (decrypt_loop fk items []) as [d |]; [| reflexivity]. cbn [bind].
      rewrite V. reflexivity.
    + rewrite (decrypt_data_array di1 i1 fk H1), (decrypt_data_array di2 i2 fk H2), E.
      destruct (decrypt_loop fk (map drop_iv_chunk i2) []) as [d |]; [| reflexivity].
      cbn [bind]. rewrite V. reflexivity.
Qed.

Lemma iv_field_unused_witness :
  _encrypt_chunks sample_tape 0 sample_code sample_key 5 = Ok (sample_chunks, 48%nat)
  /\ load_chunks sample_info = Ok (loaded sample_info)
  /\ load_chunks sample_info_other_iv = Ok (loaded sample_info_other_iv)
  /\ drop_iv (loaded sample_info) = drop_iv (loaded sample_info_other_iv)
  /\ Info.integrity_hash sample_info = Info.integrity_hash sample_info_other_iv
  /\ _decrypt_data sample_info sample_key = _decrypt_data sample_info_other_iv sample_key.
Proof.
  assert (H1 : load_chunks sample_info = Ok (loaded sample_info))
    by (vm_compute; reflexivity).
  assert (H2 : load_chunks sample_info_other_iv = Ok (loaded sample_info_other_iv))
    by (vm_compute; reflexivity).
  assert (H3 : drop_iv (loaded sample_info) = drop_iv (loaded sample_info_other_iv))
    by (vm_compute; reflexivity).
  split; [exact sample_chunks_encrypted |]. split; [exact H1 |]. split; [exact H2 |].
  assert (H4 : Info.integrity_hash sample_info
               = Info.integrity_hash sample_info_other_iv)
    by (vm_compute; reflexivity).
  split; [exact H3 |]. split; [exact H4 |].
  destruct (iv_field_unused sample_tape 0%nat sample_code sample_key 5%nat
              sample_chunks 48%nat sample_info sample_info_other_iv
              (loaded sample_info) (loaded sample_info_other_iv) sample_key
              sample_chunks_encrypted H1 H2 H3 H4) as (_ & _ & H).
  exact H.
Defined.



(* ================================================================== *)
(** * C7 and C9: the alias maps of the obfuscator *)
(* ================================================================== *)

Lemma dict_get_set (k n a : pystr) (m : dict) :
  dict_get k (dict_set n a m) = if bytes_eqb k n then Some a else dict_get k m.
Proof.
  induction m as [| [k' v'] r IH]; [reflexivity |].
  cbn [dict_set]. destruct (bytes_eqb n k') eqn:E.
  - apply bytes_eqb_eq in E. subst k'. cbn [dict_get].
    destruct (bytes_eqb k n); reflexivity.
  - cbn [dict_get]. rewrite IH.
    destruct (bytes_eqb k k') eqn:E1; [| reflexivity].
    destruct (bytes_eqb k n) eqn:E2; [| reflexivity].
    apply bytes_eqb_eq in E1, E2. subst. rewrite bytes_eqb_refl in E. discriminate E.
Qed.

Lemma choices_spec (tape : rand_tape) (chars : bytes) (n : nat) :
  chars <> [] ->
  forall pos,
    length (fst (choices tape pos chars n)) = n
    /\ Forall (fun c => In c chars) (fst (choices tape pos chars n)).
Proof.
  intros Hc. induction n as [| n IH]; intros pos; [split; [reflexivity | constructor] |].
  cbn [choices choice]. specialize (IH (S pos)).
  destruct (choices tape (S pos) chars n) as [r pos2]. cbn [fst] in *.
  destruct IH as [L F]. split; [cbn [length]; rewrite L; reflexivity |].
  constructor; [| exact F]. apply nth_In. apply Nat.mod_upper_bound.
  destruct chars; [congruence | discriminate].
Qed.

Lemma forallb_in_chars (chars name : bytes) :
  Forall (fun c => In c chars) name ->
  forallb (fun c => existsb (Byte.eqb c) chars) name = true.
Proof.
  intros H. apply forallb_forall. intros c Hc. rewrite Forall_forall in H.
  apply existsb_exists. exists c. split; [exact (H c Hc) | apply byte_eqb_refl].
Qed.

Lemma generated_var_alias (tape : rand_tape) (pos : nat) :
  var_alias (fst (_generate_obfuscated_name tape pos (lit "var"))) = true.
Proof.
  unfold _generate_obfuscated_name. rewrite bytes_eqb_refl. unfold randint. cbv beta iota zeta.
  set (len := (8 + tape pos mod (12 - 8 + 1))%nat).
  assert (B : (8 <= len <= 12)%nat).
  { subst len. pose proof (Nat.mod_upper_bound (tape pos) (12 - 8 + 1) ltac:(discriminate)).
    cbn in *. lia. }
  destruct (choices_spec tape (ascii_letters ++ digits) len ltac:(discriminate) (S pos))
    as [L F].
  destruct (choices tape (S pos) (ascii_letters ++ digits) len) as [name pos2].
  cbn [fst] in *. unfold var_alias. rewrite L.
  rewrite (proj2 (Nat.leb_le _ _) (proj1 B)), (proj2 (Nat.leb_le _ _) (proj2 B)).
  change (Byte.eqb "$" "$") with true. cbn [andb].
  exact (forallb_in_chars _ _ F).
Qed.

Lemma generated_name_alias (tape : rand_tape) (pos : nat) (prefix : pystr) :
  bytes_eqb prefix (lit "var") = false ->
  name_alias (fst (_generate_obfuscated_name tape pos prefix)) = true.
Proof.
  intros Hp. unfold _generate_obfuscated_name. rewrite Hp. unfold randint. cbv beta iota zeta.
  set (len := (10 + tape pos mod (15 - 10 + 1))%nat).
  assert (B : (10 <= len <= 15)%nat).
  { subst len. pose proof (Nat.mod_upper_bound (tape pos) (15 - 10 + 1) ltac:(discriminate)).
    cbn in *. lia. }
  destruct (choices_spec tape ascii_letters len ltac:(discriminate) (S pos)) as [L F].
  destruct (choices tape (S pos) ascii_letters len) as [name pos2].
  cbn [fst] in *. unfold name_alias. rewrite L.
  rewrite (proj2 (Nat.leb_le _ _) (proj1 B)), (proj2 (Nat.leb_le _ _) (proj2 B)).
  cbn [andb]. exact (forallb_in_chars _ _ F).
Qed.

(** The first loop of an obfuscation pass: the entries that were there
    stay as they are, every listed name has an entry afterwards, and every
    entry that was not there holds a name made by
    [_generate_obfuscated_name]. *)
Lemma assign_names_spec (tape : rand_tape) (prefix : pystr) (names : list pystr) :
  forall m pos,
    extends m (fst (assign_names tape prefix names m pos))
    /\ (forall n, In n names ->
                  dict_mem n (fst (assign_names tape prefix names m pos)) = true)
    /\ (forall k v, dict_get k (fst (assign_names tape prefix names m pos)) = Some v ->
                    dict_get k m = Some v
                    \/ exists p, v = fst (_generate_obfuscated_name tape p prefix)).
Proof.
  induction names as [| n rest IH]; intros m pos.
  - cbn [assign_names fst]. split; [intros k v H; exact H |].
    split; [intros n [] | intros k v H; left; exact H].
  - cbn [assign_names]. destruct (dict_mem n m) eqn:E.
    + destruct (IH m pos) as (X & M & G). split; [exact X |]. split; [| exact G].
      intros n' [<- | Hin]; [| exact (M n' Hin)].
      unfold dict_mem in *. destruct (dict_get n m) as [v |] eqn:D; [| discriminate E].
      rewrite (X n v D). reflexivity.
    + destruct (_generate_obfuscated_name tape pos prefix) as [alias pos1] eqn:Eg.
      destruct (IH (dict_set n alias m) pos1) as (X & M & G).
      assert (D : dict_get n m = None).
      { unfold dict_mem in E. destruct (dict_get n m); [discriminate E | reflexivity]. }
      split; [| split].
      * intros k v H. apply X. rewrite dict_get_set.
        destruct (bytes_eqb k n) eqn:Ek; [| exact H].
        apply bytes_eqb_eq in Ek. subst k. rewrite D in H. discriminate H.
      * intros n' [<- | Hin]; [| exact (M n' Hin)].
        unfold dict_mem. rewrite (X n alias); [reflexivity |].
        rewrite dict_get_set, bytes_eqb_refl. reflexivity.
      * intros k v H. destruct (G k v H) as [H' | H']; [| right; exact H'].
        rewrite dict_get_set in H'. destruct (bytes_eqb k n); [| left; exact H'].
        injection H' as <-. right. exists pos. rewrite Eg. reflexivity.
Qed.

(** The three maps after a call of [obfuscate]: each is what the first
    loop of its pass makes of it, or what it was if its option is off. *)
Lemma obfuscate_maps (re_sub : pystr -> pystr -> pystr -> pystr) (tape : rand_tape)
      (parsed_code : Parsed.t) (vars funcs classes : bool) (self : Obf.t) (pos : nat) :
  exists p1 p2,
    Obf.variable_map (snd (fst (obfuscate re_sub tape parsed_code vars funcs classes
                                          self pos)))
    = (if vars then
         fst (assign_names tape (lit "var") (Parsed.variables parsed_code)
                           (Obf.variable_map self) pos)
       else Obf.variable_map self)
    /\ Obf.function_map (snd (fst (obfuscate re_sub tape parsed_code vars funcs classes
                                             self pos)))
       = (if funcs then
            fst (assign_names tape (lit "func")
                              (map Item.name (Parsed.functions parsed_code))
                              (Obf.function_map self) p1)
          else Obf.function_map self)
    /\ Obf.class_map (snd (fst (obfuscate re_sub tape parsed_code vars funcs classes
                                          self pos)))
       = (if classes then
            fst (assign_names tape (lit "class")
                              (map Item.name (Parsed.classes parsed_code))
                              (Obf.class_map self) p2)
          else Obf.class_map self).
Proof.
  unfold obfuscate, _obfuscate_variables, _obfuscate_functions, _obfuscate_classes.
  destruct vars.
  - destruct (assign_names tape (lit "var") _ _ pos) as [mv pv]. cbn [Obf.function_map].
    destruct funcs.
    + destruct (assign_names tape (lit "func") _ _ pv) as [mf pf] eqn:Ef.
      cbn [Obf.class_map]. destruct classes.
      * destruct (assign_names tape (lit "class") _ _ pf) as [mc pc] eqn:Ec.
        exists pv, pf. rewrite Ef, Ec. cbn. auto.
      * exists pv, pf. rewrite Ef. cbn. auto.
    + destruct classes.
      * cbn [Obf.class_map].
        destruct (assign_names tape (lit "class") _ _ pv) as [mc pc] eqn:Ec.
        exists pv, pv. rewrite Ec. cbn. auto.
      * exists pv, pv. cbn. auto.
  - destruct funcs.
    + destruct (assign_names tape (lit "func") _ _ pos) as [mf pf] eqn:Ef.
      cbn [Obf.class_map]. destruct classes.
      * destruct (assign_names tape (lit "class") _ _ pf) as [mc pc] eqn:Ec.
        exists pos, pf. rewrite Ef, Ec. cbn. auto.
      * exists pos, pf. rewrite Ef. cbn. auto.
    + destruct classes.
      * destruct (assign_names tape (lit "class") _ _ pos) as [mc pc] eqn:Ec.
        exists pos, pos. rewrite Ec. cbn. auto.
      * exists pos, pos. cbn. auto.
Qed.

Lemma obfuscated_maps (re_sub : pystr -> pystr -> pystr -> pystr) (tape : rand_tape)
      (parsed_code : Parsed.t) (vars funcs classes : bool) (self : Obf.t) (pos : nat) :
  exists p1 p2,
    Obf.variable_map (obfuscated re_sub tape parsed_code vars funcs classes self pos)
    = (if vars then
         fst (assign_names tape (lit "var") (Parsed.variables parsed_code)
                           (Obf.variable_map self) pos)
       else Obf.variable_map self)
    /\ Obf.function_map (obfuscated re_sub tape parsed_code vars funcs classes self pos)
       = (if funcs then
            fst (assign_names tape (lit "func")
                              (map Item.name (Parsed.functions parsed_code))
                              (Obf.function_map self) p1)
          else Obf.function_map self)
    /\ Obf.class_map (obfuscated re_sub tape parsed_code vars funcs classes self pos)
       = (if classes then
            fst (assign_names tape (lit "class")
                              (map Item.name (Parsed.classes parsed_code))
                              (Obf.class_map self) p2)
          else Obf.class_map self).
Proof. exact (obfuscate_maps re_sub tape parsed_code vars funcs classes self pos). Qed.

Lemma var_alias_not_reserved (v : pystr) :
  var_alias v = true ->
  ~ In v superglobals /\ ~ In v reserved_keywords /\ ~ In v magic_constants.
Proof.
  intros Hv.
  assert (G : forallb (fun s => negb (var_alias s))
                      (superglobals ++ reserved_keywords ++ magic_constants) = true)
    by (vm_compute; reflexivity).
  rewrite forallb_forall in G.
  assert (N : ~ In v (superglobals ++ reserved_keywords ++ magic_constants)).
  { intros Hin. apply G in Hin. rewrite Hv in Hin. discriminate Hin. }
  repeat split; intros Hin; apply N; rewrite !in_app_iff; auto.
Qed.

Lemma name_alias_not_reserved (v : pystr) :
  name_alias v = true -> ~ In v superglobals /\ ~ In v magic_constants.
Proof.
  intros Hv.
  assert (G : forallb (fun s => negb (name_alias s)) (superglobals ++ magic_constants)
              = true)
    by (vm_compute; reflexivity).
  rewrite forallb_forall in G.
  assert (N : ~ In v (superglobals ++ magic_constants)).
  { intros Hin. apply G in Hin. rewrite Hv in Hin. discriminate Hin. }
  split; intros Hin; apply N; rewrite in_app_iff; auto.
Qed.

Lemma assign_names_alias_ok (shape : pystr -> bool) (tape : rand_tape) (prefix : pystr)
      (names : list pystr) (m : dict) (pos : nat) :
  (forall p, shape (fst (_generate_obfuscated_name tape p prefix)) = true) ->
  alias_ok shape m ->
  alias_ok shape (fst (assign_names tape prefix names m pos)).
Proof.
  intros Hg Hm k v H.
  destruct (assign_names_spec tape prefix names m pos) as (_ & _ & G).
  destruct (G k v H) as [H' | [p ->]]; [exact (Hm k v H') | apply Hg].
Qed.


(** C7 as stated fails.  With a generator that always draws 0, the two
    variables of one input get the same alias, so that the map is not
    injective: nothing is drawn again on a collision.  And with a generator
    whose draws spell it, the alias of a function is the reserved keyword
    [instanceof]. *)
Lemma aliases_can_collide :
  (dict_get (lit "$foo")
            (Obf.variable_map (obfuscated re_sub_none zero_tape parsed_vars
                                          true false false fresh 0))
   = Some (lit "$aaaaaaaa")
   /\ dict_get (lit "$bar")
               (Obf.variable_map (obfuscated re_sub_none zero_tape parsed_vars
                                             true false false fresh 0))
      = Some (lit "$aaaaaaaa")
   /\ ~ injective (Obf.variable_map (obfuscated re_sub_none zero_tape parsed_vars
                                                true false false fresh 0)))
  /\ (dict_get (lit "run")
               (Obf.function_map (obfuscated re_sub_none keyword_tape parsed_func
                                             false true false fresh 0))
      = Some (lit "instanceof")
      /\ In (lit "instanceof") reserved_keywords).
Proof.
  assert (H1 : dict_get (lit "$foo")
                 (Obf.variable_map (obfuscated re_sub_none zero_tape parsed_vars
                                               true false false fresh 0))
               = Some (lit "$aaaaaaaa")) by (vm_compute; reflexivity).
  assert (H2 : dict_get (lit "$bar")
                 (Obf.variable_map (obfuscated re_sub_none zero_tape parsed_vars
                                               true false false fresh 0))
               = Some (lit "$aaaaaaaa")) by (vm_compute; reflexivity).
  split; [split; [exact H1 | split; [exact H2 |]] |].
  - intros H. specialize (H _ _ _ H1 H2). vm_compute in H. discriminate H.
  - split; [vm_compute; reflexivity |].
    assert (G : existsb (bytes_eqb (lit "instanceof")) reserved_keywords = true)
      by (vm_compute; reflexivity).
    apply existsb_exists in G as (s & Hs & E). apply bytes_eqb_eq in E. subst s.
    exact Hs.
Qed.

(** C7, as amended.  The shape of the aliases is an invariant of an
    obfuscator instance: every variable alias is a dollar sign followed by
    8 to 12 letters or digits, every function and class alias is 10 to 15
    letters.  So no variable alias is a superglobal, a reserved keyword or
    a magic constant, and no function or class alias is a superglobal or a
    magic constant.  (Nothing keeps two names from the same alias, nor a
    function or class alias from a reserved keyword.) *)
Theorem alias_shape (re_sub : pystr -> pystr -> pystr -> pystr) (tape : rand_tape)
        (parsed_code : Parsed.t) (vars funcs classes : bool) (self : Obf.t) (pos : nat) :
  aliases_ok self ->
  aliases_ok (obfuscated re_sub tape parsed_code vars funcs classes self pos)
  /\ (forall k v,
        dict_get k (Obf.variable_map
                      (obfuscated re_sub tape parsed_code vars funcs classes self pos))
        = Some v ->
        var_alias v = true
        /\ ~ In v superglobals /\ ~ In v reserved_keywords /\ ~ In v magic_constants)
  /\ (forall k v,
        dict_get k (Obf.function_map
                      (obfuscated re_sub tape parsed_code vars funcs classes self pos))
        = Some v
        \/ dict_get k (Obf.class_map
                         (obfuscated re_sub tape parsed_code vars funcs classes self pos))
           = Some v ->
        name_alias v = true /\ ~ In v superglobals /\ ~ In v magic_constants).
Proof.
  intros (Hv & Hf & Hc).
  assert (A : aliases_ok (obfuscated re_sub tape parsed_code vars funcs classes self pos)).
  { destruct (obfuscated_maps re_sub tape parsed_code vars funcs classes self pos)
      as (p1 & p2 & Ev & Ef & Ec).
    unfold aliases_ok. rewrite Ev, Ef, Ec. split; [| split].
    - destruct vars; [| exact Hv].
      apply assign_names_alias_ok; [apply generated_var_alias | exact Hv].
    - destruct funcs; [| exact Hf].
      apply assign_names_alias_ok; [| exact Hf].
      intros p. apply generated_name_alias. vm_compute. reflexivity.
    - destruct classes; [| exact Hc].
      apply assign_names_alias_ok; [| exact Hc].
      intros p. apply generated_name_alias. vm_compute. reflexivity. }
  split; [exact A |]. destruct A as (Av & Af & Ac). split.
  - intros k v H. split; [exact (Av k v H) |].
    apply var_alias_not_reserved. exact (Av k v H).
  - intros k v [H | H].
    + split; [exact (Af k v H) |]. apply name_alias_not_reserved. exact (Af k v H).
    + split; [exact (Ac k v H) |]. apply name_alias_not_reserved. exact (Ac k v H).
Qed.

Lemma fresh_aliases_ok : aliases_ok fresh.
Proof. repeat split; intros k v H; discriminate H. Qed.

Lemma alias_shape_witness :
  aliases_ok fresh
  /\ aliases_ok (obfuscated re_sub_none zero_tape parsed_vars
                            true true true fresh 0).
Proof.
  split; [exact fresh_aliases_ok |].
  destruct (alias_shape re_sub_none zero_tape parsed_vars
                        true true true fresh 0%nat fresh_aliases_ok) as [H _].
  exact H.
Defined.




(* ================================================================== *)
(** * C8: fields that are missing *)
(* ================================================================== *)




(* ================================================================== *)
(** * Validation of artifact files *)
(* ================================================================== *)

Lemma strip_prefix_some_app (m s t : bytes) :
  forall r, strip_prefix m s = Some r -> strip_prefix m (s ++ t) = Some (r ++ t).
Proof.
  revert s. induction m as [| x m IH]; intros s r H.
  - cbn in H. injection H as <-. reflexivity.
  - destruct s as [| y s]; [discriminate H |]. cbn [strip_prefix app] in H |- *.
    destruct (Byte.eqb x y); [apply IH, H | discriminate H].
Qed.

Lemma contains_app_l (n a b : bytes) :
  contains n a = true -> contains n (a ++ b) = true.
Proof.
  induction a as [| c a IH]; intros H.
  - cbn [contains] in H. destruct (strip_prefix n []) as [r |] eqn:E; [| discriminate H].
    destruct n; [| discriminate E]. destruct b; reflexivity.
  - cbn [contains] in H. change ((c :: a) ++ b) with (c :: a ++ b). cbn [contains].
    change (c :: a ++ b) with ((c :: a) ++ b).
    destruct (strip_prefix n (c :: a)) as [r |] eqn:E.
    + rewrite (strip_prefix_some_app _ _ b r E). reflexivity.
    + destruct (strip_prefix n ((c :: a) ++ b)); [reflexivity | apply IH, H].
Qed.

Lemma contains_app_r (n a b : bytes) :
  contains n b = true -> contains n (a ++ b) = true.
Proof.
  intros H. induction a as [| c a IH]; [exact H |].
  change ((c :: a) ++ b) with (c :: a ++ b). cbn [contains].
  destruct (strip_prefix n (c :: a ++ b)); [reflexivity | exact IH].
Qed.

Lemma contains_here (n s : bytes) : contains n (n ++ s) = true.
Proof.
  destruct (n ++ s) as [| c r] eqn:E; cbn [contains]; rewrite <- E, strip_prefix_app;
    reflexivity.
Qed.

(** A field that the extraction finds was found after its marker. *)
Lemma re_search_contains (marker s : bytes) (v : pystr) :
  re_search_field marker s = Some v -> contains marker s = true.
Proof.
  induction s as [| c s IH]; cbn [re_search_field contains]; unfold match_field_at.
  - destruct (strip_prefix marker []); [reflexivity |]. discriminate.
  - destruct (strip_prefix marker (c :: s)); [reflexivity |]. exact IH.
Qed.

Lemma contains_prefix (n m s : bytes) :
  contains (n ++ m) s = true -> contains n s = true.
Proof.
  induction s as [| c s IH]; cbn [contains]; intros H.
  - destruct (strip_prefix (n ++ m) []) eqn:E; [| discriminate H].
    destruct n; [reflexivity | discriminate E].
  - destruct (strip_prefix (n ++ m) (c :: s)) as [r |] eqn:E.
    + assert (G : exists r', strip_prefix n (c :: s) = Some r').
      { clear - E. revert E. generalize (c :: s). induction n as [| x n IHn]; intros l E.
        - eexists. reflexivity.
        - destruct l as [| y l]; [discriminate E |]. cbn [app strip_prefix] in E |- *.
          destruct (Byte.eqb x y); [apply IHn, E | discriminate E]. }
      destruct G as [r' ->]. reflexivity.
    + destruct (strip_prefix n (c :: s)); [reflexivity | apply IH, H].
Qed.

(** [validate_file] on a text that is read back as it is. *)
Lemma validate_file_text (file : bytes) (content : pystr) :
  read_text file = Ok content ->
  contains (lit "class PHPDecryptor") content = true ->
  contains (lit "private $fileKey") content = true ->
  contains (lit "private $salt") content = true ->
  contains (lit "private $integrityHash") content = true ->
  contains (lit "private $chunks") content = true ->
  validate_file file = true.
Proof.
  intros R H0 H1 H2 H3 H4. unfold validate_file. rewrite R, H0. cbn [negb].
  unfold required_fields. cbn [map forallb]. rewrite H1, H2, H3, H4. reflexivity.
Qed.

(** An artifact text with any base64 text in the place of the integrity
    hash passes [validate_file]. *)
Lemma validate_file_generated (cs : list Chunk.t) (file_key salt : bytes) (ih : pystr) :
  b64_text ih ->
  validate_file (write_text (_generate_decryptor cs file_key salt ih)) = true.
Proof.
  intros Ht.
  apply (validate_file_text _ _ (read_written_artifact cs file_key salt _ Ht));
    unfold _generate_decryptor.
  - apply contains_app_l. vm_compute. reflexivity.
  - apply contains_app_l. vm_compute. reflexivity.
  - do 2 apply contains_app_r. apply contains_app_l. vm_compute. reflexivity.
  - do 4 apply contains_app_r. apply contains_app_l. vm_compute. reflexivity.
  - do 6 apply contains_app_r. apply contains_app_l. vm_compute. reflexivity.
Qed.

(** X1.  Every artifact that [_generate_decryptor] builds, written to a file,
    passes [validate_file]: whatever its chunk list, also one that was
    tampered with or does not belong to the integrity hash beside it. *)
Theorem validate_file_accepts_artifacts (cs signed : list Chunk.t)
        (file_key salt key : bytes) :
  validate_file
    (write_text (_generate_decryptor cs file_key salt
                                     (_generate_integrity_hash signed key)))
  = true.
Proof.
  destruct (integrity_hash_text signed key) as [Ht _].
  apply validate_file_generated, Ht.
Qed.

(** X2.  A file from which the extraction gets all four fields passes
    [validate_file] as soon as its text names the class. *)
Theorem extractable_file_validates (file : bytes) (encrypted_code : pystr)
        (k s h c : pystr) :
  read_text file = Ok encrypted_code ->
  _extract_decrypt_info encrypted_code = Info.mk (Some k) (Some s) (Some h) (Some c) ->
  contains (lit "class PHPDecryptor") encrypted_code = true ->
  validate_file file = true.
Proof.
  intros R E Hc. unfold _extract_decrypt_info in E.
  injection E as Ek Es Eh Ec.
  apply (validate_file_text file encrypted_code R Hc).
  - apply re_search_contains in Ek.
    exact (contains_prefix (lit "private $fileKey") (lit " = '") _ Ek).
  - apply re_search_contains in Es.
    exact (contains_prefix (lit "private $salt") (lit " = '") _ Es).
  - apply re_search_contains in Eh.
    exact (contains_prefix (lit "private $integrityHash") (lit " = '") _ Eh).
  - apply re_search_contains in Ec.
    exact (contains_prefix (lit "private $chunks") (lit " = '") _ Ec).
Qed.

Lemma extractable_file_validates_witness :
  read_text (write_text sample_artifact) = Ok sample_artifact
  /\ _extract_decrypt_info sample_artifact
     = Info.mk (Some (b64encode sample_key)) (Some (b64encode (lit "saltsaltsaltsalt")))
               (Some (_generate_integrity_hash sample_chunks sample_key))
               (Some (chunks_json sample_chunks))
  /\ contains (lit "class PHPDecryptor") sample_artifact = true
  /\ validate_file (write_text sample_artifact) = true.
Proof.
  assert (H1 : read_text (write_text sample_artifact) = Ok sample_artifact)
    by (vm_compute; reflexivity).
  assert (H2 : _extract_decrypt_info sample_artifact
               = Info.mk (Some (b64encode sample_key))
                         (Some (b64encode (lit "saltsaltsaltsalt")))
                         (Some (_generate_integrity_hash sample_chunks sample_key))
                         (Some (chunks_json sample_chunks)))
    by (vm_compute; reflexivity).
  assert (H3 : contains (lit "class PHPDecryptor") sample_artifact = true)
    by (vm_compute; reflexivity).
  split; [exact H1 |]. split; [exact H2 |]. split; [exact H3 |].
  exact (extractable_file_validates (write_text sample_artifact) sample_artifact
           _ _ _ _ H1 H2 H3).
Defined.

(* ================================================================== *)
(** * What the artifact holds *)
(* ================================================================== *)

(** X3.  [_extract_decrypt_info] reads back from a
    generated artifact what [_generate_decryptor] put into it: the
    integrity hash and the chunk list always, the file key and the salt in
    base64 unless they are empty, in which case the field counts as
    absent. *)
Theorem extraction_reads_back (cs signed : list Chunk.t) (file_key salt key : bytes) :
  _extract_decrypt_info
    (_generate_decryptor cs file_key salt (_generate_integrity_hash signed key))
  = Info.mk (match file_key with [] => None | _ => Some (b64encode file_key) end)
            (match salt with [] => None | _ => Some (b64encode salt) end)
            (Some (_generate_integrity_hash signed key))
            (Some (chunks_json cs)).
Proof.
  destruct (integrity_hash_text signed key) as [Ht Hne].
  destruct (extract_generated cs file_key salt _ Ht Hne) as (Hh & Hc & Hk & Hs).
  destruct (_extract_decrypt_info _) as [k s h c].
  cbn [Info.integrity_hash Info.chunks Info.file_key Info.salt] in *.
  rewrite Hh, Hc, Hk, Hs. reflexivity.
Qed.



(* ================================================================== *)
(** * [_encrypt_chunks]: failures and use of entropy *)
(* ================================================================== *)

Lemma py_range_empty (step : nat) : (0 < step)%nat -> py_range 0 step = [].
Proof.
  intros H. unfold py_range. replace ((0 + step - 1) / step)%nat with 0%nat;
    [reflexivity |]. symmetry. apply Nat.div_small. lia.
Qed.

Lemma py_range_nonempty (stop step : nat) :
  (0 < step)%nat -> (0 < stop)%nat -> exists rest, py_range stop step = 0%nat :: rest.
Proof.
  intros Hs Hn. unfold py_range.
  destruct ((stop + step - 1) / step)%nat as [| n] eqn:E.
  - apply Nat.div_small_iff in E; lia.
  - cbn [seq map]. eexists. reflexivity.
Qed.

(** X5.  [_encrypt_chunks] fails in two cases
    only, both with [ValueError]: a chunk size of zero, and a key that is
    not 16, 24 or 32 bytes long when there is something to encrypt.  Empty
    data gives the empty chunk list with any key, also one of a wrong
    size, and still draws the 12 bytes of the unused IV. *)
Theorem encrypt_chunks_failures (tape : entropy) (pos : nat) (data key : bytes)
        (chunk_size : nat) :
  (chunk_size = 0%nat -> _encrypt_chunks tape pos data key chunk_size = Err ValueError)
  /\ ((0 < chunk_size)%nat -> data = [] ->
      _encrypt_chunks tape pos data key chunk_size = Ok ([], (pos + 12)%nat))
  /\ ((0 < chunk_size)%nat -> data <> [] -> aes_key_ok key = false ->
      _encrypt_chunks tape pos data key chunk_size = Err ValueError)
  /\ ((0 < chunk_size)%nat -> aes_key_ok key = true ->
      exists chunks,
        _encrypt_chunks tape pos data key chunk_size
        = Ok (chunks,
              (pos + 12 + 12 * ((length data + chunk_size - 1) / chunk_size))%nat)).
Proof.
  split; [intros ->; reflexivity |]. split; [| split].
  - intros Hc ->. unfold _encrypt_chunks, token_bytes.
    destruct (chunk_size =? 0)%nat eqn:E; [apply Nat.eqb_eq in E; lia |].
    cbn [length]. rewrite py_range_empty by exact Hc. reflexivity.
  - intros Hc Hd Hk. unfold _encrypt_chunks, token_bytes.
    destruct (chunk_size =? 0)%nat eqn:E; [apply Nat.eqb_eq in E; lia |].
    destruct (py_range_nonempty (length data) chunk_size Hc) as [rest ->].
    { destruct data; [congruence | cbn; lia]. }
    cbn [encrypt_loop]. unfold token_bytes, aes_gcm_encrypt. rewrite Hk. reflexivity.
  - intros Hc Hk.
    destruct (encrypt_chunks_total tape pos data key chunk_size Hk Hc)
      as (chunks & pos' & E).
    exists chunks. rewrite E.
    apply encrypt_chunks_spec in E as (_ & _ & ->). reflexivity.
Qed.

Lemma encrypt_loop_entropy (tape : entropy) (key iv : bytes) (chunk_size : nat)
      (data : bytes) (offsets : list nat) :
  forall pos chunks pos',
    encrypt_loop tape key iv chunk_size data offsets pos = Ok (chunks, pos') ->
    forall k c,
      nth_error chunks k = Some c ->
      Chunk.iv c = b64encode iv
      /\ Chunk.nonce c = b64encode (map tape (seq (pos + 12 * k) 12)).
Proof.
  induction offsets as [| i rest IH]; intros pos chunks pos' H k c Hk.
  - cbn in H. injection H as <- <-. destruct k; discriminate Hk.
  - cbn [encrypt_loop] in H. unfold token_bytes in H.
    destruct (aes_gcm_encrypt key (map tape (seq pos 12)) (slice i chunk_size data))
      as [[ct tag] |]; [| discriminate H].
    destruct (encrypt_loop tape key iv chunk_size data rest (pos + 12))
      as [[more pos2] |] eqn:E; [| discriminate H].
    injection H as <- <-. destruct k as [| k].
    + cbn in Hk. injection Hk as <-. cbn [Chunk.iv Chunk.nonce].
      rewrite Nat.mul_0_r, Nat.add_0_r. split; reflexivity.
    + cbn [nth_error] in Hk. destruct (IH _ _ _ E k c Hk) as [Hi Hn].
      split; [exact Hi |]. rewrite Hn. do 3 f_equal. lia.
Qed.

(** X6.  One call of [_encrypt_chunks] draws 12
    bytes of entropy for the IV and 12 more for every chunk, and uses them
    in that order: all chunks carry the first 12 bytes as their ['iv'], and
    chunk number [k] has the [k]-th block of 12 bytes after them as its
    nonce.  No nonce is derived from anything else. *)
Theorem encrypt_chunks_entropy (tape : entropy) (pos : nat) (data key : bytes)
        (chunk_size : nat) (chunks : list Chunk.t) (pos' : nat) :
  _encrypt_chunks tape pos data key chunk_size = Ok (chunks, pos') ->
  pos' = (pos + 12 * (1 + length chunks))%nat
  /\ forall k c,
       nth_error chunks k = Some c ->
       Chunk.iv c = b64encode (map tape (seq pos 12))
       /\ Chunk.nonce c = b64encode (map tape (seq (pos + 12 * (1 + k)) 12)).
Proof.
  intros H. pose proof (encrypt_chunks_spec _ _ _ _ _ _ _ H) as (_ & Hf & ->).
  split.
  - rewrite <- (Forall2_length Hf), py_range_length. lia.
  - unfold _encrypt_chunks, token_bytes in H.
    destruct (chunk_size =? 0)%nat; [discriminate H |].
    intros k c Hk. destruct (encrypt_loop_entropy _ _ _ _ _ _ _ _ _ H k c Hk) as [Hi Hn].
    split; [exact Hi |]. rewrite Hn. do 3 f_equal. lia.
Qed.

Lemma encrypt_chunks_entropy_witness :
  _encrypt_chunks sample_tape 0 sample_code sample_key 5 = Ok (sample_chunks, 48%nat)
  /\ 48%nat = (0 + 12 * (1 + length sample_chunks))%nat
  /\ forall k c,
       nth_error sample_chunks k = Some c ->
       Chunk.iv c = b64encode (map sample_tape (seq 0 12))
       /\ Chunk.nonce c = b64encode (map sample_tape (seq (0 + 12 * (1 + k)) 12)).
Proof.
  split; [exact sample_chunks_encrypted |].
  exact (encrypt_chunks_entropy sample_tape 0%nat sample_code sample_key 5%nat
           sample_chunks 48%nat sample_chunks_encrypted).
Defined.

(* ================================================================== *)
(** * [_decrypt_data]: what it reads, and what it refuses *)
(* ================================================================== *)

Lemma obj_get_drop_field (k f : pystr) (m : list (pystr * json)) :
  bytes_eqb k f = false ->
  obj_get k (filter (fun kv => negb (bytes_eqb (fst kv) f)) m) = obj_get k m.
Proof.
  intros Hk. induction m as [| [k' v] r IH]; [reflexivity |].
  cbn [filter fst obj_get]. destruct (bytes_eqb k' f) eqn:E; cbn [negb].
  - rewrite IH. apply bytes_eqb_eq in E. subst k'. rewrite Hk.
    destruct (obj_get k r); reflexivity.
  - cbn [obj_get]. rewrite IH. reflexivity.
Qed.

Lemma getitem_drop_field (c : json) (k f : pystr) :
  bytes_eqb k f = false -> py_getitem (drop_field_chunk f c) k = py_getitem c k.
Proof.
  intros Hk. destruct c; try reflexivity.
  cbn [drop_field_chunk py_getitem]. rewrite obj_get_drop_field by exact Hk. reflexivity.
Qed.

Lemma bytes_eqb_sym (a b : bytes) : bytes_eqb a b = bytes_eqb b a.
Proof.
  destruct (bytes_eqb a b) eqn:E.
  - apply bytes_eqb_eq in E. subst. symmetry. apply bytes_eqb_refl.
  - destruct (bytes_eqb b a) eqn:E'; [| reflexivity].
    apply bytes_eqb_eq in E'. subst. rewrite bytes_eqb_refl in E. discriminate E.
Qed.

(** The three lookups of a chunk do not see the entries under another
    key. *)
Lemma lookups_drop_field (f : pystr) (c : json) :
  read_by_decryption f = false ->
  chunk_field (drop_field_chunk f c) "nonce" = chunk_field c "nonce"
  /\ chunk_field (drop_field_chunk f c) "data" = chunk_field c "data"
  /\ chunk_field (drop_field_chunk f c) "tag" = chunk_field c "tag"
  /\ signed_text (drop_field_chunk f c) = signed_text c.
Proof.
  unfold read_by_decryption. intros H.
  apply orb_false_iff in H as [H Ht]. apply orb_false_iff in H as [Hn Hd].
  rewrite bytes_eqb_sym in Hn, Hd, Ht.
  unfold chunk_field, signed_text.
  rewrite !(getitem_drop_field c (lit "nonce") f Hn),
    !(getitem_drop_field c (lit "data") f Hd), !(getitem_drop_field c (lit "tag") f Ht).
  repeat split.
Qed.

Lemma decrypt_loop_drop_field (f : pystr) (fk : bytes) (items : list json) :
  read_by_decryption f = false ->
  forall acc,
    decrypt_loop fk (map (drop_field_chunk f) items) acc = decrypt_loop fk items acc.
Proof.
  intros Hf. induction items as [| c r IH]; intros acc; [reflexivity |].
  cbn [map decrypt_loop].
  destruct (lookups_drop_field f c Hf) as (-> & -> & -> & _).
  destruct (chunk_field c "nonce") as [n |]; [| reflexivity]. cbn [bind].
  destruct (chunk_field c "data") as [d |]; [| reflexivity]. cbn [bind].
  destruct (chunk_field c "tag") as [t |]; [| reflexivity]. cbn [bind].
  destruct (aes_gcm_decrypt fk n d t) as [p |]; [| reflexivity]. cbn [bind].
  apply IH.
Qed.

Lemma signed_texts_drop_field (f : pystr) (items : list json) :
  read_by_decryption f = false ->
  map_result signed_text (map (drop_field_chunk f) items)
  = map_result signed_text items.
Proof.
  intros Hf. induction items as [| c r IH]; [reflexivity |].
  cbn [map map_result].
  destruct (lookups_drop_field f c Hf) as (_ & _ & _ & ->). rewrite IH. reflexivity.
Qed.

Lemma drop_field_cases (f : pystr) (j1 j2 : json) :
  drop_field f j1 = drop_field f j2 ->
  j1 = j2
  \/ exists i1 i2, j1 = JArr i1 /\ j2 = JArr i2
                   /\ map (drop_field_chunk f) i1 = map (drop_field_chunk f) i2.
Proof.
  intros H. destruct j1 as [| | | | i1 |]; destruct j2 as [| | | | i2 |];
    cbn [drop_field] in H; try discriminate H; try (left; exact H).
  right. exists i1, i2. injection H as H. auto.
Qed.

(** The verdict and the result for a chunk list that is a JSON array, in
    terms of the list without the entries under [f]. *)
Lemma decryption_of_array (f : pystr) (di : Info.t) (items : list json) (fk : bytes) :
  read_by_decryption f = false ->
  load_chunks di = Ok (JArr items) ->
  (forall d,
      _verify_integrity d di fk
      = match (texts <- map_result signed_text (map (drop_field_chunk f) items) ;;
               encoded <- of_option ValueError (utf8_decode (concat texts)) ;;
               h <- of_option TypeError (Info.integrity_hash di) ;;
               expected_hash <- b64decode h ;;
               Ok (bytes_eqb (hmac_sha256 fk encoded) expected_hash)) with
        | Ok b => b
        | Err _ => false
        end)
  /\ _decrypt_data di fk
     = (decrypted_data <- decrypt_loop fk (map (drop_field_chunk f) items) [] ;;
        if _verify_integrity decrypted_data di fk then
          of_option UnicodeDecodeError (utf8_decode decrypted_data)
        else Err IntegrityFailure).
Proof.
  intros Hf H. split.
  - intros d. unfold _verify_integrity, verify_integrity_body. rewrite H.
    cbn [bind py_iter]. rewrite signed_texts_drop_field by exact Hf. reflexivity.
  - unfold _decrypt_data. rewrite H. cbn [bind py_iter].
    rewrite decrypt_loop_drop_field by exact Hf. reflexivity.
Qed.

(** X7.  Decryption looks up three entries of a
    chunk, ['nonce'], ['data'] and ['tag'], and no other: two inputs with
    the same integrity hash whose chunk lists agree once the entries under
    any other key (the ['index'], say) are left out get the same verdict of
    the integrity check and the same result.  The chunks are joined in the
    order of the list, whatever their ['index'] says. *)
Theorem other_fields_unused (f : pystr) (di1 di2 : Info.t) (j1 j2 : json) (fk : bytes) :
  read_by_decryption f = false ->
  load_chunks di1 = Ok j1 ->
  load_chunks di2 = Ok j2 ->
  drop_field f j1 = drop_field f j2 ->
  Info.integrity_hash di1 = Info.integrity_hash di2 ->
  (forall d, _verify_integrity d di1 fk = _verify_integrity d di2 fk)
  /\ _decrypt_data di1 fk = _decrypt_data di2 fk.
Proof.
  intros Hf H1 H2 Hj Hh.
  assert (V : forall d, _verify_integrity d di1 fk = _verify_integrity d di2 fk).
  { intros d. destruct (drop_field_cases f j1 j2 Hj) as [E | (i1 & i2 & -> & -> & E)].
    - subst j2. unfold _verify_integrity, verify_integrity_body.
      rewrite H1, H2, Hh. reflexivity.
    - destruct (decryption_of_array f di1 i1 fk Hf H1) as [-> _].
      destruct (decryption_of_array f di2 i2 fk Hf H2) as [-> _].
      rewrite E, Hh. reflexivity. }
  split; [exact V |].
  destruct (drop_field_cases f j1 j2 Hj) as [E | (i1 & i2 & -> & -> & E)].
  - subst j2. unfold _decrypt_data. rewrite H1, H2. cbn [bind].
    destruct (py_iter j1) as [items |]; [| reflexivity]. cbn [bind].
    destruct (decrypt_loop fk items []) as [d |]; [| reflexivity]. cbn [bind].
    rewrite V. reflexivity.
  - destruct (decryption_of_array f di1 i1 fk Hf H1) as [_ ->].
    destruct (decryption_of_array f di2 i2 fk Hf H2) as [_ ->]. rewrite E.
    destruct (decrypt_loop fk (map (drop_field_chunk f) i2) []) as [d |];
      [| reflexivity].
    cbn [bind]. rewrite V. reflexivity.
Qed.

Lemma other_fields_unused_witness :
  read_by_decryption (lit "index") = false
  /\ load_chunks sample_info = Ok (loaded sample_info)
  /\ load_chunks sample_info_other_index = Ok (loaded sample_info_other_index)
  /\ drop_field (lit "index") (loaded sample_info)
     = drop_field (lit "index") (loaded sample_info_other_index)
  /\ Info.integrity_hash sample_info = Info.integrity_hash sample_info_other_index
  /\ _decrypt_data sample_info sample_key
     = _decrypt_data sample_info_other_index sample_key.
Proof.
  assert (H0 : read_by_decryption (lit "index") = false) by (vm_compute; reflexivity).
  assert (H1 : load_chunks sample_info = Ok (loaded sample_info))
    by (vm_compute; reflexivity).
  assert (H2 : load_chunks sample_info_other_index
               = Ok (loaded sample_info_other_index))
    by (vm_compute; reflexivity).
  assert (H3 : drop_field (lit "index") (loaded sample_info)
               = drop_field (lit "index") (loaded sample_info_other_index))
    by (vm_compute; reflexivity).
  assert (H4 : Info.integrity_hash sample_info
               = Info.integrity_hash sample_info_other_index)
    by (vm_compute; reflexivity).
  split; [exact H0 |]. split; [exact H1 |]. split; [exact H2 |]. split; [exact H3 |].
  split; [exact H4 |].
  destruct (other_fields_unused (lit "index") sample_info sample_info_other_index
              (loaded sample_info) (loaded sample_info_other_index) sample_key
              H0 H1 H2 H3 H4) as [_ H].
  exact H.
Defined.

Lemma chunks_data_nonempty (key : bytes) (cs : list Chunk.t) :
  Forall (encrypted_chunk key) cs -> cs <> [] -> chunks_data cs <> [].
Proof.
  intros H Hne. destruct cs as [| c cs]; [congruence |].
  inversion H as [| ? ? Hc _]; subst. rewrite chunks_data_cons.
  pose proof (encrypted_nonce_length key c Hc) as L.
  destruct (Chunk.nonce c); [discriminate L | discriminate].
Qed.

(** X8.  Take the artifact of an encryption and
    drop chunks from the end of its chunk list: unless HMAC-SHA256 under
    the file key collides on the signed text of the two lists, every chunk
    that is left decrypts, and decryption ends in the integrity failure,
    not in a shortened plaintext. *)
Theorem truncation_detected (tape : entropy) (pos : nat) (data key salt : bytes)
        (chunk_size : nat) (chunks : list Chunk.t) (pos' : nat)
        (kept dropped : list Chunk.t) :
  _encrypt_chunks tape pos data key chunk_size = Ok (chunks, pos') ->
  chunks = kept ++ dropped ->
  dropped <> [] ->
  no_collision key (chunks_data kept) (chunks_data chunks) ->
  (exists decrypted, decrypt_loop key (map chunk_json kept) [] = Ok decrypted)
  /\ _decrypt_data
       (_extract_decrypt_info
          (_generate_decryptor kept key salt (_generate_integrity_hash chunks key)))
       key
     = Err IntegrityFailure.
Proof.
  intros He Hs Hd Hnc.
  pose proof (encrypted_chunks_of _ _ _ _ _ _ _ He) as Hall. rewrite Hs in Hall.
  apply Forall_app in Hall as [Hk Hdr].
  destruct (decrypt_loop_encrypted_list key kept Hk []) as [d Ed].
  split; [exists d; exact Ed |].
  destruct (decrypt_data_mixed chunks kept key salt (encrypted_chunks_plain key _ Hk))
    as [-> _].
  assert (Hm : chunks_data kept <> chunks_data chunks).
  { rewrite Hs, chunks_data_app. intros E.
    rewrite <- (app_nil_r (chunks_data kept)) in E at 1.
    apply app_inv_head in E. exact (chunks_data_nonempty key dropped Hdr Hd (eq_sym E)). }
  rewrite (hmac_differs key _ _ Hnc Hm), Ed. reflexivity.
Qed.

Lemma truncation_detected_witness :
  _encrypt_chunks sample_tape 0 sample_code sample_key 5 = Ok (sample_chunks, 48%nat)
  /\ sample_chunks = firstn 2 sample_chunks ++ skipn 2 sample_chunks
  /\ skipn 2 sample_chunks <> []
  /\ no_collision sample_key (chunks_data (firstn 2 sample_chunks))
                  (chunks_data sample_chunks)
  /\ _decrypt_data
       (_extract_decrypt_info
          (_generate_decryptor (firstn 2 sample_chunks) sample_key []
                               (_generate_integrity_hash sample_chunks sample_key)))
       sample_key
     = Err IntegrityFailure.
Proof.
  assert (H1 : sample_chunks = firstn 2 sample_chunks ++ skipn 2 sample_chunks)
    by (symmetry; apply firstn_skipn).
  assert (H2 : skipn 2 sample_chunks <> [])
    by (intros H; vm_compute in H; discriminate H).
  assert (H3 : no_collision sample_key (chunks_data (firstn 2 sample_chunks))
                            (chunks_data sample_chunks))
    by (intros _ H; vm_compute in H; discriminate H).
  split; [exact sample_chunks_encrypted |]. split; [exact H1 |]. split; [exact H2 |].
  split; [exact H3 |].
  destruct (truncation_detected sample_tape 0%nat sample_code sample_key [] 5%nat
              sample_chunks 48%nat (firstn 2 sample_chunks) (skipn 2 sample_chunks)
              sample_chunks_encrypted H1 H2 H3) as [_ H].
  exact H.
Defined.

(** X9.  A chunk that is not a JSON object, or an object
    without a ['nonce'] entry, stops decryption at that chunk, after the
    chunks before it have been decrypted: with a [TypeError] in the first
    case and a [KeyError] in the second, and never with a result. *)
Theorem malformed_chunk (di : Info.t) (fk : bytes) (before after : list json)
        (chunk : json) (decrypted : bytes) :
  load_chunks di = Ok (JArr (before ++ chunk :: after)) ->
  decrypt_loop fk before [] = Ok decrypted ->
  ((forall members, chunk <> JObj members) -> _decrypt_data di fk = Err TypeError)
  /\ (forall members,
        chunk = JObj members -> obj_get (lit "nonce") members = None ->
        _decrypt_data di fk = Err KeyError).
Proof.
  intros Hl Hb.
  assert (E : _decrypt_data di fk
              = (nonce <- chunk_field chunk "nonce" ;;
                 data <- chunk_field chunk "data" ;;
                 tag <- chunk_field chunk "tag" ;;
                 decrypted_chunk <- aes_gcm_decrypt fk nonce data tag ;;
                 decrypted_data <- decrypt_loop fk after (decrypted ++ decrypted_chunk) ;;
                 if _verify_integrity decrypted_data di fk then
                   of_option UnicodeDecodeError (utf8_decode decrypted_data)
                 else Err IntegrityFailure)).
  { unfold _decrypt_data. rewrite Hl. cbn [bind py_iter].
    rewrite decrypt_loop_app, Hb. cbn [bind decrypt_loop].
    destruct (chunk_field chunk "nonce") as [nonce | e]; [| reflexivity]. cbn [bind].
    destruct (chunk_field chunk "data") as [data | e]; [| reflexivity]. cbn [bind].
    destruct (chunk_field chunk "tag") as [tag | e]; [| reflexivity]. cbn [bind].
    destruct (aes_gcm_decrypt fk nonce data tag); reflexivity. }
  rewrite E. unfold chunk_field. split.
  - intros Hn. destruct chunk as [| b | n | s | items | members]; try reflexivity.
    exfalso. exact (Hn members eq_refl).
  - intros members -> Hn. cbn [py_getitem]. rewrite Hn. reflexivity.
Qed.

Lemma malformed_chunk_witness :
  load_chunks sample_info_bad_chunk
  = Ok (JArr (firstn 1 (map chunk_json sample_chunks) ++ JStr (lit "x") :: []))
  /\ decrypt_loop sample_key (firstn 1 (map chunk_json sample_chunks)) []
     = Ok (firstn 5 sample_code)
  /\ _decrypt_data sample_info_bad_chunk sample_key = Err TypeError.
Proof.
  assert (H1 : load_chunks sample_info_bad_chunk
               = Ok (JArr (firstn 1 (map chunk_json sample_chunks)
                             ++ JStr (lit "x") :: [])))
    by (vm_compute; reflexivity).
  assert (H2 : decrypt_loop sample_key (firstn 1 (map chunk_json sample_chunks)) []
               = Ok (firstn 5 sample_code))
    by (vm_compute; reflexivity).
  split; [exact H1 |]. split; [exact H2 |].
  destruct (malformed_chunk sample_info_bad_chunk sample_key
              (firstn 1 (map chunk_json sample_chunks)) [] (JStr (lit "x"))
              (firstn 5 sample_code) H1 H2) as [H _].
  apply H. intros members. discriminate.
Defined.

(* ================================================================== *)
(** * The obfuscator: repeated calls and statistics *)
(* ================================================================== *)

Lemma obfuscate_passes (re_sub : pystr -> pystr -> pystr -> pystr) (tape : rand_tape)
      (parsed_code : Parsed.t) (vars funcs classes : bool) (self : Obf.t) (pos : nat) :
  (snd (fst (obfuscate re_sub tape parsed_code vars funcs classes self pos)),
   snd (obfuscate re_sub tape parsed_code vars funcs classes self pos))
  = passes tape parsed_code vars funcs classes self pos.
Proof.
  unfold obfuscate, passes, _obfuscate_variables, _obfuscate_functions,
    _obfuscate_classes.
  destruct self as [vm fm cm]. cbn [Obf.variable_map Obf.function_map Obf.class_map].
  destruct vars, funcs, classes;
    cbn [Obf.variable_map Obf.function_map Obf.class_map];
    repeat (match goal with
            | |- context [assign_names ?t ?p ?n ?m ?q] =>
                destruct (assign_names t p n m q) as [? ?]
            end;
            cbn [Obf.variable_map Obf.function_map Obf.class_map]);
    reflexivity.
Qed.

(** Names that all have an alias: nothing is drawn, nothing changes. *)
Lemma assign_names_known (tape : rand_tape) (prefix : pystr) (names : list pystr)
      (m : dict) (pos : nat) :
  (forall n, In n names -> dict_mem n m = true) ->
  assign_names tape prefix names m pos = (m, pos).
Proof.
  induction names as [| n rest IH]; intros H; [reflexivity |].
  cbn [assign_names]. rewrite (H n (or_introl eq_refl)).
  apply IH. intros n' Hn'. apply H. right. exact Hn'.
Qed.

Lemma assign_names_again (tape : rand_tape) (prefix : pystr) (names : list pystr)
      (m : dict) (pos pos2 : nat) :
  assign_names tape prefix names (fst (assign_names tape prefix names m pos)) pos2
  = (fst (assign_names tape prefix names m pos), pos2).
Proof.
  apply assign_names_known.
  destruct (assign_names_spec tape prefix names m pos) as (_ & M & _). exact M.
Qed.

Lemma passes_eq (tape : rand_tape) (parsed_code : Parsed.t)
      (vars funcs classes : bool) (self : Obf.t) (pos : nat) :
  passes tape parsed_code vars funcs classes self pos
  = let rv := pass tape vars (lit "var") (Parsed.variables parsed_code)
                   (Obf.variable_map self) pos in
    let rf := pass tape funcs (lit "func")
                   (map Item.name (Parsed.functions parsed_code))
                   (Obf.function_map self) (snd rv) in
    let rc := pass tape classes (lit "class")
                   (map Item.name (Parsed.classes parsed_code))
                   (Obf.class_map self) (snd rf) in
    (Obf.mk (fst rv) (fst rf) (fst rc), snd rc).
Proof.
  unfold passes, pass. cbv zeta.
  destruct (if vars then _ else _) as [mv p1]. cbn [fst snd].
  destruct (if funcs then _ else _) as [mf p2]. cbn [fst snd].
  destruct (if classes then _ else _) as [mc p3]. reflexivity.
Qed.

Lemma pass_again (tape : rand_tape) (on : bool) (prefix : pystr) (names : list pystr)
      (m : dict) (pos pos2 : nat) :
  pass tape on prefix names (fst (pass tape on prefix names m pos)) pos2
  = (fst (pass tape on prefix names m pos), pos2).
Proof. unfold pass. destruct on; [apply assign_names_again | reflexivity]. Qed.

(** X10.  Calling [obfuscate] a second time on an input
    with the same names and the same options, on the instance as the first
    call left it, changes none of the three maps and draws no random
    number: every name has its alias already. *)
Theorem obfuscate_again (re_sub : pystr -> pystr -> pystr -> pystr) (tape : rand_tape)
        (parsed_code again : Parsed.t) (vars funcs classes : bool)
        (self : Obf.t) (pos pos2 : nat) :
  Parsed.variables again = Parsed.variables parsed_code ->
  Parsed.functions again = Parsed.functions parsed_code ->
  Parsed.classes again = Parsed.classes parsed_code ->
  snd (fst (obfuscate re_sub tape again vars funcs classes
                      (obfuscated re_sub tape parsed_code vars funcs classes self pos)
                      pos2))
  = obfuscated re_sub tape parsed_code vars funcs classes self pos
  /\ snd (obfuscate re_sub tape again vars funcs classes
                    (obfuscated re_sub tape parsed_code vars funcs classes self pos)
                    pos2)
     = pos2.
Proof.
  intros Hv Hf Hc.
  pose proof (obfuscate_passes re_sub tape again vars funcs classes
                (obfuscated re_sub tape parsed_code vars funcs classes self pos) pos2)
    as E2.
  pose proof (obfuscate_passes re_sub tape parsed_code vars funcs classes self pos)
    as E1.
  fold (obfuscated re_sub tape parsed_code vars funcs classes self pos) in E1.
  apply (f_equal fst) in E1. cbn [fst] in E1.
  rewrite passes_eq in E1. cbv zeta in E1. cbn [fst] in E1.
  rewrite passes_eq, Hv, Hf, Hc, E1 in E2. cbv zeta in E2.
  cbn [Obf.variable_map Obf.function_map Obf.class_map] in E2.
  rewrite !pass_again in E2. cbn [fst snd] in E2.
  rewrite E1. injection E2 as Ea Eb. split; [exact Ea | exact Eb].
Qed.

Lemma obfuscate_again_witness :
  Parsed.variables parsed_vars = Parsed.variables parsed_vars
  /\ Parsed.functions parsed_vars = Parsed.functions parsed_vars
  /\ Parsed.classes parsed_vars = Parsed.classes parsed_vars
  /\ snd (obfuscate re_sub_none zero_tape parsed_vars true true true
                    (obfuscated re_sub_none zero_tape parsed_vars true true true fresh 0)
                    9)
     = 9%nat.
Proof.
  split; [reflexivity |]. split; [reflexivity |]. split; [reflexivity |].
  destruct (obfuscate_again re_sub_none zero_tape parsed_vars parsed_vars
              true true true fresh 0%nat 9%nat eq_refl eq_refl eq_refl) as [_ H].
  exact H.
Defined.


Lemma dict_mem_keys (n : pystr) (m : dict) :
  dict_mem n m = existsb (bytes_eqb n) (map fst m).
Proof.
  unfold dict_mem. induction m as [| [k v] r IH]; [reflexivity |].
  cbn [dict_get map fst existsb]. destruct (bytes_eqb n k); [reflexivity | exact IH].
Qed.

Lemma dict_set_new_key (n a : pystr) (m : dict) :
  dict_mem n m = false -> map fst (dict_set n a m) = map fst m ++ [n].
Proof.
  rewrite dict_mem_keys. induction m as [| [k v] r IH]; intros H; [reflexivity |].
  cbn [map fst existsb] in H. apply orb_false_iff in H as [Hk Hr].
  cbn [dict_set]. rewrite Hk. cbn [map fst app]. rewrite IH by exact Hr. reflexivity.
Qed.

(** The keys after the loop: those that were there, then the new names in
    the order in which they were met. *)
Lemma assign_names_keys (tape : rand_tape) (prefix : pystr) (names : list pystr) :
  forall m pos,
    map fst (fst (assign_names tape prefix names m pos))
    = map fst m ++ new_names (map fst m) names.
Proof.
  induction names as [| n rest IH]; intros m pos.
  - cbn. rewrite app_nil_r. reflexivity.
  - cbn [assign_names new_names]. rewrite <- dict_mem_keys.
    destruct (dict_mem n m) eqn:E; [apply IH |].
    destruct (_generate_obfuscated_name tape pos prefix) as [alias pos1].
    rewrite IH, dict_set_new_key by exact E. rewrite <- app_assoc. reflexivity.
Qed.

Lemma existsb_bytes_eqb (n : pystr) (l : list pystr) :
  existsb (bytes_eqb n) l = false <-> ~ In n l.
Proof.
  split.
  - intros H Hin. assert (G : existsb (bytes_eqb n) l = true).
    { apply existsb_exists. exists n. split; [exact Hin | apply bytes_eqb_refl]. }
    rewrite H in G. discriminate G.
  - intros H. destruct (existsb (bytes_eqb n) l) eqn:E; [| reflexivity].
    apply existsb_exists in E as (x & Hx & Ex). apply bytes_eqb_eq in Ex. subst x.
    contradiction.
Qed.

Lemma new_names_nodup (names : list pystr) :
  forall known, NoDup known -> NoDup (known ++ new_names known names).
Proof.
  induction names as [| n rest IH]; intros known H.
  - cbn. rewrite app_nil_r. exact H.
  - cbn [new_names]. destruct (existsb (bytes_eqb n) known) eqn:E; [apply IH, H |].
    apply existsb_bytes_eqb in E.
    change (n :: new_names (known ++ [n]) rest)
      with ([n] ++ new_names (known ++ [n]) rest).
    rewrite app_assoc. apply IH.
    apply NoDup_app; [exact H | repeat constructor; intros [] |].
    intros x Hx [<- | []]. contradiction.
Qed.

(** X11.  After a call of [obfuscate] every map holds the
    entries it had and, after them, one entry for each listed name that
    had none, in the order in which the names were met; a name that is
    listed twice is entered once.  So the counts of
    [get_obfuscation_statistics] grow by the number of distinct new names
    of the passes that are on, and no name is counted twice. *)
Theorem statistics_count_names (re_sub : pystr -> pystr -> pystr -> pystr)
        (tape : rand_tape) (parsed_code : Parsed.t) (vars funcs classes : bool)
        (self : Obf.t) (pos : nat) :
  let after :=
    get_obfuscation_statistics
      (obfuscated re_sub tape parsed_code vars funcs classes self pos) in
  let new_variables :=
    if vars then new_names (map fst (Obf.variable_map self))
                           (Parsed.variables parsed_code)
    else [] in
  let new_functions :=
    if funcs then new_names (map fst (Obf.function_map self))
                            (map Item.name (Parsed.functions parsed_code))
    else [] in
  let new_classes :=
    if classes then new_names (map fst (Obf.class_map self))
                              (map Item.name (Parsed.classes parsed_code))
    else [] in
  (map fst (Stats.variable_map after)
   = map fst (Obf.variable_map self) ++ new_variables
   /\ map fst (Stats.function_map after)
      = map fst (Obf.function_map self) ++ new_functions
   /\ map fst (Stats.class_map after) = map fst (Obf.class_map self) ++ new_classes)
  /\ (Stats.obfuscated_variables after
      = (length (Obf.variable_map self) + length new_variables)%nat
      /\ Stats.obfuscated_functions after
         = (length (Obf.function_map self) + length new_functions)%nat
      /\ Stats.obfuscated_classes after
         = (length (Obf.class_map self) + length new_classes)%nat)
  /\ (NoDup (map fst (Obf.variable_map self)) ->
      NoDup (map fst (Stats.variable_map after))).
Proof.
  intros after new_variables new_functions new_classes.
  destruct (obfuscated_maps re_sub tape parsed_code vars funcs classes self pos)
    as (p1 & p2 & Ev & Ef & Ec).
  assert (Kv : map fst (Stats.variable_map after)
               = map fst (Obf.variable_map self) ++ new_variables).
  { subst after new_variables. cbn [get_obfuscation_statistics Stats.variable_map].
    rewrite Ev. destruct vars; [apply assign_names_keys |].
    rewrite app_nil_r. reflexivity. }
  assert (Kf : map fst (Stats.function_map after)
               = map fst (Obf.function_map self) ++ new_functions).
  { subst after new_functions. cbn [get_obfuscation_statistics Stats.function_map].
    rewrite Ef. destruct funcs; [apply assign_names_keys |].
    rewrite app_nil_r. reflexivity. }
  assert (Kc : map fst (Stats.class_map after)
               = map fst (Obf.class_map self) ++ new_classes).
  { subst after new_classes. cbn [get_obfuscation_statistics Stats.class_map].
    rewrite Ec. destruct classes; [apply assign_names_keys |].
    rewrite app_nil_r. reflexivity. }
  split; [auto |]. split.
  - apply (f_equal (@length pystr)) in Kv, Kf, Kc.
    rewrite length_app, !length_map in Kv, Kf, Kc. auto.
  - intros Hn. rewrite Kv. subst new_variables.
    destruct vars; [apply new_names_nodup, Hn | rewrite app_nil_r; exact Hn].
Qed.

(* ================================================================== *)
(** * [encrypt_file] with renaming *)
(* ================================================================== *)



(* ================================================================== *)
(** * Master keys *)
(* ================================================================== *)



(* ================================================================== *)
(** * The key package: written, then loaded *)
(* ================================================================== *)

Lemma json_escape_raw_plain (c : byte) : plain_char c = true -> json_escape_raw c = [c].
Proof.
  intros H.
  assert (G : implb (plain_char c) (bytes_eqb (json_escape_raw c) [c]) = true).
  { clear H. revert c. apply forall_byte. vm_compute. reflexivity. }
  rewrite H in G. apply bytes_eqb_eq, G.
Qed.

Lemma json_string_raw_plain (s : bytes) : plain s -> json_string_raw s = json_string s.
Proof.
  intros H. rewrite json_string_plain by exact H. unfold json_string_raw.
  cbn [app]. f_equal. f_equal.
  induction H as [| c s Hc Hs IH]; [reflexivity |].
  cbn [flat_map]. rewrite json_escape_raw_plain by exact Hc. rewrite IH. reflexivity.
Qed.

Lemma plain_no_cr (s : bytes) : plain s -> no_cr s = true.
Proof.
  intros H. unfold no_cr. apply forallb_forall. intros c Hc.
  unfold plain in H. rewrite Forall_forall in H. specialize (H c Hc).
  assert (G : implb (plain_char c) (negb (Byte.eqb c x0d)) = true).
  { clear. revert c. apply forall_byte. vm_compute. reflexivity. }
  rewrite H in G. exact G.
Qed.

(** A file of ASCII text without carriage return is read as it is. *)
Lemma read_text_ascii (s : bytes) :
  forallb is_ascii s = true -> no_cr s = true -> read_text s = Ok s.
Proof.
  intros Ha Hc. unfold read_text, utf8_decode, utf8_valid.
  rewrite (ascii_utf8_check false s Ha). cbn [of_option bind].
  rewrite universal_newlines_no_cr by exact Hc. reflexivity.
Qed.

Lemma skip_ws_newline (r : bytes) : skip_ws (x0a :: r) = skip_ws r.
Proof. reflexivity. Qed.

(** One member of an indented object whose value is a plain string,
    followed by another member. *)
Lemma parse_member_indented (f : nat) (key val rest : bytes) (acc : list (pystr * json)) :
  plain key -> plain val ->
  parse_members (S (S f))
    (json_string_raw key ++ lit ": " ++ json_string_raw val
     ++ lit "," ++ newline_indent 1 ++ rest) acc
  = parse_members (S f) (skip_ws rest) ((key, JStr val) :: acc).
Proof.
  intros Hk Hv. rewrite !json_string_raw_plain by assumption.
  rewrite (json_string_app key) by exact Hk.
  rewrite parse_members_step. byte_cmp.
  rewrite (scan_string_plain key Hk _ []). cbn [rev app]. rewrite str_of_items_raw.
  norm_lit. cbn [app]. ws_step. byte_cmp.
  rewrite skip_ws_json_string.
  rewrite parse_value_string by exact Hv.
  cbn [newline_indent Nat.mul Nat.add repeat app].
  ws_step. byte_cmp. rewrite skip_ws_newline. ws_step. reflexivity.
Qed.

(** The last member of an indented object, whose value is a natural
    number. *)
Lemma parse_member_indented_last (f n : nat) (key rest : bytes)
      (acc : list (pystr * json)) :
  plain key ->
  parse_members (S (S f))
    (json_string_raw key ++ lit ": " ++ decimal n ++ newline_indent 0 ++ lit "}" ++ rest)
    acc
  = Some (JObj (rev ((key, JNum (decimal n)) :: acc)), rest).
Proof.
  intros Hk. rewrite json_string_raw_plain by exact Hk.
  rewrite (json_string_app key) by exact Hk.
  rewrite parse_members_step. byte_cmp.
  rewrite (scan_string_plain key Hk _ []). cbn [rev app]. rewrite str_of_items_raw.
  norm_lit. cbn [app]. rewrite (skip_ws_stop ":") by reflexivity. byte_cmp.
  rewrite skip_ws_space.
  cbn [newline_indent Nat.mul repeat app].
  rewrite parse_value_decimal by reflexivity.
  rewrite skip_ws_newline. ws_step. byte_cmp. reflexivity.
Qed.

Lemma clean_app (a b : bytes) : clean (a ++ b) = clean a && clean b.
Proof.
  unfold clean, no_cr. rewrite !forallb_app.
  destruct (forallb is_ascii a), (forallb is_ascii b),
    (forallb (fun c => negb (Byte.eqb c x0d)) a); reflexivity.
Qed.

Lemma clean_plain (s : bytes) : plain s -> clean s = true.
Proof.
  intros H. unfold clean. rewrite (plain_ascii s H), (plain_no_cr s H). reflexivity.
Qed.

Lemma clean_json_string_raw (s : bytes) : plain s -> clean (json_string_raw s) = true.
Proof.
  intros H. rewrite json_string_raw_plain, json_string_plain by exact H.
  change (x22 :: s ++ [x22]) with ([x22] ++ s ++ [x22]).
  rewrite !clean_app, (clean_plain s H). reflexivity.
Qed.

Lemma read_text_clean (s : bytes) : clean s = true -> read_text s = Ok s.
Proof.
  unfold clean. intros H. apply andb_true_iff in H as [Ha Hc].
  apply read_text_ascii; assumption.
Qed.

(** The opening of an indented object. *)
Lemma parse_object_indented (f : nat) (key rest : bytes) :
  parse_value (S f) (skip_ws (lit "{" ++ newline_indent 1 ++ json_string_raw key ++ rest))
  = parse_members f (json_string_raw key ++ rest) [].
Proof.
  norm_lit. cbn [app newline_indent Nat.mul Nat.add repeat].
  ws_step. rewrite parse_value_step. byte_cmp.
  rewrite skip_ws_newline. ws_step.
  unfold json_string_raw. cbn [app]. ws_step. byte_cmp. reflexivity.
Qed.

Lemma skip_ws_json_string_raw (s rest : bytes) :
  skip_ws (json_string_raw s ++ rest) = json_string_raw s ++ rest.
Proof. reflexivity. Qed.

Ltac bytes_cmp :=
  repeat match goal with
         | |- context [bytes_eqb ?a ?b] =>
             let v := eval vm_compute in (bytes_eqb a b) in
             change (bytes_eqb a b) with v
         end.

(** The key file of a package gives the master key and the salt back. *)
Lemma load_keys_saved (master_key salt : bytes) (timestamp : pystr) :
  master_key <> [] -> salt <> [] -> plain timestamp ->
  load_keys
    (write_text
       (json_dump_indent 0
          (JObj [(lit "master_key", JStr (b64encode master_key));
                 (lit "salt", JStr (b64encode salt));
                 (lit "created_at", JStr timestamp);
                 (lit "algorithm", JStr (lit "AES-256-GCM"));
                 (lit "key_derivation", JStr (lit "PBKDF2-SHA256"));
                 (lit "iterations", JNum (decimal 100000))])))
  = Some (master_key, salt).
Proof.
  intros Hm Hs Ht.
  pose proof (b64_text_plain _ (b64encode_text master_key)) as Pm.
  pose proof (b64_text_plain _ (b64encode_text salt)) as Ps.
  assert (P1 : plain (lit "master_key")) by (apply Forall_forall, forallb_forall; reflexivity).
  assert (P2 : plain (lit "salt")) by (apply Forall_forall, forallb_forall; reflexivity).
  assert (P3 : plain (lit "created_at")) by (apply Forall_forall, forallb_forall; reflexivity).
  assert (P4 : plain (lit "algorithm")) by (apply Forall_forall, forallb_forall; reflexivity).
  assert (P5 : plain (lit "key_derivation"))
    by (apply Forall_forall, forallb_forall; reflexivity).
  assert (P6 : plain (lit "iterations")) by (apply Forall_forall, forallb_forall; reflexivity).
  assert (V4 : plain (lit "AES-256-GCM")) by (apply Forall_forall, forallb_forall; reflexivity).
  assert (V5 : plain (lit "PBKDF2-SHA256"))
    by (apply Forall_forall, forallb_forall; reflexivity).
  unfold write_text. cbn [json_dump_indent map join_sep fst snd].
  rewrite <- !app_assoc.
  set (content := lit "{" ++ _).
  assert (C : clean content = true).
  { subst content. rewrite !clean_app.
    rewrite !clean_json_string_raw by assumption. reflexivity. }
  assert (L : exists f, length content = S (S (S (S (S (S (S f))))))).
  { subst content. norm_lit. cbn [app newline_indent Nat.mul Nat.add repeat length].
    unfold json_string_raw. cbn [app flat_map length]. eexists. reflexivity. }
  destruct L as [f L].
  unfold load_keys, load_key_info. rewrite (read_text_clean content C). cbn [bind].
  unfold json_loads_str. rewrite L.
  assert (B : strip_prefix [xef; xbb; xbf] content = None) by reflexivity.
  rewrite B. subst content.
  rewrite parse_object_indented.
  do 5 (rewrite parse_member_indented by assumption;
        rewrite skip_ws_json_string_raw).
  rewrite <- (app_nil_r (lit "}")).
  rewrite parse_member_indented_last by assumption.
  cbn [skip_ws of_option rev app]. unfold obj_get_default. cbn [obj_get].
  bytes_cmp. cbn iota.
  destruct (b64encode master_key) as [| c m] eqn:Em;
    [exfalso; exact (b64encode_nonempty master_key Hm Em) |].
  destruct (b64encode salt) as [| d s] eqn:Es;
    [exfalso; exact (b64encode_nonempty salt Hs Es) |].
  rewrite <- Em, <- Es, !b64decode_encode. reflexivity.
Qed.

(** X14.  [generate_key_package] takes 32 bytes for the
    master key and then 16 for the salt from the system's entropy, and
    the key file that it writes gives both back: the decryption dialog,
    loading that file, gets the master key and the salt of the package.
    The time stamp is only assumed to need no escaping, as every
    [isoformat()] text does. *)
Theorem key_package_roundtrip (tape : entropy) (pos : nat)
        (output_dir timestamp stamp : pystr) :
  plain timestamp ->
  exists package,
    generate_key_package tape pos output_dir timestamp stamp
    = Ok (package, (pos + 32 + 16)%nat)
    /\ KeyPackage.master_key package = map tape (seq pos 32)
    /\ KeyPackage.salt package = map tape (seq (pos + 32) 16)
    /\ load_keys (KeyPackage.key_file_content package)
       = Some (KeyPackage.master_key package, KeyPackage.salt package).
Proof.
  intros Ht. unfold generate_key_package, generate_master_key, token_bytes, save_key_info.
  eexists. split; [reflexivity |].
  cbn [KeyPackage.master_key KeyPackage.salt KeyPackage.key_file_content].
  split; [reflexivity |]. split; [reflexivity |].
  apply load_keys_saved; [discriminate | discriminate | exact Ht].
Qed.

Lemma key_package_roundtrip_witness :
  plain (lit "2026-11-03T10:00:00.123456")
  /\ exists package,
       generate_key_package sample_tape 0 (lit "out")
                            (lit "2026-11-03T10:00:00.123456") (lit "20261103_100000")
       = Ok (package, (0 + 32 + 16)%nat)
       /\ KeyPackage.master_key package = map sample_tape (seq 0 32)
       /\ KeyPackage.salt package = map sample_tape (seq (0 + 32) 16)
       /\ load_keys (KeyPackage.key_file_content package)
          = Some (KeyPackage.master_key package, KeyPackage.salt package).
Proof.
  assert (H : plain (lit "2026-11-03T10:00:00.123456"))
    by (apply Forall_forall, forallb_forall; vm_compute; reflexivity).
  split; [exact H |].
  exact (key_package_roundtrip sample_tape 0%nat (lit "out")
           (lit "2026-11-03T10:00:00.123456") (lit "20261103_100000") H).
Defined.

(* ================================================================== *)
(** * File names on the way through the two dialogs *)
(* ================================================================== *)

Lemma replace_aux_skip (old new : bytes) :
  forall s k, replace_aux old new k s = replace_aux old new 0 (skipn k s).
Proof.
  induction s as [| c r IH]; intros k.
  - destruct k; reflexivity.
  - destruct k as [| k]; [reflexivity |]. cbn [replace_aux skipn]. apply IH.
Qed.

Lemma strip_prefix_skipn (m s t : bytes) :
  strip_prefix m s = Some t -> t = skipn (length m) s.
Proof.
  revert s. induction m as [| x m IH]; intros s H.
  - cbn in H. injection H as <-. reflexivity.
  - destruct s as [| y s]; [discriminate H |]. cbn [strip_prefix] in H.
    destruct (Byte.eqb x y); [| discriminate H]. cbn [length skipn]. apply IH, H.
Qed.

(** The two equations of [replace]: at a match the new text comes out and
    the scan goes on after the match; elsewhere one character is copied. *)
Lemma str_replace_match (old new s t : bytes) :
  old <> [] -> strip_prefix old s = Some t ->
  str_replace s old new = new ++ str_replace t old new.
Proof.
  intros Ho H. unfold str_replace. destruct s as [| c r].
  - destruct old; [congruence | discriminate H].
  - cbn [replace_aux]. rewrite H. rewrite replace_aux_skip.
    apply strip_prefix_skipn in H. destruct old as [| x old]; [congruence |].
    replace (length (x :: old) - 1)%nat with (length old) by (cbn [length]; lia).
    cbn [length skipn] in H. rewrite <- H. reflexivity.
Qed.

Lemma str_replace_copy (old new : bytes) (c : byte) (r : bytes) :
  strip_prefix old (c :: r) = None ->
  str_replace (c :: r) old new = c :: str_replace r old new.
Proof. intros H. unfold str_replace. cbn [replace_aux]. rewrite H. reflexivity. Qed.

Lemma str_replace_nil (old new : bytes) : str_replace [] old new = [].
Proof. reflexivity. Qed.

(** A stretch without the first character of the pattern is copied. *)
Lemma str_replace_free (x : byte) (old new w s : bytes) :
  forallb (fun c => negb (Byte.eqb x c)) w = true ->
  str_replace (w ++ s) (x :: old) new = w ++ str_replace s (x :: old) new.
Proof.
  induction w as [| c w IH]; intros H; [reflexivity |].
  cbn [forallb] in H. apply andb_true_iff in H as [Hc Hw].
  apply negb_true_iff in Hc. cbn [app].
  rewrite str_replace_copy by (cbn [strip_prefix]; rewrite Hc; reflexivity).
  rewrite IH by exact Hw. reflexivity.
Qed.


Lemma strip_prefix_inv (m s t : bytes) : strip_prefix m s = Some t -> s = m ++ t.
Proof.
  revert s. induction m as [| x m IH]; intros s H.
  - cbn in H. injection H as <-. reflexivity.
  - destruct s as [| y s]; [discriminate H |]. cbn [strip_prefix] in H.
    destruct (Byte.eqb x y) eqn:E; [| discriminate H].
    apply byte_eqb_eq in E. subst y. cbn [app]. f_equal. apply IH, H.
Qed.


(** A match in front of [a ++ rest] lies within [a], or [a] is shorter
    than the pattern. *)
Lemma strip_prefix_app_cases (m a rest t : bytes) :
  strip_prefix m (a ++ rest) = Some t ->
  (exists t', strip_prefix m a = Some t') \/ (length a < length m)%nat.
Proof.
  revert a. induction m as [| x m IH]; intros a H.
  - left. eexists. reflexivity.
  - destruct a as [| y a]; [right; cbn; lia |].
    cbn [app strip_prefix] in H |- *. destruct (Byte.eqb x y); [| discriminate H].
    destruct (IH a H) as [G | G]; [left; exact G | right; cbn [length]; lia].
Qed.



(** A pattern without a slash that matches in front of [a ++ "/" :: b]
    matches within [a]. *)
Lemma strip_prefix_before_slash (m a b t : bytes) :
  no_slash m = true -> strip_prefix m (a ++ "/" :: b) = Some t ->
  exists t', strip_prefix m a = Some t'.
Proof.
  revert a. induction m as [| x m IH]; intros a Hm H.
  - eexists. reflexivity.
  - cbn [no_slash forallb] in Hm. apply andb_true_iff in Hm as [Hx Hm].
    apply negb_true_iff in Hx.
    destruct a as [| y a]; cbn [app strip_prefix] in H |- *.
    + rewrite Hx in H. discriminate H.
    + destruct (Byte.eqb x y); [apply (IH a Hm H) | discriminate H].
Qed.

(** [replace] works on each component of a path when the pattern has no
    slash. *)
Lemma str_replace_slash (old new a b : bytes) :
  old <> [] -> no_slash old = true ->
  str_replace (a ++ "/" :: b) old new
  = str_replace a old new ++ "/" :: str_replace b old new.
Proof.
  intros Ho Hs. remember (length a) as n eqn:En.
  assert (Hn : (length a <= n)%nat) by lia. clear En. revert a Hn.
  induction n as [| n IH]; intros a Hn.
  - destruct a; [| cbn in Hn; lia]. cbn [app]. rewrite str_replace_nil. cbn [app].
    apply str_replace_copy.
    destruct (strip_prefix old ("/" :: b)) as [t |] eqn:E; [| reflexivity].
    destruct (strip_prefix_before_slash old [] b t Hs E) as [t' E'].
    destruct old; [congruence | discriminate E'].
  - destruct a as [| c a].
    + cbn [app]. rewrite str_replace_nil. cbn [app]. apply str_replace_copy.
      destruct (strip_prefix old ("/" :: b)) as [t |] eqn:E; [| reflexivity].
      destruct (strip_prefix_before_slash old [] b t Hs E) as [t' E'].
      destruct old; [congruence | discriminate E'].
    + destruct (strip_prefix old (c :: a)) as [t |] eqn:E.
      * rewrite (str_replace_match old new (c :: a) t Ho E).
        rewrite (str_replace_match old new _ (t ++ "/" :: b) Ho
                   (strip_prefix_some_app old (c :: a) ("/" :: b) t E)).
        rewrite IH, <- app_assoc; [reflexivity |].
        pose proof (strip_prefix_inv _ _ _ E) as Es.
        apply (f_equal (@length byte)) in Es. rewrite length_app in Es.
        destruct old; [congruence |]. cbn in Es, Hn. lia.
      * rewrite (str_replace_copy old new c a E).
        change ((c :: a) ++ "/" :: b) with (c :: a ++ "/" :: b).
        rewrite str_replace_copy.
        -- rewrite IH by (cbn in Hn; lia). reflexivity.
        -- destruct (strip_prefix old (c :: a ++ "/" :: b)) as [t |] eqn:E2;
             [| reflexivity].
           destruct (strip_prefix_before_slash old (c :: a) b t Hs E2) as [t' E'].
           congruence.
Qed.

Lemma no_slash_app (a b : bytes) : no_slash (a ++ b) = no_slash a && no_slash b.
Proof. apply forallb_app. Qed.

(** [replace] brings no slash into a text when the new text has none. *)
Lemma replace_aux_no_slash (old new : bytes) :
  no_slash new = true ->
  forall s k, no_slash s = true -> no_slash (replace_aux old new k s) = true.
Proof.
  intros Hn. induction s as [| c r IH]; intros k Hs; [reflexivity |].
  cbn [no_slash forallb] in Hs. apply andb_true_iff in Hs as [Hc Hr].
  cbn [replace_aux]. destruct k as [| k]; [| apply IH, Hr].
  destruct (strip_prefix old (c :: r)).
  - rewrite no_slash_app, Hn. apply IH, Hr.
  - cbn [no_slash forallb]. rewrite Hc. apply (IH 0%nat Hr).
Qed.

Lemma str_replace_no_slash (s old new : bytes) :
  no_slash s = true -> no_slash new = true -> no_slash (str_replace s old new) = true.
Proof. intros Hs Hn. apply replace_aux_no_slash; assumption. Qed.

(** The base name of a path has no slash. *)
Lemma basename_no_slash (p : pystr) : no_slash (basename p) = true.
Proof.
  unfold basename.
  assert (G : forall acc, no_slash acc = true ->
                no_slash (fold_left (fun acc c => if Byte.eqb c "/" then [] else acc ++ [c])
                                    p acc) = true).
  { induction p as [| c p IH]; intros acc Ha; [exact Ha |].
    cbn [fold_left]. destruct (Byte.eqb c "/") eqn:E; apply IH; [reflexivity |].
    rewrite no_slash_app, Ha. cbn. rewrite E. reflexivity. }
  apply G. reflexivity.
Qed.

Lemma basename_plain (name : pystr) : no_slash name = true -> basename name = name.
Proof. intros H. exact (basename_fold name H []). Qed.

Lemma endswith_app (a s : bytes) : endswith (a ++ s) s = true.
Proof. unfold endswith. rewrite rev_app_distr, strip_prefix_app. reflexivity. Qed.

Lemma endswith_slash (a : bytes) :
  endswith a (lit "/") = true -> exists a', a = a' ++ ["/"%byte].
Proof.
  unfold endswith. intros H.
  destruct (strip_prefix (rev (lit "/")) (rev a)) as [t |] eqn:E; [| discriminate H].
  apply strip_prefix_inv in E. exists (rev t).
  rewrite <- (rev_involutive a), E. rewrite rev_app_distr. reflexivity.
Qed.

(** [os.path.join] with a second part that is not absolute. *)
Lemma path_join_relative (out : pystr) (c : byte) (name : pystr) :
  Byte.eqb c "/" = false ->
  path_join out (c :: name)
  = match out with
    | [] => c :: name
    | _ => if endswith out (lit "/") then out ++ c :: name else out ++ "/" :: c :: name
    end.
Proof. intros E. unfold path_join. destruct c; try reflexivity. discriminate E. Qed.

(** The base name of the joined path, after a replacement, is the
    replacement of the name. *)
Lemma basename_replace_joined (out name old new : pystr) :
  old <> [] -> no_slash old = true -> no_slash new = true ->
  name <> [] -> no_slash name = true ->
  basename (str_replace (path_join out name) old new) = str_replace name old new.
Proof.
  intros Ho Hso Hsn Hne Hs.
  pose proof (str_replace_no_slash name old new Hs Hsn) as Hr.
  assert (D : forall a, basename (str_replace (a ++ "/" :: name) old new)
                        = str_replace name old new).
  { intros a. rewrite (str_replace_slash old new a name Ho Hso).
    apply basename_in_directory, Hr. }
  destruct name as [| c name']; [congruence |].
  destruct (Byte.eqb c "/") eqn:Ec.
  { cbn [no_slash forallb] in Hs. rewrite Ec in Hs. discriminate Hs. }
  rewrite (path_join_relative out c name' Ec). destruct out as [| o out'].
  - apply basename_plain, Hr.
  - destruct (endswith (o :: out') (lit "/")) eqn:Ee.
    + destruct (endswith_slash _ Ee) as [a' ->]. rewrite <- app_assoc. apply D.
    + apply D.
Qed.


(** [decrypt_file] without the path of the original behaves as with a
    path of the base name that it derives from the input path. *)
Lemma decrypt_file_derived_name (master_key file : bytes) (input_path input_path' F : pystr) :
  F <> [] ->
  basename (str_replace input_path encrypted_suffix php_suffix) = basename F ->
  decrypt_file master_key file input_path None
  = decrypt_file master_key file input_path' (Some F).
Proof.
  intros HF HB. unfold decrypt_file.
  destruct (read_text file) as [code | e]; cbn [bind]; [| reflexivity].
  destruct F as [| c F']; [congruence |].
  assert (K : generate_file_key master_key
                (str_replace input_path (lit ".encrypted.php") (lit ".php"))
              = generate_file_key master_key (c :: F')).
  { unfold generate_file_key.
    change (str_replace input_path (lit ".encrypted.php") (lit ".php"))
      with (str_replace input_path encrypted_suffix php_suffix).
    rewrite HB. reflexivity. }
  rewrite K. reflexivity.
Qed.

(** A match in front of [a ++ rest] that does not lie within [a]: [a] is
    where the pattern starts, and the rest of the pattern is in front of
    [rest]. *)
Lemma strip_prefix_straddle (m a rest t : bytes) :
  strip_prefix m (a ++ rest) = Some t -> (length a <= length m)%nat ->
  strip_prefix (skipn (length a) m) rest = Some t.
Proof.
  revert a. induction m as [| x m IH]; intros a H L.
  - destruct a; [exact H | cbn in L; lia].
  - destruct a as [| y a]; [exact H |].
    cbn [app strip_prefix] in H. destruct (Byte.eqb x y); [| discriminate H].
    cbn [length skipn]. apply IH; [exact H | cbn in L; lia].
Qed.

(** [.encrypted.php] does not overlap with itself: it matches in front of
    [a ++ ".encrypted.php" ++ t] only at once or within [a]. *)
Lemma encrypted_suffix_no_overlap (a t u : bytes) :
  a <> [] -> (length a < length encrypted_suffix)%nat ->
  strip_prefix encrypted_suffix (a ++ encrypted_suffix ++ t) = Some u -> False.
Proof.
  intros Ha L M.
  apply strip_prefix_straddle in M; [| lia].
  destruct a as [| c a]; [congruence |].
  cbn [length] in M, L. remember (length a) as k eqn:Ek. clear Ek Ha.
  change (length encrypted_suffix) with 14%nat in L.
  do 13 (destruct k as [| k]; [vm_compute in M; discriminate M |]).
  lia.
Qed.

(** [.encrypted.php] after a text is replaced as such, whatever the text
    before it. *)
Lemma replace_appended (a t : bytes) :
  str_replace (a ++ encrypted_suffix ++ t) encrypted_suffix php_suffix
  = str_replace a encrypted_suffix php_suffix
    ++ php_suffix ++ str_replace t encrypted_suffix php_suffix.
Proof.
  assert (Ho : encrypted_suffix <> []) by discriminate.
  remember (length a) as n eqn:En.
  assert (Hn : (length a <= n)%nat) by lia. clear En. revert a Hn.
  induction n as [| n IH]; intros a Hn.
  - destruct a; [| cbn in Hn; lia]. cbn [app]. rewrite str_replace_nil. cbn [app].
    apply str_replace_match; [exact Ho | apply strip_prefix_app].
  - destruct a as [| c a].
    + cbn [app]. rewrite str_replace_nil. cbn [app].
      apply str_replace_match; [exact Ho | apply strip_prefix_app].
    + destruct (strip_prefix encrypted_suffix ((c :: a) ++ encrypted_suffix ++ t))
        as [u |] eqn:E.
      * destruct (strip_prefix_app_cases _ _ _ _ E) as [[t' E'] | L].
        -- rewrite (str_replace_match _ _ _ _ Ho E').
           rewrite (str_replace_match _ _ _ _ Ho
                      (strip_prefix_some_app _ _ (encrypted_suffix ++ t) _ E')).
           rewrite IH, <- app_assoc; [reflexivity |].
           pose proof (strip_prefix_inv _ _ _ E') as Es.
           apply (f_equal (@length byte)) in Es. rewrite length_app in Es.
           change (length encrypted_suffix) with 14%nat in Es. cbn [length] in Es, Hn.
           lia.
        -- exfalso. apply (encrypted_suffix_no_overlap (c :: a) t u);
             [discriminate | exact L | exact E].
      * assert (E' : strip_prefix encrypted_suffix (c :: a) = None).
        { destruct (strip_prefix encrypted_suffix (c :: a)) as [t' |] eqn:E'; [| reflexivity].
          rewrite (strip_prefix_some_app _ _ (encrypted_suffix ++ t) _ E') in E.
          discriminate E. }
        rewrite (str_replace_copy _ _ _ _ E').
        change ((c :: a) ++ encrypted_suffix ++ t) with (c :: a ++ encrypted_suffix ++ t)
          in E |- *.
        rewrite (str_replace_copy _ _ _ _ E). rewrite IH by (cbn in Hn; lia).
        reflexivity.
Qed.


(* ================================================================== *)
(** * The two dialogs, one after the other *)
(* ================================================================== *)



(** X16.  For a file whose name does not end in [.php]
    (such as [page.phtml], which the tool also accepts), the encryption
    dialog writes the artifact under the name followed by
    [.encrypted.php], and [decrypt_file], as the decryption dialog calls
    it on that artifact, derives the file key from an identifier that ends
    in [.php], which is not the name of the original. *)
Theorem other_extension_key (master_key file : bytes) (dir file_path input_path : pystr) :
  endswith (basename file_path) php_suffix = false ->
  encrypted_name (basename file_path) = basename file_path ++ encrypted_suffix
  /\ decrypt_file master_key file
                  (path_join dir (encrypted_name (basename file_path))) None
     = decrypt_file master_key file input_path
                    (Some (str_replace (basename file_path) encrypted_suffix php_suffix
                           ++ php_suffix))
  /\ str_replace (basename file_path) encrypted_suffix php_suffix ++ php_suffix
     <> basename file_path.
Proof.
  intros He.
  assert (En : encrypted_name (basename file_path) = basename file_path ++ encrypted_suffix).
  { unfold encrypted_name. change (lit ".php") with php_suffix. rewrite He. reflexivity. }
  pose proof (basename_no_slash file_path) as Hs.
  split; [exact En |]. split.
  - rewrite En. apply decrypt_file_derived_name.
    + destruct (str_replace (basename file_path) encrypted_suffix php_suffix); discriminate.
    + rewrite basename_replace_joined.
      * rewrite <- (app_nil_r encrypted_suffix) at 1.
        rewrite replace_appended, str_replace_nil, app_nil_r.
        symmetry. apply basename_plain. rewrite no_slash_app.
        rewrite str_replace_no_slash by (exact Hs || reflexivity). reflexivity.
      * discriminate.
      * reflexivity.
      * reflexivity.
      * destruct (basename file_path); discriminate.
      * rewrite no_slash_app, Hs. reflexivity.
  - intros E. rewrite <- E, endswith_app in He. discriminate He.
Qed.

Lemma other_extension_key_witness :
  endswith (basename (lit "src/page.phtml")) php_suffix = false
  /\ encrypted_name (basename (lit "src/page.phtml"))
     = basename (lit "src/page.phtml") ++ encrypted_suffix
  /\ decrypt_file sample_master_key sample_artifact
                  (path_join (lit "out") (encrypted_name (basename (lit "src/page.phtml"))))
                  None
     = decrypt_file sample_master_key sample_artifact (lit "page.phtml.encrypted.php")
                    (Some (str_replace (basename (lit "src/page.phtml"))
                                       encrypted_suffix php_suffix ++ php_suffix))
  /\ str_replace (basename (lit "src/page.phtml")) encrypted_suffix php_suffix
     ++ php_suffix
     <> basename (lit "src/page.phtml").
Proof.
  assert (H1 : endswith (basename (lit "src/page.phtml")) php_suffix = false)
    by (vm_compute; reflexivity).
  split; [exact H1 |].
  exact (other_extension_key sample_master_key sample_artifact (lit "out")
           (lit "src/page.phtml") (lit "page.phtml.encrypted.php") H1).
Defined.

(* ================================================================== *)
(** * The variables of a text *)
(* ================================================================== *)

Lemma str_in_In (x : pystr) (l : list pystr) : str_in x l = true <-> In x l.
Proof.
  unfold str_in. rewrite existsb_exists. split.
  - intros (y & Hy & E). apply bytes_eqb_eq in E. subst y. exact Hy.
  - intros H. exists x. split; [exact H | apply bytes_eqb_refl].
Qed.

Lemma str_in_not_In (x : pystr) (l : list pystr) : str_in x l = false <-> ~ In x l.
Proof.
  rewrite <- str_in_In. destruct (str_in x l); split; congruence.
Qed.

(** The first byte of a character that may start an identifier starts a
    character and is no dollar sign. *)
Lemma ident_start_head (ch : bytes) :
  ident_start ch = true ->
  exists c t, ch = c :: t /\ utf8_cont c = false /\ Byte.eqb c "$" = false.
Proof.
  destruct ch as [| c [| d [| e t]]]; cbn [ident_start]; intros H; try discriminate H.
  - exists c, []. split; [reflexivity |].
    assert (G : implb (ascii_letter c || Byte.eqb c "_")
                      (negb (utf8_cont c) && negb (Byte.eqb c "$")) = true).
    { clear H. revert c. apply forall_byte. vm_compute. reflexivity. }
    rewrite H in G. cbn [implb] in G. apply andb_true_iff in G as [G1 G2].
    apply negb_true_iff in G1, G2. split; assumption.
  - exists c, [d]. split; [reflexivity |].
    apply andb_true_iff in H as [H _]. apply orb_true_iff in H as [H | H];
      apply byte_eqb_eq in H; subst c; split; reflexivity.
Qed.

(** Every match is the dollar sign and a name. *)
Lemma find_variables_shape (s : list bytes) :
  forall skip v, In v (find_variables skip s) -> dollar_name v = true.
Proof.
  induction s as [| ch r IH]; intros skip v H; [destruct H |].
  cbn [find_variables] in H. destruct skip as [| k]; [| exact (IH _ _ H)].
  destruct (bytes_eqb ch (lit "$")); [| exact (IH _ _ H)].
  destruct r as [| c1 r1]; [destruct H |].
  destruct (ident_start c1) eqn:E; [| exact (IH _ _ H)].
  destruct (span_ident r1) as [i rest]. destruct H as [<- | H]; [| exact (IH _ _ H)].
  destruct (ident_start_head c1 E) as (c & t & -> & Hc & Hd).
  cbn. rewrite Hc, Hd. reflexivity.
Qed.

Lemma lstrip_dollar_name (v : pystr) : dollar_name v = true -> lstrip_dollar v = tl v.
Proof.
  destruct v as [| d [| c r]]; cbn [dollar_name]; intros H; try discriminate H.
  apply andb_true_iff in H as [H Hc]. apply andb_true_iff in H as [Hd _].
  apply negb_true_iff in Hc. cbn [lstrip_dollar tl]. rewrite Hd, Hc. reflexivity.
Qed.

(** The loop of [extract_variables]: the list stays without duplicates,
    and it holds what it held and the names that pass the filter. *)
Lemma extract_loop (matches : list pystr) :
  forall acc,
    NoDup acc ->
    NoDup (fold_left
             (fun variables var_name =>
                if negb (_should_obfuscate_variable var_name) then variables
                else if negb (str_in var_name variables) then variables ++ [var_name]
                else variables) matches acc)
    /\ forall v,
         In v (fold_left
                 (fun variables var_name =>
                    if negb (_should_obfuscate_variable var_name) then variables
                    else if negb (str_in var_name variables) then variables ++ [var_name]
                    else variables) matches acc)
         <-> In v acc \/ (In v matches /\ _should_obfuscate_variable v = true).
Proof.
  induction matches as [| m rest IH]; intros acc Hacc.
  - cbn [fold_left]. split; [exact Hacc |]. intros v. split; [auto |].
    intros [H | [[] _]]. exact H.
  - cbn [fold_left]. destruct (_should_obfuscate_variable m) eqn:Es; cbn [negb].
    + destruct (str_in m acc) eqn:Ei; cbn [negb].
      * destruct (IH acc Hacc) as [N I]. split; [exact N |]. intros v. rewrite I.
        apply str_in_In in Ei. split.
        -- intros [H | [H S]]; [left; exact H | right; split; [right; exact H | exact S]].
        -- intros [H | [[<- | H] S]]; [left; exact H | left; exact Ei |].
           right. split; assumption.
      * apply str_in_not_In in Ei.
        assert (N' : NoDup (acc ++ [m])).
        { apply NoDup_app; [exact Hacc | repeat constructor; intros [] |].
          intros x Hx [<- | []]. contradiction. }
        destruct (IH (acc ++ [m]) N') as [N I]. split; [exact N |]. intros v. rewrite I.
        rewrite in_app_iff. cbn [In]. split.
        -- intros [[H | [<- | []]] | [H S]].
           ++ left; exact H.
           ++ right. split; [left; reflexivity | exact Es].
           ++ right. split; [right; exact H | exact S].
        -- intros [H | [[<- | H] S]].
           ++ left. left. exact H.
           ++ left. right. left. reflexivity.
           ++ right. split; assumption.
    + destruct (IH acc Hacc) as [N I]. split; [exact N |]. intros v. rewrite I. split.
      * intros [H | [H S]]; [left; exact H | right; split; [right; exact H | exact S]].
      * intros [H | [[<- | H] S]]; [left; exact H | congruence |].
        right. split; assumption.
Qed.

Lemma extract_variables_spec (code : pystr) :
  NoDup (extract_variables code)
  /\ forall v, In v (extract_variables code)
               <-> In v (find_variables 0 (utf8_chars code))
                   /\ _should_obfuscate_variable v = true.
Proof.
  destruct (extract_loop (find_variables 0 (utf8_chars code)) [] (NoDup_nil _)) as [N I].
  split; [exact N |]. intros v. unfold extract_variables. rewrite I. cbn [In]. tauto.
Qed.

Lemma extract_variables_dollar (code v : pystr) :
  In v (extract_variables code) -> dollar_name v = true.
Proof.
  intros H. apply extract_variables_spec in H as [H _].
  exact (find_variables_shape _ _ _ H).
Qed.

(** X17.  The list that [extract_variables] returns
    has no name twice, and it holds exactly the matches of the variable
    pattern that [_should_obfuscate_variable] lets pass.  So each of its
    names is a dollar sign and an identifier, none is a superglobal or
    [$this], none is a reserved word behind a dollar sign (such as [$list]
    or [$class], which PHP allows as variables), and a name of one letter
    is one of [$i], [$j], [$k], [$v], [$n]. *)
Theorem extract_variables_sound (code : pystr) :
  NoDup (extract_variables code)
  /\ (forall v, In v (extract_variables code)
                <-> In v (find_variables 0 (utf8_chars code))
                    /\ _should_obfuscate_variable v = true)
  /\ (forall v, In v (extract_variables code) ->
                dollar_name v = true
                /\ ~ In v superglobals
                /\ ~ In (tl v) reserved_keywords
                /\ ((length (utf8_chars v) <= 2)%nat ->
                    In v (map lit ["$i"; "$j"; "$k"; "$v"; "$n"]%string))).
Proof.
  destruct (extract_variables_spec code) as [N I].
  split; [exact N |]. split; [exact I |].
  intros v Hv. pose proof (extract_variables_dollar code v Hv) as D.
  apply I in Hv as [_ S]. unfold _should_obfuscate_variable in S.
  split; [exact D |].
  destruct (str_in v superglobals) eqn:E1; [discriminate S |].
  destruct (str_in v magic_constants) eqn:E2; [discriminate S |].
  destruct (str_in (lstrip_dollar v) reserved_keywords) eqn:E3; [discriminate S |].
  rewrite (lstrip_dollar_name v D) in E3.
  split; [apply str_in_not_In, E1 |]. split; [apply str_in_not_In, E3 |].
  intros L. apply Nat.leb_le in L. rewrite L in S. cbn [andb] in S.
  destruct (str_in v (map lit ["$i"; "$j"; "$k"; "$v"; "$k"; "$n"]%string)) eqn:E4;
    [| discriminate S].
  apply str_in_In in E4. cbn [map In] in E4 |- *. tauto.
Qed.

(* ================================================================== *)
(** * The substitution of [_obfuscate_variables] *)
(* ================================================================== *)

Lemma concat_utf8_chars (s : bytes) : concat (utf8_chars s) = s.
Proof.
  induction s as [| c r IH]; [reflexivity |].
  cbn [utf8_chars]. destruct (utf8_chars r) as [| [| d ch] l].
  - cbn in IH |- *. rewrite <- IH. reflexivity.
  - cbn [concat app] in IH |- *. rewrite IH. reflexivity.
  - destruct (utf8_cont d); cbn [concat app] in IH |- *; rewrite IH; reflexivity.
Qed.

(** The characters of a name that starts as [dollar_name] says: the
    dollar sign is one of them. *)
Lemma utf8_chars_dollar_name (v : pystr) :
  dollar_name v = true -> exists l, utf8_chars v = lit "$" :: l.
Proof.
  destruct v as [| d [| c r]]; cbn [dollar_name]; intros H; try discriminate H.
  apply andb_true_iff in H as [H _]. apply andb_true_iff in H as [Hd Hc].
  apply byte_eqb_eq in Hd. subst d. apply negb_true_iff in Hc.
  change (utf8_chars ("$" :: c :: r))
    with (match utf8_chars (c :: r) with
          | (d :: ch) :: l =>
              if utf8_cont d then ("$"%byte :: d :: ch) :: l
              else ["$"%byte] :: (d :: ch) :: l
          | l => ["$"%byte] :: l
          end).
  assert (G : exists t l, utf8_chars (c :: r) = (c :: t) :: l).
  { cbn [utf8_chars]. destruct (utf8_chars r) as [| [| e ch] l]; [eauto | eauto |].
    destruct (utf8_cont e); eauto. }
  destruct G as (t & l & ->). rewrite Hc. eexists. reflexivity.
Qed.

Section Unchanged.

Variable is_word_wide : bytes -> bool.

(** The pattern of a name does not match where the text has no dollar
    sign after a word character. *)
Lemma match_here_apart (o : list bytes) (prev : option bytes) (s : list bytes) :
  dollars_apart is_word_wide prev s = true ->
  match_here is_word_wide (lit "$" :: o) prev s = false.
Proof.
  intros H. unfold match_here. destruct s as [| ch r].
  - cbn [strip_prefix_chars]. rewrite andb_false_r. reflexivity.
  - cbn [strip_prefix_chars]. destruct (bytes_eqb (lit "$") ch) eqn:E;
      [| rewrite andb_false_r; reflexivity].
    apply bytes_eqb_eq in E. subst ch. cbn [dollars_apart] in H.
    apply andb_true_iff in H as [H _]. rewrite bytes_eqb_refl in H. cbn [andb] in H.
    apply negb_true_iff in H. cbn [hd_error]. unfold boundary. rewrite H.
    cbn [word_at]. change (is_word is_word_wide (lit "$")) with false. cbn [xorb].
    rewrite andb_false_r. reflexivity.
Qed.

Lemma sub_scan_apart (o : list bytes) (repl : pystr) (s : list bytes) :
  forall prev,
    dollars_apart is_word_wide prev s = true ->
    sub_scan is_word_wide (lit "$" :: o) repl 0 prev s = concat s.
Proof.
  induction s as [| ch r IH]; intros prev H.
  - cbn [sub_scan]. rewrite (match_here_apart o prev [] H). reflexivity.
  - cbn [sub_scan]. rewrite (match_here_apart o prev (ch :: r) H).
    cbn [dollars_apart] in H. apply andb_true_iff in H as [_ H].
    rewrite (IH (Some ch) H). reflexivity.
Qed.

(** In ordinary code the substitution for a variable changes nothing. *)
Lemma sub_variable_ordinary (original repl code : pystr) :
  dollar_name original = true -> ordinary is_word_wide code = true ->
  sub_variable is_word_wide original repl code = code.
Proof.
  intros D O. unfold sub_variable.
  destruct (utf8_chars_dollar_name original D) as [l ->].
  rewrite (sub_scan_apart l repl _ None O). apply concat_utf8_chars.
Qed.

Variable re_sub : pystr -> pystr -> pystr -> pystr.
Hypothesis engine : sub_variable_engine is_word_wide re_sub.

(** The second loop of [_obfuscate_variables] in ordinary code. *)
Lemma substitutions_ordinary (code : pystr) (m : dict) :
  ordinary is_word_wide code = true ->
  (forall k v, In (k, v) m -> dollar_name k = true /\ no_backslash v = true) ->
  fold_left
    (fun result kv =>
       let pattern :=
         lit "(?<![\'" ++ [x22] ++ lit "$])\b" ++ re_escape (fst kv) ++ lit "\b" in
       re_sub pattern (snd kv) result)
    m code
  = code.
Proof.
  intros O. induction m as [| [k v] m IH]; intros H; [reflexivity |].
  cbn [fold_left fst snd]. destruct (H k v (or_introl eq_refl)) as [D B].
  change (lit "(?<![\'" ++ [x22] ++ lit "$])\b" ++ re_escape k ++ lit "\b")
    with (variable_pattern k).
  rewrite (engine k v code B), (sub_variable_ordinary k v code D O).
  apply IH. intros k' v' Hin. apply (H k' v'). right. exact Hin.
Qed.

End Unchanged.

Lemma re_unescape_escape (s : bytes) : re_unescape (re_escape s) = s.
Proof.
  induction s as [| c r IH]; [reflexivity |].
  unfold re_escape. cbn [flat_map]. fold (re_escape r).
  destruct (existsb (Byte.eqb c) re_special) eqn:E.
  - cbn [app re_unescape]. change (Byte.eqb x5c x5c) with true. cbn iota.
    rewrite IH. reflexivity.
  - cbn [app re_unescape]. destruct (Byte.eqb c x5c) eqn:B.
    + apply byte_eqb_eq in B. subst c. vm_compute in E. discriminate E.
    + rewrite IH. reflexivity.
Qed.

Lemma strip_suffix_app (a s : bytes) : strip_suffix s (a ++ s) = Some a.
Proof.
  unfold strip_suffix. rewrite rev_app_distr, strip_prefix_app, rev_involutive.
  reflexivity.
Qed.

(** The engine that knows the variable patterns is right about them. *)
Lemma re_sub_variables_engine (is_word_wide : bytes -> bool) :
  sub_variable_engine is_word_wide (re_sub_variables is_word_wide).
Proof.
  intros original repl text _. unfold re_sub_variables, variable_pattern.
  replace (lit "(?<![\'" ++ [x22] ++ lit "$])\b" ++ re_escape original ++ lit "\b")
    with ((lit "(?<![\'" ++ [x22] ++ lit "$])\b") ++ re_escape original ++ lit "\b")
    by (rewrite <- !app_assoc; reflexivity).
  rewrite strip_prefix_app, strip_suffix_app, re_unescape_escape. reflexivity.
Qed.

Lemma var_alias_no_backslash (v : pystr) : var_alias v = true -> no_backslash v = true.
Proof.
  destruct v as [| c name]; cbn [var_alias]; intros H; [discriminate H |].
  apply andb_true_iff in H as [H Hn]. apply andb_true_iff in H as [H _].
  apply andb_true_iff in H as [Hc _]. apply byte_eqb_eq in Hc. subst c.
  unfold no_backslash. cbn [forallb]. change (negb (Byte.eqb "$" x5c)) with true.
  cbn [andb]. apply forallb_forall. intros c Hc. rewrite forallb_forall in Hn.
  specialize (Hn c Hc).
  assert (G : implb (is_alnum c) (negb (Byte.eqb c x5c)) = true).
  { clear. revert c. apply forall_byte. vm_compute. reflexivity. }
  rewrite Hn in G. exact G.
Qed.

Lemma dict_set_entries (P : pystr * pystr -> Prop) (k v : pystr) (m : dict) :
  P (k, v) -> Forall P m -> Forall P (dict_set k v m).
Proof.
  intros Hk. induction 1 as [| [k' v'] r Hx Hr IH]; cbn [dict_set].
  - repeat constructor. exact Hk.
  - destruct (bytes_eqb k k') eqn:E.
    + apply bytes_eqb_eq in E. subst k'. constructor; assumption.
    + constructor; assumption.
Qed.

(** The first loop of [_obfuscate_variables] on names that start as
    [dollar_name] says: every entry keeps such a key and an alias without
    backslash. *)
Lemma assign_names_entries (tape : rand_tape) (names : list pystr) :
  Forall (fun n => dollar_name n = true) names ->
  forall m pos,
    Forall (fun kv => dollar_name (fst kv) = true /\ no_backslash (snd kv) = true) m ->
    Forall (fun kv => dollar_name (fst kv) = true /\ no_backslash (snd kv) = true)
           (fst (assign_names tape (lit "var") names m pos)).
Proof.
  induction 1 as [| n rest Hn Hrest IH]; intros m pos Hm; [exact Hm |].
  cbn [assign_names]. destruct (dict_mem n m); [apply IH, Hm |].
  pose proof (generated_var_alias tape pos) as G.
  destruct (_generate_obfuscated_name tape pos (lit "var")) as [alias pos'].
  cbn [fst] in G. apply IH. apply dict_set_entries; [| exact Hm].
  cbn [fst snd]. split; [exact Hn | apply var_alias_no_backslash, G].
Qed.

(** [_obfuscate_variables] on the variables of ordinary code. *)
Lemma obfuscate_variables_ordinary (is_word_wide : bytes -> bool)
      (re_sub : pystr -> pystr -> pystr -> pystr) (tape : rand_tape)
      (code : pystr) (self : Obf.t) (pos : nat) :
  sub_variable_engine is_word_wide re_sub ->
  ordinary is_word_wide code = true ->
  Forall (fun kv => dollar_name (fst kv) = true /\ no_backslash (snd kv) = true)
         (Obf.variable_map self) ->
  fst (fst (_obfuscate_variables re_sub tape code (extract_variables code) self pos))
  = code
  /\ forall v, In v (extract_variables code) ->
               dict_mem v (Obf.variable_map
                             (snd (fst (_obfuscate_variables re_sub tape code
                                          (extract_variables code) self pos))))
               = true.
Proof.
  intros E O M. unfold _obfuscate_variables.
  assert (D : Forall (fun n => dollar_name n = true) (extract_variables code)).
  { apply Forall_forall. intros v Hv. exact (extract_variables_dollar code v Hv). }
  pose proof (assign_names_entries tape (extract_variables code) D
                (Obf.variable_map self) pos M) as A.
  destruct (assign_names_spec tape (lit "var") (extract_variables code)
              (Obf.variable_map self) pos) as (_ & L & _).
  destruct (assign_names tape (lit "var") (extract_variables code)
                         (Obf.variable_map self) pos) as [m pos'].
  cbn [fst snd Obf.variable_map] in A, L |- *. split; [| exact L].
  apply (substitutions_ordinary is_word_wide re_sub E code m O).
  intros k v Hin. rewrite Forall_forall in A. exact (A (k, v) Hin).
Qed.

(** X18.  In code as it is usually written, where no
    dollar sign directly follows a letter, a digit or an underscore,
    [obfuscate] with the variable option alone gives every variable of the
    text an alias and returns the text unchanged: the pattern of
    [_obfuscate_variables] asks for a word boundary in front of the dollar
    sign, and there is none at the start of the text or after white space,
    a bracket or an operator.  The engine is only assumed to treat these
    patterns as [re.sub] does. *)
Theorem variables_left_in_ordinary_code (is_word_wide : bytes -> bool)
        (re_sub : pystr -> pystr -> pystr -> pystr) (tape : rand_tape)
        (code : pystr) (functions classes : list Item.t) (self : Obf.t) (pos : nat) :
  sub_variable_engine is_word_wide re_sub ->
  ordinary is_word_wide code = true ->
  Forall (fun kv => dollar_name (fst kv) = true /\ no_backslash (snd kv) = true)
         (Obf.variable_map self) ->
  fst (fst (obfuscate re_sub tape
                      (Parsed.mk code (extract_variables code) functions classes)
                      true false false self pos))
  = code
  /\ forall v, In v (extract_variables code) ->
               dict_mem v (Obf.variable_map
                             (snd (fst (obfuscate re_sub tape
                                          (Parsed.mk code (extract_variables code)
                                                     functions classes)
                                          true false false self pos))))
               = true.
Proof.
  intros E O M.
  destruct (obfuscate_variables_ordinary is_word_wide re_sub tape code self pos E O M)
    as [C K].
  unfold obfuscate. cbn [Parsed.original_code Parsed.variables].
  destruct (_obfuscate_variables re_sub tape code (extract_variables code) self pos)
    as [[result self'] pos'].
  cbn [fst snd] in C, K |- *. split; [exact C | exact K].
Qed.

Lemma variables_left_in_ordinary_code_witness :
  sub_variable_engine (fun _ => false) (re_sub_variables (fun _ => false))
  /\ ordinary (fun _ => false) (lit "<?php $name = 1; echo $name;") = true
  /\ Forall (fun kv => dollar_name (fst kv) = true /\ no_backslash (snd kv) = true)
            (Obf.variable_map fresh)
  /\ fst (fst (obfuscate (re_sub_variables (fun _ => false)) zero_tape
                         (Parsed.mk (lit "<?php $name = 1; echo $name;")
                                    (extract_variables
                                       (lit "<?php $name = 1; echo $name;"))
                                    [] [])
                         true false false fresh 0))
     = lit "<?php $name = 1; echo $name;"
  /\ forall v, In v (extract_variables (lit "<?php $name = 1; echo $name;")) ->
               dict_mem v (Obf.variable_map
                             (snd (fst (obfuscate (re_sub_variables (fun _ => false))
                                          zero_tape
                                          (Parsed.mk
                                             (lit "<?php $name = 1; echo $name;")
                                             (extract_variables
                                                (lit "<?php $name = 1; echo $name;"))
                                             [] [])
                                          true false false fresh 0))))
               = true.
Proof.
  assert (H2 : ordinary (fun _ => false) (lit "<?php $name = 1; echo $name;") = true)
    by (vm_compute; reflexivity).
  split; [apply re_sub_variables_engine |]. split; [exact H2 |].
  split; [constructor |].
  exact (variables_left_in_ordinary_code (fun _ => false)
           (re_sub_variables (fun _ => false)) zero_tape
           (lit "<?php $name = 1; echo $name;") [] [] fresh 0%nat
           (re_sub_variables_engine (fun _ => false)) H2 (Forall_nil _)).
Defined.


